(** * Presence service: the TTL store and the WebSocket broadcast adapter

    A shallow embedding of [src/presenceStore.ts], of the WebSocket adapters
    ([src/wsServer.ts] and the adapter that keeps a subscription registry)
    and of the HTTP heartbeat route of [src/server.ts], with the properties
    the specification states about them.

    Modelling conventions.
    - A JavaScript [number] that holds a timestamp or a duration in
      milliseconds is a [Z]; [NaN], the infinities and fractions are outside
      the model.
    - [Date.now()] is an effect: the world carries the sequence of values the
      clock will return and the number of readings consumed so far, so two
      readings inside one method may differ.
    - [ws.send] is an effect that may throw; whether it does is a property of
      the connection, fixed during one handler run.
    - Code runs in a state-and-exception monad over the world; state changes
      made before a throw persist, as in JavaScript.
    - The world also keeps the trace of the calls of [upsert], [markOffline]
      and [notifySubscribers], so that their order can be stated. *)

From stdpp Require Import gmap strings list fin_maps.
From Stdlib Require Import ZArith Lia Sorted.

#[local] Open Scope Z_scope.
#[local] Set Warnings "-register-all,-clear-no-such-hyp".

(** ** Data model ([src/presenceStore.ts]) *)

(** [type PresenceStatus = "online" | "away" | "busy"] *)
Inductive PresenceStatus := online | away | busy.

#[global] Instance PresenceStatus_eq_dec : EqDecision PresenceStatus.
Proof. solve_decision. Defined.

(** A metadata value: [string | number | boolean]. *)
Inductive Scalar :=
| SString (s : string)
| SNumber (z : Z)
| SBoolean (b : bool).

(** [Record<string, string | number | boolean>], kept as the list of its
    entries; the store never looks inside. *)
Definition Metadata := list (string * Scalar).

(** [interface PresenceRecord]; [metadata] is optional. *)
Record PresenceRecord := {
  userId : string;
  status : PresenceStatus;
  lastSeen : Z;
  expiresAt : Z;
  metadata : option Metadata
}.

(** [interface PresenceSnapshot extends PresenceRecord]: the fields of the
    record ([...record]) and the two derived ones. *)
Record PresenceSnapshot := {
  base : PresenceRecord;
  isOnline : bool;
  ttlMs : Z
}.

(** The [overrides] argument of [upsert]. *)
Record Overrides := {
  o_ttlMs : option Z;
  o_metadata : option Metadata
}.

(** ** Values that arrive over the wire *)

(** What [JSON.parse] produces. *)
Inductive JSON :=
| JNull
| JBool (b : bool)
| JNum (z : Z)
| JStr (s : string)
| JArr (items : list JSON)
| JObj (fields : list (string * JSON)).

(** JavaScript truthiness of a parsed value. *)
Definition truthy (v : JSON) : bool :=
  match v with
  | JNull => false
  | JBool b => b
  | JNum z => negb (z =? 0)
  | JStr s => negb (String.eqb s "")
  | JArr _ => true
  | JObj _ => true
  end.

(** Truthiness of a property read; a missing property is [undefined]. *)
Definition truthy_prop (p : option JSON) : bool :=
  match p with
  | Some v => truthy v
  | None => false
  end.

(** [p === s] for a string literal [s]. *)
Definition is_literal (p : option JSON) (s : string) : bool :=
  match p with
  | Some (JStr t) => String.eqb t s
  | _ => false
  end.

(** [Array.isArray(p)] *)
Definition is_array (p : option JSON) : bool :=
  match p with
  | Some (JArr _) => true
  | _ => false
  end.

(** The elements of [p] when it is an array. *)
Definition array_items (p : option JSON) : list JSON :=
  match p with
  | Some (JArr items) => items
  | _ => []
  end.

(** [arr.filter((id) => typeof id === "string")] *)
Fixpoint filter_strings (items : list JSON) : list string :=
  match items with
  | [] => []
  | JStr s :: rest => s :: filter_strings rest
  | _ :: rest => filter_strings rest
  end.

(** The parsed message as the handlers look at it.  The properties the
    handlers test dynamically ([type], [userId], [userIds], [friendIds]) and
    the echoed [requestId] are arbitrary parsed values; the properties that
    are handed unchecked to the typed parameters of [upsert] ([status],
    [ttlMs], [metadata]) carry the types those parameters declare.  A
    [ttlMs] that is no number is the matter of [UncheckedTtl] below. *)
Record ClientMsg := {
  m_type : option JSON;
  m_userId : option JSON;
  m_status : option PresenceStatus;
  m_ttlMs : option Z;
  m_metadata : option Metadata;
  m_userIds : option JSON;
  m_requestId : option JSON;
  m_friendIds : option JSON
}.

(** The frame a connection delivers to its message handler:
    [JSON.parse(data.toString())] either throws, or yields [null] (every
    property read on it throws), or yields a value whose properties can be
    read. *)
Inductive Inbound :=
| Unparseable
| ParsedNull
| Parsed (msg : ClientMsg).

(** ** Messages the server sends *)

(** ["online" | "away" | "busy" | "offline"] *)
Inductive EffectiveStatus :=
| Stored (s : PresenceStatus)
| offline.

#[global] Instance EffectiveStatus_eq_dec : EqDecision EffectiveStatus.
Proof. solve_decision. Defined.

(** One element of the [users] array of a reply or an update;
    [u_metadata = None] is [null]. *)
Record UserEntry := {
  u_userId : string;
  u_status : EffectiveStatus;
  u_lastSeen : Z;
  u_metadata : option Metadata
}.

Inductive ServerMsg :=
| HeartbeatAck (uid : string)
| ErrorReply
| PresenceResponse (requestId : option JSON) (users : list UserEntry)
| FriendsPresenceUpdate (users : list UserEntry).

(** ** The world *)

Definition Conn := nat.

Inductive ReadyState := CONNECTING | OPEN | CLOSING | CLOSED.

#[global] Instance ReadyState_eq_dec : EqDecision ReadyState.
Proof. solve_decision. Defined.

(** [type Subscription = { ws: WebSocket; friendIds: Set<string> }] *)
Record Subscription := {
  ws : Conn;
  friendIds : gset string
}.

(** Calls of the store mutators and of the broadcast, in the order they are
    made.  The key is the run-time value of the argument. *)
Inductive Call :=
| CallUpsert (key : JSON)
| CallMarkOffline (key : JSON)
| CallNotify (key : JSON) (st : EffectiveStatus) (seen : Z).

Record World := mkWorld {
  clock : nat -> Z;                          (* successive values of Date.now() *)
  reads : nat;                               (* readings consumed so far *)
  this_ttlMs : Z;                            (* PresenceStore.ttlMs *)
  this_store : gmap string PresenceRecord;   (* PresenceStore.store *)
  subscriptions : list (Conn * Subscription);(* Map<WebSocket, Subscription>, insertion order *)
  userIdVar : Conn -> option JSON;           (* the [userId] variable of each connection closure *)
  readyState : Conn -> ReadyState;
  sendThrows : Conn -> bool;                 (* whether ws.send throws on this connection *)
  sent : list (Conn * ServerMsg);            (* frames handed to ws.send without a throw *)
  calls : list Call
}.

Definition set_reads (n : nat) (w : World) : World :=
  mkWorld (clock w) n (this_ttlMs w) (this_store w) (subscriptions w)
          (userIdVar w) (readyState w) (sendThrows w) (sent w) (calls w).

Definition set_store (s : gmap string PresenceRecord) (w : World) : World :=
  mkWorld (clock w) (reads w) (this_ttlMs w) s (subscriptions w)
          (userIdVar w) (readyState w) (sendThrows w) (sent w) (calls w).

Definition set_subscriptions (s : list (Conn * Subscription)) (w : World) : World :=
  mkWorld (clock w) (reads w) (this_ttlMs w) (this_store w) s
          (userIdVar w) (readyState w) (sendThrows w) (sent w) (calls w).

Definition set_userIdVar (f : Conn -> option JSON) (w : World) : World :=
  mkWorld (clock w) (reads w) (this_ttlMs w) (this_store w) (subscriptions w)
          f (readyState w) (sendThrows w) (sent w) (calls w).

Definition set_sent (l : list (Conn * ServerMsg)) (w : World) : World :=
  mkWorld (clock w) (reads w) (this_ttlMs w) (this_store w) (subscriptions w)
          (userIdVar w) (readyState w) (sendThrows w) l (calls w).

Definition set_calls (l : list Call) (w : World) : World :=
  mkWorld (clock w) (reads w) (this_ttlMs w) (this_store w) (subscriptions w)
          (userIdVar w) (readyState w) (sendThrows w) (sent w) l.

(** ** The monad of handler code *)

Inductive Error := SyntaxError | TypeError | SendError.

Inductive Completion (A : Type) :=
| Normal (a : A)
| Thrown (e : Error).
Arguments Normal {A} a.
Arguments Thrown {A} e.

Definition M (A : Type) : Type := World -> Completion A * World.

Definition ret {A} (a : A) : M A := fun w => (Normal a, w).

Definition bind {A B} (m : M A) (k : A -> M B) : M B :=
  fun w =>
    match m w with
    | (Normal a, w') => k a w'
    | (Thrown e, w') => (Thrown e, w')
    end.

Definition throw {A} (e : Error) : M A := fun w => (Thrown e, w).

(** [try { body } catch (e) { handler }] *)
Definition try_catch {A} (body handler : M A) : M A :=
  fun w =>
    match body w with
    | (Normal a, w') => (Normal a, w')
    | (Thrown _, w') => handler w'
    end.

Definition gets {A} (f : World -> A) : M A := fun w => (Normal (f w), w).

Definition modify (f : World -> World) : M unit := fun w => (Normal tt, f w).

Declare Scope M_scope.
Delimit Scope M_scope with M.
Notation "'let*' x ':=' m 'in' k" := (bind m (fun x => k))
  (at level 10, x name, m at level 99, k at level 200) : M_scope.
Notation "m '>>' k" := (bind m (fun _ => k))
  (at level 100, k at level 200, right associativity) : M_scope.
#[local] Open Scope M_scope.

(** [arr.map(f)] for a callback with effects: left to right. *)
Fixpoint mapM {A B} (f : A -> M B) (l : list A) : M (list B) :=
  match l with
  | [] => ret []
  | x :: rest =>
      let* y := f x in
      let* ys := mapM f rest in
      ret (y :: ys)
  end.

(** [Date.now()] *)
Definition Date_now : M Z :=
  fun w => (Normal (clock w (reads w)), set_reads (S (reads w)) w).

(** Record a call in the trace.  The store mutators and the broadcast do
    this as their first step; it has no counterpart in the source and no
    effect on anything else. *)
Definition log (c : Call) : M unit :=
  modify (fun w => set_calls (calls w ++ [c]) w).

(** ** [class PresenceStore] *)

Module PresenceStore.

(** [private toSnapshot(record)] *)
Definition toSnapshot (record : PresenceRecord) : M PresenceSnapshot :=
  let* now := Date_now in
  let ttlMs := Z.max 0 (expiresAt record - now) in
  ret {| base := record; ttlMs := ttlMs; isOnline := 0 <? ttlMs |}.

(** [private isExpired(record)] *)
Definition isExpired (record : PresenceRecord) : M bool :=
  let* now := Date_now in
  ret (expiresAt record <=? now).

(** [upsert(userId, status, overrides?)] *)
Definition upsert (userId : string) (status : PresenceStatus)
    (overrides : option Overrides) : M PresenceSnapshot :=
  log (CallUpsert (JStr userId)) >>
  let* now := Date_now in
  let* configured := gets this_ttlMs in
  let effectiveTtl := Z.max 1000 (default configured (overrides ≫= o_ttlMs)) in
  let expiresAt := now + effectiveTtl in
  let record := {| userId := userId; status := status; lastSeen := now;
                   expiresAt := expiresAt;
                   metadata := overrides ≫= o_metadata |} in
  modify (fun w => set_store (<[userId := record]> (this_store w)) w) >>
  toSnapshot record.

(** [markOffline(userId)] *)
Definition markOffline (userId : string) : M unit :=
  log (CallMarkOffline (JStr userId)) >>
  modify (fun w => set_store (delete userId (this_store w)) w).

(** [getOne(userId)] *)
Definition getOne (userId : string) : M (option PresenceSnapshot) :=
  let* found := gets (fun w => this_store w !! userId) in
  match found with
  | None => ret None
  | Some record =>
      let* expired := isExpired record in
      if expired then
        modify (fun w => set_store (delete userId (this_store w)) w) >>
        ret None
      else
        let* snapshot := toSnapshot record in
        ret (Some snapshot)
  end.

(** [Array.from(new Set(userIds))]: the first occurrence of each element,
    in the order of the array. *)
Fixpoint distinct (seen : list string) (userIds : list string) : list string :=
  match userIds with
  | [] => []
  | x :: rest =>
      if bool_decide (x ∈ seen) then distinct seen rest
      else x :: distinct (x :: seen) rest
  end.

(** [records.filter(Boolean)] on the results of [getOne] *)
Definition present (results : list (option PresenceSnapshot)) : list PresenceSnapshot :=
  omap id results.

(** [getMany(userIds)] *)
Definition getMany (userIds : list string) : M (list PresenceSnapshot) :=
  let deduped := distinct [] userIds in
  let* results := mapM getOne deduped in
  ret (present results).

(** [size()] *)
Definition size : M nat := gets (fun w => size (this_store w)).

End PresenceStore.

(** ** Pieces shared by the adapters *)

(** [ws.send(JSON.stringify(msg))] on connection [c] *)
Definition ws_send (c : Conn) (msg : ServerMsg) : M unit :=
  fun w =>
    if sendThrows w c then (Thrown SendError, w)
    else (Normal tt, set_sent (sent w ++ [(c, msg)]) w).

(** [record.isOnline ? record.status : "offline"] *)
Definition effective (s : PresenceSnapshot) : EffectiveStatus :=
  if isOnline s then Stored (status (base s)) else offline.

(** The object built for each record in a reply:
    [{ userId, status: ..., lastSeen, metadata: record.metadata ?? null }] *)
Definition toEntry (s : PresenceSnapshot) : UserEntry :=
  {| u_userId := userId (base s);
     u_status := effective s;
     u_lastSeen := lastSeen (base s);
     u_metadata := metadata (base s) |}.

(** [record?.lastSeen || Date.now()] *)
Definition lastSeen_or_now (found : option PresenceSnapshot) : M Z :=
  match found with
  | Some s => if lastSeen (base s) =? 0 then Date_now else ret (lastSeen (base s))
  | None => Date_now
  end.

(** [msg.ttlMs || 60000] *)
Definition ttl_or_default (t : option Z) : Z :=
  match t with
  | Some z => if z =? 0 then 60000 else z
  | None => 60000
  end.

(** The [overrides] object of the WebSocket heartbeat:
    [{ ttlMs: msg.ttlMs || 60000, metadata: msg.metadata || {} }] *)
Definition heartbeat_overrides (msg : ClientMsg) : Overrides :=
  {| o_ttlMs := Some (ttl_or_default (m_ttlMs msg));
     o_metadata := Some (default [] (m_metadata msg)) |}.

(** [userId = msg.userId] in the closure of connection [c] *)
Definition assign_userId (c : Conn) (v : option JSON) : M unit :=
  modify (fun w =>
    set_userIdVar (fun c' => if bool_decide (c' = c) then v else userIdVar w c') w).

(** ** The WebSocket adapter with the subscription registry *)

Module WsSubscriptions.

(** [subscriptions.get(ws)] *)
Fixpoint registry_get (c : Conn) (subs : list (Conn * Subscription)) : option Subscription :=
  match subs with
  | [] => None
  | (c', sub) :: rest => if bool_decide (c' = c) then Some sub else registry_get c rest
  end.

(** [subscriptions.delete(ws)] *)
Fixpoint registry_delete (c : Conn) (subs : list (Conn * Subscription)) : list (Conn * Subscription) :=
  match subs with
  | [] => []
  | (c', sub) :: rest =>
      if bool_decide (c' = c) then registry_delete c rest
      else (c', sub) :: registry_delete c rest
  end.

(** [sub.friendIds = new Set(friendIds)] on the entry of [c], in place *)
Fixpoint registry_update (c : Conn) (ids : gset string) (subs : list (Conn * Subscription))
    : list (Conn * Subscription) :=
  match subs with
  | [] => []
  | (c', sub) :: rest =>
      if bool_decide (c' = c) then (c', {| ws := ws sub; friendIds := ids |}) :: rest
      else (c', sub) :: registry_update c ids rest
  end.

(** The body of the [for (const [ws, sub] of subscriptions.entries())] loop
    of [notifySubscribers], over the entries still to visit.  The only
    change to the map during the loop is the removal of the entry being
    visited, so the entries to visit are those present when the loop
    started. *)
Fixpoint notify_loop (friendId : string) (update : ServerMsg)
    (entries : list (Conn * Subscription)) : M unit :=
  match entries with
  | [] => ret tt
  | (c, sub) :: rest =>
      let* state := gets (fun w => readyState w c) in
      (if bool_decide (friendId ∈ friendIds sub) && bool_decide (state = OPEN) then
         try_catch
           (ws_send c update)
           (modify (fun w => set_subscriptions (registry_delete c (subscriptions w)) w))
       else ret tt) >>
      notify_loop friendId update rest
  end.

(** [function notifySubscribers(friendId, status, lastSeen)] *)
Definition notifySubscribers (friendId : string) (status : EffectiveStatus)
    (lastSeen : Z) : M unit :=
  log (CallNotify (JStr friendId) status lastSeen) >>
  let update := FriendsPresenceUpdate
    [{| u_userId := friendId; u_status := status;
        u_lastSeen := lastSeen; u_metadata := None |}] in
  let* entries := gets subscriptions in
  notify_loop friendId update entries.

(** The statements inside [try] of the message handler of connection [c]. *)
Definition message_body (c : Conn) (data : Inbound) : M unit :=
  match data with
  | Unparseable => throw SyntaxError
  | ParsedNull => throw TypeError
  | Parsed msg =>
      if is_literal (m_type msg) "heartbeat" && truthy_prop (m_userId msg) then
        assign_userId c (m_userId msg) >>
        let status := default online (m_status msg) in
        match m_userId msg with
        | Some (JStr userId) =>
            let* record := PresenceStore.upsert userId status
                             (Some (heartbeat_overrides msg)) in
            ws_send c (HeartbeatAck userId) >>
            notifySubscribers userId (effective record) (lastSeen (base record))
        | _ => ret tt
        end
      else if is_literal (m_type msg) "offline" && truthy_prop (m_userId msg) then
        assign_userId c (m_userId msg) >>
        match m_userId msg with
        | Some (JStr userId) =>
            let* record := PresenceStore.getOne userId in
            let* lastSeen := lastSeen_or_now record in
            PresenceStore.markOffline userId >>
            notifySubscribers userId offline lastSeen
        | _ => ret tt
        end
      else if is_literal (m_type msg) "query-presence" && is_array (m_userIds msg) then
        let userIds := filter_strings (array_items (m_userIds msg)) in
        let* records := PresenceStore.getMany userIds in
        ws_send c (PresenceResponse (m_requestId msg) (map toEntry records))
      else if is_literal (m_type msg) "subscribe-friends" && is_array (m_friendIds msg) then
        let friendIds := filter_strings (array_items (m_friendIds msg)) in
        let* sub := gets (fun w => registry_get c (subscriptions w)) in
        match sub with
        | Some _ =>
            modify (fun w =>
              set_subscriptions
                (registry_update c (list_to_set friendIds) (subscriptions w)) w)
        | None =>
            modify (fun w =>
              set_subscriptions
                (subscriptions w ++ [(c, {| ws := c; friendIds := list_to_set friendIds |})]) w)
        end >>
        let* records := PresenceStore.getMany friendIds in
        ws_send c (FriendsPresenceUpdate (map toEntry records))
      else if is_literal (m_type msg) "unsubscribe-friends" then
        modify (fun w => set_subscriptions (registry_delete c (subscriptions w)) w)
      else ret tt
  end.

(** [ws.on("message", (data) => { try { ... } catch (e) { ws.send(error) } })] *)
Definition on_message (c : Conn) (data : Inbound) : M unit :=
  try_catch (message_body c data) (ws_send c ErrorReply).

(** [ws.on("close", () => { ... })] *)
Definition on_close (c : Conn) : M unit :=
  modify (fun w => set_subscriptions (registry_delete c (subscriptions w)) w) >>
  let* userId := gets (fun w => userIdVar w c) in
  match userId with
  | None | Some JNull => ret tt
  | Some (JStr userId) =>
      let* record := PresenceStore.getOne userId in
      let* lastSeen := lastSeen_or_now record in
      PresenceStore.markOffline userId >>
      notifySubscribers userId offline lastSeen
  | Some v =>
      (* A value that is not a string is no key of the store and no member
         of any [friendIds]: [getOne] finds nothing, [markOffline] deletes
         nothing and [notifySubscribers] sends nothing. *)
      let* lastSeen := Date_now in
      log (CallMarkOffline v) >>
      log (CallNotify v offline lastSeen)
  end.

End WsSubscriptions.

(** ** The WebSocket adapter of [src/wsServer.ts] (no registry) *)

Module WsServer.

Definition message_body (c : Conn) (data : Inbound) : M unit :=
  match data with
  | Unparseable => throw SyntaxError
  | ParsedNull => throw TypeError
  | Parsed msg =>
      if is_literal (m_type msg) "heartbeat" && truthy_prop (m_userId msg) then
        assign_userId c (m_userId msg) >>
        let status := default online (m_status msg) in
        match m_userId msg with
        | Some (JStr userId) =>
            PresenceStore.upsert userId status (Some (heartbeat_overrides msg)) >>
            ws_send c (HeartbeatAck userId)
        | _ => ret tt
        end
      else if is_literal (m_type msg) "offline" && truthy_prop (m_userId msg) then
        assign_userId c (m_userId msg) >>
        match m_userId msg with
        | Some (JStr userId) => PresenceStore.markOffline userId
        | _ => ret tt
        end
      else if is_literal (m_type msg) "query-presence" && is_array (m_userIds msg) then
        let userIds := filter_strings (array_items (m_userIds msg)) in
        let* records := PresenceStore.getMany userIds in
        ws_send c (PresenceResponse (m_requestId msg) (map toEntry records))
      else if is_literal (m_type msg) "subscribe-friends" && is_array (m_friendIds msg) then
        let friendIds := filter_strings (array_items (m_friendIds msg)) in
        let* records := PresenceStore.getMany friendIds in
        ws_send c (FriendsPresenceUpdate (map toEntry records))
      else ret tt
  end.

Definition on_message (c : Conn) (data : Inbound) : M unit :=
  try_catch (message_body c data) (ws_send c ErrorReply).

Definition on_close (c : Conn) : M unit :=
  let* userId := gets (fun w => userIdVar w c) in
  match userId with
  | None | Some JNull => ret tt
  | Some (JStr userId) => PresenceStore.markOffline userId
  | Some v => log (CallMarkOffline v)
  end.

End WsServer.

(** ** The presence routes of [src/server.ts] *)

Module Server.

(** What [heartbeatSchema.safeParse(req.body)] yields on success. *)
Record HeartbeatPayload := {
  p_userId : string;
  p_status : PresenceStatus;
  p_ttlMs : option Z;
  p_metadata : option Metadata
}.

Inductive Response :=
| Unauthorized                               (* 401 *)
| BadRequest                                 (* 400 *)
| HeartbeatOk (uid : string) (st : PresenceStatus) (ttl seen : Z)
              (meta : option Metadata)       (* 200 *)
| NoContent.                                 (* 204 *)

(** [requireSecret]: whether the request is passed on to the route.
    [secret] is [config.PRESENCE_SECRET], [header] the request header. *)
Definition requireSecret (secret header : option string) : bool :=
  match secret with
  | None => true
  | Some s =>
      if String.eqb s "" then true
      else match header with
           | None => false
           | Some h => negb (String.eqb h "") && String.eqb h s
           end
  end.

(** [app.post("/presence/heartbeat", requireSecret, ...)]; [body] is the
    result of [safeParse], [None] when it failed.  The optional console
    log is left out. *)
Definition post_heartbeat (secret header : option string)
    (body : option HeartbeatPayload) : M Response :=
  if negb (requireSecret secret header) then ret Unauthorized
  else match body with
       | None => ret BadRequest
       | Some payload =>
           let* record := PresenceStore.upsert (p_userId payload) (p_status payload)
               (Some {| o_ttlMs := p_ttlMs payload; o_metadata := p_metadata payload |}) in
           ret (HeartbeatOk (userId (base record)) (status (base record))
                            (ttlMs record) (lastSeen (base record))
                            (metadata (base record)))
       end.

(** [app.post("/presence/offline", requireSecret, ...)]; [userId] is the
    value of the handler's [userId] constant: the trimmed string of the
    body, or the empty string. *)
Definition post_offline (secret header : option string) (userId : string) : M Response :=
  if negb (requireSecret secret header) then ret Unauthorized
  else if String.eqb userId "" then ret BadRequest
  else PresenceStore.markOffline userId >> ret NoContent.

End Server.

(** ** Auxiliary definitions for the statements *)

(** A world with an empty store and registry, a clock standing at [t], the
    configured TTL [ttl], every connection open and every send working. *)
Definition quiet_world (t ttl : Z) : World :=
  mkWorld (fun _ => t) 0 ttl ∅ [] (fun _ => None) (fun _ => OPEN) (fun _ => false) [] [].

(** The three ways a call of [getOne] can go. *)
Inductive getOne_case (u : string) (w : World) : option PresenceSnapshot -> World -> Prop :=
| GetAbsent :
    this_store w !! u = None ->
    getOne_case u w None w
| GetExpired r :
    this_store w !! u = Some r ->
    expiresAt r <= clock w (reads w) ->
    getOne_case u w None (set_store (delete u (this_store w)) (set_reads (S (reads w)) w))
| GetLive r :
    this_store w !! u = Some r ->
    clock w (reads w) < expiresAt r ->
    getOne_case u w
      (Some {| base := r;
               ttlMs := Z.max 0 (expiresAt r - clock w (S (reads w)));
               isOnline := 0 <? Z.max 0 (expiresAt r - clock w (S (reads w))) |})
      (set_reads (S (S (reads w))) w).

(** A record that expired at 500 and a world, at time 1000, that still
    holds it under its key. *)
Definition stale_record : PresenceRecord :=
  {| userId := "a"; status := busy; lastSeen := 100; expiresAt := 500; metadata := None |}.

Definition stale_world : World :=
  set_store {[ "a" := stale_record ]} (quiet_world 1000 60000).

(** A record that lives until 5000 in a world at time 1000. *)
Definition fresh_record : PresenceRecord :=
  {| userId := "b"; status := away; lastSeen := 900; expiresAt := 5000; metadata := None |}.

Definition fresh_world : World :=
  set_store {[ "b" := fresh_record ]} (quiet_world 1000 60000).

(** Every record is stored under its own [userId]: what [upsert], the only
    writer, maintains. *)
Definition store_keyed (st : gmap string PresenceRecord) : Prop :=
  forall k r, st !! k = Some r -> userId r = k.

(** [w'] differs from [w] at most in the store and in the number of clock
    readings consumed. *)
Definition store_step (w w' : World) : Prop :=
  clock w' = clock w /\ this_ttlMs w' = this_ttlMs w /\
  subscriptions w' = subscriptions w /\ userIdVar w' = userIdVar w /\
  readyState w' = readyState w /\ sendThrows w' = sendThrows w /\
  sent w' = sent w /\ calls w' = calls w /\
  (reads w <= reads w')%nat /\
  (forall k r, this_store w' !! k = Some r -> this_store w !! k = Some r).

(** What a result of [getOne u], run somewhere after [w] with the record of
    [u] as in [w], says about [w]: a snapshot is the stored record, found
    alive at some clock reading and measured at some later one; absent means
    no record, or a record found expired at some reading. *)
Definition lookup_outcome (w : World) (u : string) (res : option PresenceSnapshot) : Prop :=
  match res with
  | Some s =>
      exists n n', (reads w <= n)%nat /\ (n < n')%nat /\
        this_store w !! u = Some (base s) /\
        clock w n < expiresAt (base s) /\
        ttlMs s = Z.max 0 (expiresAt (base s) - clock w n') /\
        isOnline s = (0 <? ttlMs s)
  | None =>
      this_store w !! u = None \/
      exists r n, (reads w <= n)%nat /\ this_store w !! u = Some r /\ expiresAt r <= clock w n
  end.

(** The registry is a [Map]: a connection has at most one entry. *)
Definition registry_wf (subs : list (Conn * Subscription)) : Prop :=
  NoDup (subs.*1).

(** The frames of a log of sends that went to connection [c], in order. *)
Definition delivered (c : Conn) (frames : list (Conn * ServerMsg)) : list ServerMsg :=
  omap (fun e => if bool_decide (e.1 = c) then Some e.2 else None) frames.

(** Whether the loop of [notifySubscribers] tries to send to an entry:
    [sub.friendIds.has(friendId) && ws.readyState === WebSocket.OPEN]. *)
Definition targeted (rs : Conn -> ReadyState) (friendId : string)
    (e : Conn * Subscription) : bool :=
  bool_decide (friendId ∈ friendIds e.2) && bool_decide (rs e.1 = OPEN).

(** The sends of one broadcast that go through, in order. *)
Fixpoint pushes (rs : Conn -> ReadyState) (fails : Conn -> bool) (friendId : string)
    (update : ServerMsg) (entries : list (Conn * Subscription)) : list (Conn * ServerMsg) :=
  match entries with
  | [] => []
  | e :: rest =>
      if targeted rs friendId e && negb (fails e.1)
      then (e.1, update) :: pushes rs fails friendId update rest
      else pushes rs fails friendId update rest
  end.

(** The registry after one broadcast: the entries whose send threw are gone. *)
Fixpoint pruned (rs : Conn -> ReadyState) (fails : Conn -> bool) (friendId : string)
    (entries subs : list (Conn * Subscription)) : list (Conn * Subscription) :=
  match entries with
  | [] => subs
  | e :: rest =>
      if targeted rs friendId e && fails e.1
      then pruned rs fails friendId rest (WsSubscriptions.registry_delete e.1 subs)
      else pruned rs fails friendId rest subs
  end.

(** The update frame [notifySubscribers] builds. *)
Definition update_frame (friendId : string) (st : EffectiveStatus) (seen : Z) : ServerMsg :=
  FriendsPresenceUpdate
    [{| u_userId := friendId; u_status := st; u_lastSeen := seen; u_metadata := None |}].



(** Worlds of the broadcast examples: at time 1000, connections 1 and 2
    watch ["p"], connection 3 watches ["q"]; in [lossy_world] the send to
    connection 1 throws. *)
Definition watchers : list (Conn * Subscription) :=
  [ (1%nat, {| ws := 1%nat; friendIds := {[ "p" ]} |});
    (2%nat, {| ws := 2%nat; friendIds := {[ "p" ]} |});
    (3%nat, {| ws := 3%nat; friendIds := {[ "q" ]} |}) ].

Definition lobby_world : World :=
  set_subscriptions watchers (quiet_world 1000 60000).

Definition lossy_world : World :=
  mkWorld (fun _ => 1000) 0 60000 ∅ watchers (fun _ => None) (fun _ => OPEN)
          (fun c => bool_decide (c = 1%nat)) [] [].

(** A heartbeat of user [u] with status [st] and nothing else. *)
Definition heartbeat_msg (u : string) (st : PresenceStatus) : ClientMsg :=
  {| m_type := Some (JStr "heartbeat"); m_userId := Some (JStr u); m_status := Some st;
     m_ttlMs := None; m_metadata := None; m_userIds := None; m_requestId := None;
     m_friendIds := None |}.

(** The calls one run of a handler of the adapter with the registry can
    add to the trace. *)
Inductive handler_trace : list Call -> Prop :=
| TraceQuiet : handler_trace []
| TraceUpsert k st seen : handler_trace [CallUpsert k; CallNotify k st seen]
| TraceOffline k seen : handler_trace [CallMarkOffline k; CallNotify k offline seen].

(** A world at time 1000 in which connection 0 has identified as ["p"],
    whose record is alive, and connections 1 and 2 watch ["p"]. *)
Definition closing_world : World :=
  mkWorld (fun _ => 1000) 0 60000
          {[ "p" := {| userId := "p"; status := away; lastSeen := 900;
                       expiresAt := 5000; metadata := None |} ]}
          ((0%nat, {| ws := 0%nat; friendIds := {[ "p" ]} |}) :: watchers)
          (fun c => if bool_decide (c = 0%nat) then Some (JStr "p") else None)
          (fun _ => OPEN) (fun _ => false) [] [].

(** The type tags the adapter with the registry knows. *)
Definition known_types : list string :=
  ["heartbeat"; "offline"; "query-presence"; "subscribe-friends"; "unsubscribe-friends"].

(** The [type] of the message is none of the known tags. *)
Definition unknown_type (msg : ClientMsg) : Prop :=
  forall t, t ∈ known_types -> m_type msg <> Some (JStr t).

(** The message has a known tag and lacks the property its branch needs. *)
Definition missing_required (msg : ClientMsg) : Prop :=
  (m_type msg = Some (JStr "heartbeat") /\ m_userId msg = None) \/
  (m_type msg = Some (JStr "offline") /\ m_userId msg = None) \/
  (m_type msg = Some (JStr "query-presence") /\ m_userIds msg = None) \/
  (m_type msg = Some (JStr "subscribe-friends") /\ m_friendIds msg = None).

(** The calls one run of a handler without broadcast can add to the trace. *)
Inductive silent_trace : list Call -> Prop :=
| SilentQuiet : silent_trace []
| SilentUpsert k : silent_trace [CallUpsert k]
| SilentOffline k : silent_trace [CallMarkOffline k].

(** A valid body of [POST /presence/heartbeat]. *)
Definition away_payload : Server.HeartbeatPayload :=
  {| Server.p_userId := "p"; Server.p_status := away;
     Server.p_ttlMs := None; Server.p_metadata := None |}.

(** A heartbeat that lacks its [userId]. *)
Definition anonymous_heartbeat : ClientMsg :=
  {| m_type := Some (JStr "heartbeat"); m_userId := None; m_status := Some away;
     m_ttlMs := None; m_metadata := None; m_userIds := None; m_requestId := None;
     m_friendIds := None |}.

(** A query for ["b"] and ["a"]. *)
Definition query_msg : ClientMsg :=
  {| m_type := Some (JStr "query-presence"); m_userId := None; m_status := None;
     m_ttlMs := None; m_metadata := None;
     m_userIds := Some (JArr [JStr "b"; JStr "a"; JNum 7]);
     m_requestId := Some (JNum 1); m_friendIds := None |}.

(** The [users] array of a reply or an update. *)
Definition users_of (m : ServerMsg) : list UserEntry :=
  match m with
  | PresenceResponse _ users => users
  | FriendsPresenceUpdate users => users
  | _ => []
  end.

(** ** The periodic sweep of the store *)

Module PresenceSweep.

(** The loop of [cleanupExpired] over the entries still to visit, with the
    running count [removed].  The [Map] is visited in insertion order, which
    the store of the model does not keep: [order] is that order.  A key that
    has no entry (any more) is not visited. *)
Fixpoint cleanup_loop (order : list string) (removed : nat) : M nat :=
  match order with
  | [] => ret removed
  | userId :: rest =>
      let* found := gets (fun w => this_store w !! userId) in
      match found with
      | None => cleanup_loop rest removed
      | Some record =>
          let* expired := PresenceStore.isExpired record in
          if expired then
            modify (fun w => set_store (delete userId (this_store w)) w) >>
            cleanup_loop rest (S removed)
          else cleanup_loop rest removed
      end
  end.

(** [cleanupExpired()] *)
Definition cleanupExpired (order : list string) : M nat := cleanup_loop order 0.

End PresenceSweep.

(** [order] lists the keys of the store of [w], each once. *)
Definition enumerates (order : list string) (w : World) : Prop :=
  NoDup order /\ forall k, k ∈ order <-> is_Some (this_store w !! k).

(** A world at time 1000 that holds the expired record of ["a"] and the
    live record of ["b"]. *)
Definition mixed_world : World :=
  set_store (<[ "a" := stale_record ]> {[ "b" := fresh_record ]}) (quiet_world 1000 60000).

(** Messages of the other kinds, for the examples. *)
Definition subscribe_msg (items : list JSON) : ClientMsg :=
  {| m_type := Some (JStr "subscribe-friends"); m_userId := None; m_status := None;
     m_ttlMs := None; m_metadata := None; m_userIds := None; m_requestId := None;
     m_friendIds := Some (JArr items) |}.

Definition unsubscribe_msg : ClientMsg :=
  {| m_type := Some (JStr "unsubscribe-friends"); m_userId := None; m_status := None;
     m_ttlMs := None; m_metadata := None; m_userIds := None; m_requestId := None;
     m_friendIds := None |}.

Definition offline_msg (u : string) : ClientMsg :=
  {| m_type := Some (JStr "offline"); m_userId := Some (JStr u); m_status := None;
     m_ttlMs := None; m_metadata := None; m_userIds := None; m_requestId := None;
     m_friendIds := None |}.

(** ** [class InviteStore] ([src/inviteStore.ts])

    The store is a [Map] from invite id to record; the model keeps it as the
    list of its entries in insertion order, since [createInvite] and
    [listForUser] go through [invites.values()].  [randomUUID()] and
    [Date.now()] are read by [createInvite] only when it makes a new record:
    the values they would return are arguments. *)

Module InviteStore.

(** [type InviteStatus = "pending" | "accepted" | "declined"] *)
Inductive InviteStatus := pending | accepted | declined.

#[global] Instance InviteStatus_eq_dec : EqDecision InviteStatus.
Proof. solve_decision. Defined.

(** [type InviteDirection = "incoming" | "outgoing" | "all"] *)
Inductive InviteDirection := incoming | outgoing | all.

(** [interface InviteRecord]; [None] in an optional field is [null]. *)
Record InviteRecord := {
  id : string;
  fromUserId : string;
  fromDisplayName : string;
  fromAvatar : option string;
  fromGoal33 : option string;
  toUserId : string;
  toDisplayName : string;
  toAvatar : option string;
  toGoal33 : option string;
  status : InviteStatus;
  createdAt : Z
}.

(** The argument of [createInvite]; [None] is [undefined] or [null]. *)
Record Payload := {
  p_fromUserId : string;
  p_fromDisplayName : string;
  p_fromAvatar : option string;
  p_fromGoal33 : option string;
  p_toUserId : string;
  p_toDisplayName : string;
  p_toAvatar : option string;
  p_toGoal33 : option string
}.

(** [Map<string, InviteRecord>] in insertion order *)
Definition Invites := list (string * InviteRecord).

(** [invites.get(key)] *)
Fixpoint map_get (key : string) (m : Invites) : option InviteRecord :=
  match m with
  | [] => None
  | (k, v) :: rest => if bool_decide (k = key) then Some v else map_get key rest
  end.

(** [invites.set(key, value)]: an existing key keeps its place. *)
Fixpoint map_set (key : string) (value : InviteRecord) (m : Invites) : Invites :=
  match m with
  | [] => [(key, value)]
  | (k, v) :: rest =>
      if bool_decide (k = key) then (k, value) :: rest
      else (k, v) :: map_set key value rest
  end.

(** [invites.delete(key)], the map afterwards *)
Fixpoint map_remove (key : string) (m : Invites) : Invites :=
  match m with
  | [] => []
  | (k, v) :: rest =>
      if bool_decide (k = key) then map_remove key rest
      else (k, v) :: map_remove key rest
  end.

(** [Array.from(invites.values())] *)
Definition values (m : Invites) : list InviteRecord := m.*2.

(** The test of [find] in [createInvite]. *)
Definition blocks (payload : Payload) (invite : InviteRecord) : bool :=
  bool_decide (status invite = pending) &&
  bool_decide (fromUserId invite = p_fromUserId payload) &&
  bool_decide (toUserId invite = p_toUserId payload).

(** [createInvite(payload)]; [uuid] and [now] are what [randomUUID()] and
    [Date.now()] return if they are called. *)
Definition createInvite (uuid : string) (now : Z) (payload : Payload) (m : Invites)
    : InviteRecord * Invites :=
  match List.find (blocks payload) (values m) with
  | Some existing => (existing, m)
  | None =>
      let record :=
        {| id := uuid;
           fromUserId := p_fromUserId payload;
           fromDisplayName := p_fromDisplayName payload;
           fromAvatar := p_fromAvatar payload;
           fromGoal33 := p_fromGoal33 payload;
           toUserId := p_toUserId payload;
           toDisplayName := p_toDisplayName payload;
           toAvatar := p_toAvatar payload;
           toGoal33 := p_toGoal33 payload;
           status := pending;
           createdAt := now |} in
      (record, map_set (id record) record m)
  end.

(** [getById(inviteId)] *)
Definition getById (inviteId : string) (m : Invites) : option InviteRecord :=
  map_get inviteId m.

(** The test of [filter] in [listForUser]. *)
Definition listed (userId : string) (direction : InviteDirection)
    (statusFilter : list InviteStatus) (invite : InviteRecord) : bool :=
  if negb (bool_decide (status invite ∈ statusFilter)) then false
  else match direction with
       | incoming => bool_decide (toUserId invite = userId)
       | outgoing => bool_decide (fromUserId invite = userId)
       | all => bool_decide (fromUserId invite = userId) ||
                bool_decide (toUserId invite = userId)
       end.

(** [arr.sort((a, b) => b.createdAt - a.createdAt)]: the sort is stable, so
    the result is the array in descending order of [createdAt] with records
    of equal [createdAt] in their order of the array.  [place x l] puts [x],
    which stood before the records of the sorted [l], at its place. *)
Fixpoint place (x : InviteRecord) (l : list InviteRecord) : list InviteRecord :=
  match l with
  | [] => [x]
  | y :: rest =>
      if createdAt x <? createdAt y then y :: place x rest
      else x :: y :: rest
  end.

Fixpoint sort_newest_first (l : list InviteRecord) : list InviteRecord :=
  match l with
  | [] => []
  | x :: rest => place x (sort_newest_first rest)
  end.

(** [listForUser(userId, direction = "incoming", statusFilter = ["pending"])] *)
Definition listForUser (userId : string) (direction : option InviteDirection)
    (statusFilter : option (list InviteStatus)) (m : Invites) : list InviteRecord :=
  sort_newest_first
    (List.filter (listed userId (default incoming direction)
                    (default [pending] statusFilter))
       (values m)).

(** [updateStatus(inviteId, status)]: the record is changed in place. *)
Definition updateStatus (inviteId : string) (st : InviteStatus) (m : Invites)
    : option InviteRecord * Invites :=
  match map_get inviteId m with
  | None => (None, m)
  | Some record =>
      let record' :=
        {| id := id record;
           fromUserId := fromUserId record;
           fromDisplayName := fromDisplayName record;
           fromAvatar := fromAvatar record;
           fromGoal33 := fromGoal33 record;
           toUserId := toUserId record;
           toDisplayName := toDisplayName record;
           toAvatar := toAvatar record;
           toGoal33 := toGoal33 record;
           status := st;
           createdAt := createdAt record |} in
      (Some record', map_set inviteId record' m)
  end.

(** [delete(inviteId)]: whether there was an entry, and the map afterwards. *)
Definition delete (inviteId : string) (m : Invites) : bool * Invites :=
  (bool_decide (is_Some (map_get inviteId m)), map_remove inviteId m).

End InviteStore.

(** The sender and the receiver of each pending invite of a list, in the
    order of the list. *)
Definition pending_pairs (l : list InviteStore.InviteRecord) : list (string * string) :=
  (fun r => (InviteStore.fromUserId r, InviteStore.toUserId r)) <$>
  filter (fun r => InviteStore.status r = InviteStore.pending) l.

(** The store has at most one pending invite for an ordered pair of users. *)
Definition one_pending_per_pair (m : InviteStore.Invites) : Prop :=
  NoDup (pending_pairs (InviteStore.values m)).

(** Every record is kept under its own id, and an id occurs once. *)
Definition invites_keyed (m : InviteStore.Invites) : Prop :=
  NoDup (m.*1) /\ forall k r, (k, r) ∈ m -> InviteStore.id r = k.

(** Newest first. *)
Definition newer_or_same (a b : InviteStore.InviteRecord) : Prop :=
  InviteStore.createdAt b <= InviteStore.createdAt a.

(** ** The invite routes of [src/server.ts] *)

Module InviteRoutes.

(** The [peer] object of a serialized invite. *)
Record Peer := {
  peer_userId : string;
  peer_displayName : string;
  peer_avatar : option string;
  peer_goal33 : option string
}.

(** What [serializeInvite] returns: the fields of the record, copied, and
    the [direction] and [peer] computed for the perspective. *)
Record Serialized := {
  of_record : InviteStore.InviteRecord;
  direction : InviteStore.InviteDirection;
  peer : Peer
}.

(** [function serializeInvite(record, perspectiveUserId)] *)
Definition serializeInvite (record : InviteStore.InviteRecord)
    (perspectiveUserId : string) : Serialized :=
  let direction :=
    if bool_decide (InviteStore.fromUserId record = perspectiveUserId)
    then InviteStore.outgoing else InviteStore.incoming in
  let peer :=
    match direction with
    | InviteStore.outgoing =>
        {| peer_userId := InviteStore.toUserId record;
           peer_displayName := InviteStore.toDisplayName record;
           peer_avatar := InviteStore.toAvatar record;
           peer_goal33 := InviteStore.toGoal33 record |}
    | _ =>
        {| peer_userId := InviteStore.fromUserId record;
           peer_displayName := InviteStore.fromDisplayName record;
           peer_avatar := InviteStore.fromAvatar record;
           peer_goal33 := InviteStore.fromGoal33 record |}
    end in
  {| of_record := record; direction := direction; peer := peer |}.

(** What [inviteSchema.safeParse(req.body)] yields on success. *)
Record InviteBody := {
  requesterId : string;
  requesterDisplayName : string;
  requesterAvatar : option string;
  requesterGoal33 : option string;
  targetUserId : string;
  targetDisplayName : string;
  targetAvatar : option string;
  targetGoal33 : option string
}.

(** [z.enum(["accepted", "declined"])] *)
Inductive Decision := Accept | Decline.

Definition decided (d : Decision) : InviteStore.InviteStatus :=
  match d with
  | Accept => InviteStore.accepted
  | Decline => InviteStore.declined
  end.

(** What [inviteStatusUpdateSchema.safeParse(req.body)] yields on success. *)
Record StatusBody := {
  decision : Decision;
  actorUserId : string
}.

Inductive Response :=
| Unauthorized                                   (* 401 *)
| BadRequest (message : string)                  (* 400 *)
| NotFound                                       (* 404 *)
| Forbidden                                      (* 403 *)
| ServerError                                    (* 500 *)
| InvitesListed (invites : list Serialized)
| InviteMade (invite : Serialized) (invites : list Serialized)
| InviteChanged (invite : Serialized).

(** [inviteDirectionSchema.safeParse(s)] on a string *)
Definition parse_direction (s : string) : option InviteStore.InviteDirection :=
  if String.eqb s "incoming" then Some InviteStore.incoming
  else if String.eqb s "outgoing" then Some InviteStore.outgoing
  else if String.eqb s "all" then Some InviteStore.all
  else None.

(** [inviteStatusSchema.safeParse(s)] on a string *)
Definition parse_status (s : string) : option InviteStore.InviteStatus :=
  if String.eqb s "pending" then Some InviteStore.pending
  else if String.eqb s "accepted" then Some InviteStore.accepted
  else if String.eqb s "declined" then Some InviteStore.declined
  else None.

(** [app.get("/friends/invites", requireSecret, ...)].  [userId] is the
    value of the handler's [userId] constant (the trimmed query string, or
    the empty string); [directionParam] and [statusParam] are the query
    parameters when they are strings. *)
Definition get_invites (secret header : option string) (userId : string)
    (directionParam statusParam : option string) (m : InviteStore.Invites) : Response :=
  if negb (Server.requireSecret secret header) then Unauthorized
  else if String.eqb userId "" then BadRequest "userId is required"
  else
    match parse_direction (default "outgoing" directionParam) with
    | None => BadRequest "Invalid direction"
    | Some direction =>
        match parse_status (default "pending" statusParam) with
        | None => BadRequest "Invalid status"
        | Some status =>
            let records :=
              InviteStore.listForUser userId (Some direction) (Some [status]) m in
            InvitesListed (map (fun record => serializeInvite record userId) records)
        end
    end.

(** [app.post("/friends/invite", requireSecret, ...)]; [body] is the result
    of [safeParse], [None] when it failed. *)
Definition post_invite (secret header : option string) (body : option InviteBody)
    (uuid : string) (now : Z) (m : InviteStore.Invites) : Response * InviteStore.Invites :=
  if negb (Server.requireSecret secret header) then (Unauthorized, m)
  else
    match body with
    | None => (BadRequest "Invalid payload", m)
    | Some payload =>
        let '(record, m') :=
          InviteStore.createInvite uuid now
            {| InviteStore.p_fromUserId := requesterId payload;
               InviteStore.p_fromDisplayName := requesterDisplayName payload;
               InviteStore.p_fromAvatar := requesterAvatar payload;
               InviteStore.p_fromGoal33 := requesterGoal33 payload;
               InviteStore.p_toUserId := targetUserId payload;
               InviteStore.p_toDisplayName := targetDisplayName payload;
               InviteStore.p_toAvatar := targetAvatar payload;
               InviteStore.p_toGoal33 := targetGoal33 payload |} m in
        let outgoing :=
          InviteStore.listForUser (requesterId payload)
            (Some InviteStore.outgoing) None m' in
        (InviteMade (serializeInvite record (requesterId payload))
           (map (fun item => serializeInvite item (requesterId payload)) outgoing),
         m')
    end.

(** [app.post("/friends/invite/:inviteId/status", requireSecret, ...)].  The
    call of [syncFriendship] after an acceptance only talks to another
    service and logs; it is left out. *)
Definition post_invite_status (secret header : option string) (inviteId : string)
    (body : option StatusBody) (m : InviteStore.Invites) : Response * InviteStore.Invites :=
  if negb (Server.requireSecret secret header) then (Unauthorized, m)
  else if String.eqb inviteId "" then (BadRequest "inviteId is required", m)
  else
    match body with
    | None => (BadRequest "Invalid payload", m)
    | Some data =>
        match InviteStore.getById inviteId m with
        | None => (NotFound, m)
        | Some record =>
            if negb (bool_decide (InviteStore.fromUserId record = actorUserId data)) &&
               negb (bool_decide (InviteStore.toUserId record = actorUserId data))
            then (Forbidden, m)
            else
              match InviteStore.updateStatus inviteId (decided (decision data)) m with
              | (None, m') => (ServerError, m')
              | (Some updated, m') =>
                  (InviteChanged (serializeInvite updated (actorUserId data)), m')
              end
        end
    end.

End InviteRoutes.

(** ** The read routes of [src/server.ts] *)

Module PresenceReads.

Inductive Reply :=
| NotFound                                       (* 404 *)
| BadRequest                                     (* 400 *)
| One (entry : UserEntry) (ttl : Z)
| Many (users : list UserEntry).

(** [app.get("/presence/:userId", ...)] *)
Definition get_presence_one (userId : string) : M Reply :=
  let* record := PresenceStore.getOne userId in
  match record with
  | None => ret NotFound
  | Some record => ret (One (toEntry record) (ttlMs record))
  end.

(** [app.get("/presence", ...)]; [ids] is the list [idsSchema] yields for
    the [userIds] query parameter, [None] when the parameter is missing or
    is rejected. *)
Definition get_presence (ids : option (list string)) : M Reply :=
  match ids with
  | None => ret BadRequest
  | Some userIds =>
      let* records := PresenceStore.getMany userIds in
      ret (Many (map toEntry records))
  end.

End PresenceReads.

(** ** The watcher of the user collection ([src/userChangeWatcher.ts]) and
    the player directory state of [src/server.ts] *)

Module UserChangeWatcher.

(** [const TRACKED_FIELDS] *)
Definition TRACKED_FIELDS : list string :=
  ["firstName"; "lastName"; "username"; "avatar"; "goal33"].

(** [event.operationType]: one of the four watched operations, or another. *)
Inductive Operation :=
| op_insert
| op_update
| op_replace
| op_delete
| op_other (name : string).

(** [const WATCHED_OPERATIONS], as a test *)
Definition watched (op : Operation) : bool :=
  match op with
  | op_other _ => false
  | _ => true
  end.

(** [updateDescription]: the keys of [updatedFields] and the array
    [removedFields], each [None] when missing. *)
Record UpdateDescription := {
  updatedFields : option (list string);
  removedFields : option (list string)
}.

(** The [_id] of a document key: missing, a string, an object with a
    [toString] function (which returns a string or throws), or anything
    else. *)
Inductive RawId :=
| IdMissing
| IdString (s : string)
| IdObject (toString : option string)
| IdOther.

(** [documentKey]: an object, or a value that is falsy or no object. *)
Inductive DocumentKey :=
| KeyNoObject
| KeyObject (rawId : RawId).

Record ChangeEvent := {
  operationType : Operation;
  updateDescription : option UpdateDescription;
  documentKey : DocumentKey
}.

(** [function normalizeDocumentId(documentKey)] *)
Definition normalizeDocumentId (key : DocumentKey) : option string :=
  match key with
  | KeyNoObject => None
  | KeyObject (IdString s) => Some s
  | KeyObject (IdObject (Some s)) => Some s
  | KeyObject _ => None
  end.

(** [TRACKED_FIELDS.has(field)] *)
Definition tracked (field : string) : bool := bool_decide (field ∈ TRACKED_FIELDS).

(** [function shouldBroadcast(event)] *)
Definition shouldBroadcast (event : ChangeEvent) : bool :=
  match operationType event with
  | op_insert | op_delete | op_replace => true
  | op_update =>
      let updated := default [] (updateDescription event ≫= updatedFields) in
      let removed := default [] (updateDescription event ≫= removedFields) in
      if (length updated =? 0)%nat && (length removed =? 0)%nat then false
      else existsb tracked updated || existsb tracked removed
  | op_other _ => false
  end.

(** [const playerDirectoryState] of [server.ts] *)
Record DirectoryState := {
  version : Z;
  lastChangeAt : option string;
  lastDocumentId : option string
}.

(** [function applyPlayerDirectoryChange(change)]; [iso] is what
    [new Date().toISOString()] returns. *)
Definition applyPlayerDirectoryChange (iso : string) (documentId : option string)
    (st : DirectoryState) : DirectoryState :=
  {| version := version st + 1;
     lastDocumentId := documentId;
     lastChangeAt := Some iso |}.

(** The ["change"] listener of the stream, with the [onChange] that
    [startPlayerDirectoryWatcher] passes. *)
Definition on_change (iso : string) (event : ChangeEvent) (st : DirectoryState)
    : DirectoryState :=
  if negb (shouldBroadcast event) then st
  else if negb (watched (operationType event)) then st
  else applyPlayerDirectoryChange iso (normalizeDocumentId (documentKey event)) st.

(** The listener over the events of a stream, each with the instant string
    it would be stamped with. *)
Definition on_changes (events : list (string * ChangeEvent)) (st : DirectoryState)
    : DirectoryState :=
  fold_left (fun st e => on_change e.1 e.2 st) events st.

(** The body of [app.get("/players/directory/status", ...)]; [since] is the
    finite number the [since] query parameter converts to, if it does. *)
Record StatusReply := {
  r_version : Z;
  r_changed : bool;
  r_lastChangeAt : option string;
  r_lastDocumentId : option string
}.

Definition directory_status (since : option Z) (st : DirectoryState) : StatusReply :=
  {| r_version := version st;
     r_changed := match since with
                  | Some sinceVersion => sinceVersion <? version st
                  | None => false
                  end;
     r_lastChangeAt := lastChangeAt st;
     r_lastDocumentId := lastDocumentId st |}.

End UserChangeWatcher.

(** Two invite records that agree on everything but the status. *)
Definition same_invite (a b : InviteStore.InviteRecord) : Prop :=
  InviteStore.id a = InviteStore.id b /\
  InviteStore.fromUserId a = InviteStore.fromUserId b /\
  InviteStore.fromDisplayName a = InviteStore.fromDisplayName b /\
  InviteStore.fromAvatar a = InviteStore.fromAvatar b /\
  InviteStore.fromGoal33 a = InviteStore.fromGoal33 b /\
  InviteStore.toUserId a = InviteStore.toUserId b /\
  InviteStore.toDisplayName a = InviteStore.toDisplayName b /\
  InviteStore.toAvatar a = InviteStore.toAvatar b /\
  InviteStore.toGoal33 a = InviteStore.toGoal33 b /\
  InviteStore.createdAt a = InviteStore.createdAt b.

(** An invite of ann to bob, made at 100 and pending, and one of bob to
    cat, made at 200 and accepted. *)
Definition ann_to_bob : InviteStore.InviteRecord :=
  {| InviteStore.id := "i1";
     InviteStore.fromUserId := "ann"; InviteStore.fromDisplayName := "Ann";
     InviteStore.fromAvatar := None; InviteStore.fromGoal33 := None;
     InviteStore.toUserId := "bob"; InviteStore.toDisplayName := "Bob";
     InviteStore.toAvatar := None; InviteStore.toGoal33 := None;
     InviteStore.status := InviteStore.pending; InviteStore.createdAt := 100 |}.

Definition bob_to_cat : InviteStore.InviteRecord :=
  {| InviteStore.id := "i2";
     InviteStore.fromUserId := "bob"; InviteStore.fromDisplayName := "Bob";
     InviteStore.fromAvatar := None; InviteStore.fromGoal33 := None;
     InviteStore.toUserId := "cat"; InviteStore.toDisplayName := "Cat";
     InviteStore.toAvatar := None; InviteStore.toGoal33 := None;
     InviteStore.status := InviteStore.accepted; InviteStore.createdAt := 200 |}.

Definition sample_invites : InviteStore.Invites :=
  [("i1", ann_to_bob); ("i2", bob_to_cat)].

(** ann invites bob again, under another display name. *)
Definition ann_again : InviteStore.Payload :=
  {| InviteStore.p_fromUserId := "ann"; InviteStore.p_fromDisplayName := "Annie";
     InviteStore.p_fromAvatar := Some "a.png"; InviteStore.p_fromGoal33 := None;
     InviteStore.p_toUserId := "bob"; InviteStore.p_toDisplayName := "Bob";
     InviteStore.p_toAvatar := None; InviteStore.p_toGoal33 := None |}.

(** The body with which ann invites bob over HTTP. *)
Definition ann_invites_bob : InviteRoutes.InviteBody :=
  {| InviteRoutes.requesterId := "ann"; InviteRoutes.requesterDisplayName := "Annie";
     InviteRoutes.requesterAvatar := None; InviteRoutes.requesterGoal33 := None;
     InviteRoutes.targetUserId := "bob"; InviteRoutes.targetDisplayName := "Bob";
     InviteRoutes.targetAvatar := None; InviteRoutes.targetGoal33 := None |}.

(** What a listing of a user's sent invites shows of each, and what a
    listing of the received ones shows. *)
Definition sent_view (userId : string) (st : InviteStore.InviteStatus)
    (item : InviteRoutes.Serialized) : Prop :=
  InviteStore.fromUserId (InviteRoutes.of_record item) = userId /\
  InviteStore.status (InviteRoutes.of_record item) = st /\
  InviteRoutes.direction item = InviteStore.outgoing /\
  InviteRoutes.peer_userId (InviteRoutes.peer item) =
    InviteStore.toUserId (InviteRoutes.of_record item).

Definition received_view (userId : string) (st : InviteStore.InviteStatus)
    (item : InviteRoutes.Serialized) : Prop :=
  InviteStore.toUserId (InviteRoutes.of_record item) = userId /\
  InviteStore.status (InviteRoutes.of_record item) = st /\
  (InviteStore.fromUserId (InviteRoutes.of_record item) <> userId ->
   InviteRoutes.direction item = InviteStore.incoming /\
   InviteRoutes.peer_userId (InviteRoutes.peer item) =
     InviteStore.fromUserId (InviteRoutes.of_record item)).

(** A query for the users [ids], with request id 1. *)
Definition ids_query (ids : list string) : ClientMsg :=
  {| m_type := Some (JStr "query-presence"); m_userId := None; m_status := None;
     m_ttlMs := None; m_metadata := None;
     m_userIds := Some (JArr (JStr <$> ids));
     m_requestId := Some (JNum 1); m_friendIds := None |}.



(** ** Strings of requests

    A string of the model is the UTF-8 encoding of the JavaScript string,
    one [ascii] for each byte. *)

Module Text.

Definition of_bytes (l : list nat) : string :=
  fold_right (fun n s => String (Ascii.ascii_of_nat n) s) EmptyString l.

(** The characters [String.prototype.trim] removes, each as its bytes: the
    white space characters TAB, VT, FF, SP, NBSP, ZWNBSP and the other space
    separators (U+1680, U+2000 to U+200A, U+202F, U+205F, U+3000) and the
    line terminators LF, CR, LS and PS. *)
Definition white_space : list string :=
  of_bytes <$>
    [ [9]; [10]; [11]; [12]; [13]; [32];
      [194; 160];
      [225; 154; 128];
      [226; 128; 128]; [226; 128; 129]; [226; 128; 130]; [226; 128; 131];
      [226; 128; 132]; [226; 128; 133]; [226; 128; 134]; [226; 128; 135];
      [226; 128; 136]; [226; 128; 137]; [226; 128; 138];
      [226; 128; 168]; [226; 128; 169]; [226; 128; 175];
      [226; 129; 159];
      [227; 128; 128];
      [239; 187; 191] ]%nat.

(** [s] without [p] at its start, if it starts with [p]. *)
Fixpoint strip_prefix (p s : string) : option string :=
  match p, s with
  | EmptyString, _ => Some s
  | String a p', String b s' => if Ascii.eqb a b then strip_prefix p' s' else None
  | String _ _, EmptyString => None
  end.

(** [s] without the one of [spaces] it starts with, if there is one. *)
Fixpoint strip_space (spaces : list string) (s : string) : option string :=
  match spaces with
  | [] => None
  | sp :: rest =>
      match strip_prefix sp s with
      | Some s' => Some s'
      | None => strip_space rest s
      end
  end.

(** [s] without the [spaces] it starts with; each round removes one, and
    there are no more of them than bytes. *)
Fixpoint strip_spaces (spaces : list string) (rounds : nat) (s : string) : string :=
  match rounds with
  | O => s
  | S rounds' =>
      match strip_space spaces s with
      | Some s' => strip_spaces spaces rounds' s'
      | None => s
      end
  end.

Definition trimStart (s : string) : string :=
  strip_spaces white_space (String.length s) s.

(** The end is trimmed as the start of the reversed string, the bytes of
    each character reversed too. *)
Definition trimEnd (s : string) : string :=
  String.rev (strip_spaces (String.rev <$> white_space) (String.length s) (String.rev s)).

(** [s.trim()] *)
Definition trim (s : string) : string := trimEnd (trimStart s).

(** The comma: one byte, and part of no other character. *)
Definition comma : Ascii.ascii := Ascii.ascii_of_nat 44.

(** [s.split(",")] *)
Fixpoint split_commas (s : string) : list string :=
  match s with
  | EmptyString => [EmptyString]
  | String a rest =>
      if Ascii.eqb a comma then EmptyString :: split_commas rest
      else match split_commas rest with
           | piece :: pieces => String a piece :: pieces
           | [] => [String a EmptyString]
           end
  end.

(** [Boolean(s)] for a string *)
Definition nonempty (s : string) : bool := negb (String.eqb s "").

(** [idsSchema.safeParse(value)] of [server.ts]: a string of at least one
    character, split at the commas, each piece trimmed and the empty ones
    dropped; what is left are strings of at least one character, so the
    final check of the pipe never fails.  [None] is a failed parse. *)
Definition idsSchema (value : string) : option (list string) :=
  if String.eqb value "" then None
  else Some (List.filter nonempty (trim <$> split_commas value)).

End Text.

(** ** The routes from the fields of the request

    [Server.post_offline], [InviteRoutes.get_invites] and
    [PresenceReads.get_presence] take what the handler has made of a field
    of the request; here they take the field itself, with the conversion
    the handler makes first. *)

Module Requests.

(** [app.post("/presence/offline", ...)] from [req.body?.userId]:
    [typeof req.body?.userId === "string" ? req.body.userId.trim() : ""] *)
Definition post_offline (secret header : option string) (bodyUserId : option JSON)
    : M Server.Response :=
  Server.post_offline secret header
    match bodyUserId with
    | Some (JStr s) => Text.trim s
    | _ => ""
    end.

(** [app.get("/friends/invites", ...)] from [req.query.userId], [None] when
    it is no string:
    [typeof req.query.userId === "string" ? req.query.userId.trim() : ""] *)
Definition get_invites (secret header : option string) (userIdParam : option string)
    (directionParam statusParam : option string) (m : InviteStore.Invites)
    : InviteRoutes.Response :=
  InviteRoutes.get_invites secret header
    match userIdParam with
    | Some s => Text.trim s
    | None => ""
    end directionParam statusParam m.

(** [app.get("/presence", ...)] from [req.query.userIds], [None] when it is
    no string: an empty or missing parameter is answered 400, another one is
    parsed by [idsSchema]. *)
Definition get_presence (userIdsRaw : option string) : M PresenceReads.Reply :=
  match userIdsRaw with
  | None => ret PresenceReads.BadRequest
  | Some raw =>
      if String.eqb raw "" then ret PresenceReads.BadRequest
      else PresenceReads.get_presence (Text.idsSchema raw)
  end.

End Requests.

(** A valid body of [POST /presence/heartbeat] whose [userId] has a space
    on either side. *)
Definition padded_payload : Server.HeartbeatPayload :=
  {| Server.p_userId := " p "; Server.p_status := away;
     Server.p_ttlMs := None; Server.p_metadata := None |}.

(** ** The store when the heartbeat's [ttlMs] is no number

    The WebSocket handlers hand [msg.ttlMs || 60000] to [upsert] as it was
    parsed, whatever its type, and [Math.max] converts it to a number: a
    value such as the string ["abc"] or an object becomes [NaN].  The
    definitions above take the time to live as an integer.  This section
    repeats the writing and the reading of the store with times to live and
    expiry times that may be [NaN], for the runs the integers leave out; on
    integers the two agree ([embed]). *)

Module UncheckedTtl.

(** A JavaScript number as far as expiry times need it. *)
Inductive Num := NaN | Int (z : Z).

(** [a + b], [a - b] and [Math.max(a, b)] are [NaN] when an operand is. *)
Definition plus (a b : Num) : Num :=
  match a, b with
  | Int x, Int y => Int (x + y)
  | _, _ => NaN
  end.

Definition minus (a b : Num) : Num :=
  match a, b with
  | Int x, Int y => Int (x - y)
  | _, _ => NaN
  end.

Definition Math_max (a b : Num) : Num :=
  match a, b with
  | Int x, Int y => Int (Z.max x y)
  | _, _ => NaN
  end.

(** [a <= b] and [a > b] are false when an operand is [NaN]. *)
Definition le (a b : Num) : bool :=
  match a, b with
  | Int x, Int y => x <=? y
  | _, _ => false
  end.

Definition gt (a b : Num) : bool :=
  match a, b with
  | Int x, Int y => y <? x
  | _, _ => false
  end.

(** [msg.ttlMs] as the heartbeat branch uses it: the branch tests it for
    truthiness and [Math.max] converts it to a number. *)
Inductive TtlField :=
| TtlFalsy                  (* missing, null, 0, the empty string, false *)
| TtlNumber (z : Z)         (* truthy and converted to the integer z *)
| TtlNotANumber.            (* truthy and converted to NaN: "abc", an object *)

(** [Number(msg.ttlMs || 60000)] *)
Definition ttl_or_default (t : TtlField) : Num :=
  match t with
  | TtlFalsy => Int 60000
  | TtlNumber z => Int z
  | TtlNotANumber => NaN
  end.

Record PresenceRecord := {
  userId : string;
  status : PresenceStatus;
  lastSeen : Z;
  expiresAt : Num;
  metadata : option Metadata
}.

Record PresenceSnapshot := {
  base : PresenceRecord;
  isOnline : bool;
  ttlMs : Num
}.

(** The clock with the number of readings made, the configured time to
    live and the map of the store. *)
Record State := {
  clock : nat -> Z;
  reads : nat;
  this_ttlMs : Z;
  this_store : gmap string PresenceRecord
}.

Definition set_store (m : gmap string PresenceRecord) (s : State) : State :=
  {| clock := clock s; reads := reads s; this_ttlMs := this_ttlMs s; this_store := m |}.

(** [Date.now()] *)
Definition Date_now (s : State) : Z * State :=
  (clock s (reads s),
   {| clock := clock s; reads := S (reads s); this_ttlMs := this_ttlMs s;
      this_store := this_store s |}).

(** [toSnapshot(record)] *)
Definition toSnapshot (record : PresenceRecord) (s : State) : PresenceSnapshot * State :=
  let '(now, s) := Date_now s in
  let ttlMs := Math_max (Int 0) (minus (expiresAt record) (Int now)) in
  ({| base := record; ttlMs := ttlMs; isOnline := gt ttlMs (Int 0) |}, s).

(** [isExpired(record)] *)
Definition isExpired (record : PresenceRecord) (s : State) : bool * State :=
  let '(now, s) := Date_now s in
  (le (expiresAt record) (Int now), s).

(** [upsert(userId, status, overrides)]; [ttl] is [overrides?.ttlMs]
    converted to a number, [None] when it is missing. *)
Definition upsert (userId : string) (status : PresenceStatus) (ttl : option Num)
    (metadata : option Metadata) (s : State) : PresenceSnapshot * State :=
  let '(now, s) := Date_now s in
  let effectiveTtl := Math_max (Int 1000) (default (Int (this_ttlMs s)) ttl) in
  let expiresAt := plus (Int now) effectiveTtl in
  let record := {| userId := userId; status := status; lastSeen := now;
                   expiresAt := expiresAt; metadata := metadata |} in
  toSnapshot record (set_store (<[userId := record]> (this_store s)) s).

(** [getOne(userId)] *)
Definition getOne (userId : string) (s : State) : option PresenceSnapshot * State :=
  match this_store s !! userId with
  | None => (None, s)
  | Some record =>
      let '(expired, s) := isExpired record s in
      if expired then (None, set_store (delete userId (this_store s)) s)
      else let '(snapshot, s) := toSnapshot record s in (Some snapshot, s)
  end.

(** [deduped.map((userId) => this.getOne(userId))] *)
Fixpoint getEach (userIds : list string) (s : State) : list (option PresenceSnapshot) * State :=
  match userIds with
  | [] => ([], s)
  | userId :: rest =>
      let '(found, s) := getOne userId s in
      let '(others, s) := getEach rest s in
      (found :: others, s)
  end.

(** [getMany(userIds)] *)
Definition getMany (userIds : list string) (s : State) : list PresenceSnapshot * State :=
  let '(found, s) := getEach (PresenceStore.distinct [] userIds) s in
  (omap id found, s).

(** The [upsert] of the heartbeat branch:
    [store.upsert(userId, status, { ttlMs: msg.ttlMs || 60000, metadata: msg.metadata || {} })] *)
Definition heartbeat (userId : string) (status : PresenceStatus) (ttl : TtlField)
    (metadata : option Metadata) (s : State) : PresenceSnapshot * State :=
  upsert userId status (Some (ttl_or_default ttl)) (Some (default [] metadata)) s.

(** [record.isOnline ? record.status : "offline"] of the replies *)
Definition reply_status (snapshot : PresenceSnapshot) : EffectiveStatus :=
  if isOnline snapshot then Stored (status (base snapshot)) else offline.

End UncheckedTtl.

(** The integer records, snapshots and states among those of [UncheckedTtl]. *)
Definition embed_record (r : PresenceRecord) : UncheckedTtl.PresenceRecord :=
  {| UncheckedTtl.userId := userId r; UncheckedTtl.status := status r;
     UncheckedTtl.lastSeen := lastSeen r;
     UncheckedTtl.expiresAt := UncheckedTtl.Int (expiresAt r);
     UncheckedTtl.metadata := metadata r |}.

Definition embed_snapshot (s : PresenceSnapshot) : UncheckedTtl.PresenceSnapshot :=
  {| UncheckedTtl.base := embed_record (base s);
     UncheckedTtl.isOnline := isOnline s;
     UncheckedTtl.ttlMs := UncheckedTtl.Int (ttlMs s) |}.

Definition embed (w : World) : UncheckedTtl.State :=
  {| UncheckedTtl.clock := clock w; UncheckedTtl.reads := reads w;
     UncheckedTtl.this_ttlMs := this_ttlMs w;
     UncheckedTtl.this_store := embed_record <$> this_store w |}.

(** The [ttlMs] of the typed message among the fields of [UncheckedTtl]:
    the number [0] is falsy. *)
Definition ttl_field (t : option Z) : UncheckedTtl.TtlField :=
  match t with
  | None => UncheckedTtl.TtlFalsy
  | Some z => if z =? 0 then UncheckedTtl.TtlFalsy else UncheckedTtl.TtlNumber z
  end.

(** A state at time 1000 with an empty store. *)
Definition empty_state : UncheckedTtl.State :=
  {| UncheckedTtl.clock := fun _ => 1000; UncheckedTtl.reads := 0;
     UncheckedTtl.this_ttlMs := 60000; UncheckedTtl.this_store := ∅ |}.

(** * Properties *)

(** ** The model at work *)

Example getMany_example :
  (PresenceStore.getMany ["b"; "b"; "a"] fresh_world).1 =
    Normal [ {| base := fresh_record; isOnline := true; ttlMs := 4000 |} ].
Proof. reflexivity. Qed.

Example eviction_example :
  (PresenceStore.getOne "a" stale_world).1 = Normal None /\
  this_store (PresenceStore.getOne "a" stale_world).2 !! "a" = None.
Proof. split; reflexivity. Qed.

Example heartbeat_example :
  sent (WsSubscriptions.on_message 0%nat (Parsed (heartbeat_msg "p" away)) lobby_world).2 =
    [ (0%nat, HeartbeatAck "p");
      (1%nat, update_frame "p" (Stored away) 1000);
      (2%nat, update_frame "p" (Stored away) 1000) ].
Proof. reflexivity. Qed.

Example lossy_example :
  let w' := (WsSubscriptions.notifySubscribers "p" (Stored busy) 1000 lossy_world).2 in
  sent w' = [ (2%nat, update_frame "p" (Stored busy) 1000) ] /\
  (subscriptions w').*1 = [2%nat; 3%nat].
Proof. split; reflexivity. Qed.

Example close_example :
  let w' := (WsSubscriptions.on_close 0%nat closing_world).2 in
  sent w' = [ (1%nat, update_frame "p" offline 900);
              (2%nat, update_frame "p" offline 900) ] /\
  (subscriptions w').*1 = [1%nat; 2%nat; 3%nat] /\
  this_store w' !! "p" = None.
Proof. repeat split; reflexivity. Qed.

Example http_example :
  let w' := (Server.post_heartbeat None None (Some away_payload) lobby_world).2 in
  sent w' = [] /\ calls w' = [CallUpsert (JStr "p")].
Proof. split; reflexivity. Qed.

(** ** The store: runs of its methods *)

Section StoreRuns.

Import PresenceStore.

Lemma toSnapshot_run (r : PresenceRecord) (w : World) :
  toSnapshot r w =
    (Normal {| base := r;
               ttlMs := Z.max 0 (expiresAt r - clock w (reads w));
               isOnline := 0 <? Z.max 0 (expiresAt r - clock w (reads w)) |},
     set_reads (S (reads w)) w).
Proof. reflexivity. Qed.

Lemma getOne_absent (u : string) (w : World) :
  this_store w !! u = None -> getOne u w = (Normal None, w).
Proof. intros H. unfold getOne, bind, gets. rewrite H. reflexivity. Qed.

Lemma getOne_expired (u : string) (w : World) (r : PresenceRecord) :
  this_store w !! u = Some r ->
  expiresAt r <= clock w (reads w) ->
  getOne u w =
    (Normal None, set_store (delete u (this_store w)) (set_reads (S (reads w)) w)).
Proof.
  intros H Hexp. unfold getOne, bind, gets. rewrite H.
  unfold isExpired, bind, Date_now, ret.
  destruct (Z.leb_spec (expiresAt r) (clock w (reads w))); [reflexivity | lia].
Qed.

Lemma getOne_live (u : string) (w : World) (r : PresenceRecord) :
  this_store w !! u = Some r ->
  clock w (reads w) < expiresAt r ->
  getOne u w =
    (Normal (Some {| base := r;
                     ttlMs := Z.max 0 (expiresAt r - clock w (S (reads w)));
                     isOnline := 0 <? Z.max 0 (expiresAt r - clock w (S (reads w))) |}),
     set_reads (S (S (reads w))) w).
Proof.
  intros H Hlive. unfold getOne, bind, gets. rewrite H.
  unfold isExpired, bind, Date_now, ret.
  destruct (Z.leb_spec (expiresAt r) (clock w (reads w))); [lia | reflexivity].
Qed.

Lemma getOne_cases (u : string) (w : World) :
  exists res w', getOne u w = (Normal res, w') /\ getOne_case u w res w'.
Proof.
  destruct (this_store w !! u) as [r|] eqn:H.
  - destruct (Z.le_gt_cases (expiresAt r) (clock w (reads w))) as [Hexp|Hlive].
    + eexists _, _. split; [apply (getOne_expired u w r H Hexp)|]. by eapply GetExpired.
    + eexists _, _. split; [apply (getOne_live u w r H Hlive)|]. by eapply GetLive.
  - eexists _, _. split; [apply (getOne_absent u w H)|]. by apply GetAbsent.
Qed.

Lemma upsert_run (u : string) (s : PresenceStatus) (ov : option Overrides) (w : World) :
  let now := clock w (reads w) in
  let now' := clock w (S (reads w)) in
  let effectiveTtl := Z.max 1000 (default (this_ttlMs w) (ov ≫= o_ttlMs)) in
  let r := {| userId := u; status := s; lastSeen := now;
              expiresAt := now + effectiveTtl; metadata := ov ≫= o_metadata |} in
  upsert u s ov w =
    (Normal {| base := r;
               ttlMs := Z.max 0 (now + effectiveTtl - now');
               isOnline := 0 <? Z.max 0 (now + effectiveTtl - now') |},
     set_reads (S (S (reads w)))
       (set_store (<[u := r]> (this_store w))
          (set_calls (calls w ++ [CallUpsert (JStr u)]) w))).
Proof. reflexivity. Qed.

Lemma markOffline_run (u : string) (w : World) :
  markOffline u w =
    (Normal tt,
     set_store (delete u (this_store w))
       (set_calls (calls w ++ [CallMarkOffline (JStr u)]) w)).
Proof. reflexivity. Qed.

End StoreRuns.

(** ** The store: the claims *)

(** C1. [getOne] evicts on read.  With [now] the clock value its expiry test
    reads: a key with no record gives absent and changes nothing; a record
    with [expiresAt <= now] is deleted and absent is returned, and asking
    again gives absent again, without a throw; a record with
    [now < expiresAt] is returned as a snapshot computed from the stored
    record at the next clock reading, the store unchanged; whatever is
    returned as present is the stored record and has [now < expiresAt];
    [getOne] never throws. *)
Theorem getOne_read_through (u : string) (w : World) :
  let now := clock w (reads w) in
  (this_store w !! u = None ->
     PresenceStore.getOne u w = (Normal None, w)) /\
  (forall r, this_store w !! u = Some r -> expiresAt r <= now ->
     exists w',
       PresenceStore.getOne u w = (Normal None, w') /\
       this_store w' = delete u (this_store w) /\
       this_store w' !! u = None /\
       PresenceStore.getOne u w' = (Normal None, w')) /\
  (forall r, this_store w !! u = Some r -> now < expiresAt r ->
     exists w',
       let now' := clock w (S (reads w)) in
       PresenceStore.getOne u w =
         (Normal (Some {| base := r;
                          ttlMs := Z.max 0 (expiresAt r - now');
                          isOnline := 0 <? Z.max 0 (expiresAt r - now') |}), w') /\
       this_store w' = this_store w) /\
  (forall s w', PresenceStore.getOne u w = (Normal (Some s), w') ->
     this_store w !! u = Some (base s) /\ now < expiresAt (base s)) /\
  (forall e w', PresenceStore.getOne u w <> (Thrown e, w')).
Proof.
  intros now. repeat split.
  - apply getOne_absent.
  - intros r H Hexp. eexists. split; [apply (getOne_expired u w r H Hexp)|].
    assert (Hgone : delete u (this_store w) !! u = None) by apply lookup_delete_eq.
    repeat split; [exact Hgone|]. by apply getOne_absent.
  - intros r H Hlive. eexists. split; [apply (getOne_live u w r H Hlive)|]. reflexivity.
  - destruct (getOne_cases u w) as (res & w1 & Hrun & Hcase).
    rewrite Hrun in H. inversion H; subst. by inversion Hcase; subst.
  - destruct (getOne_cases u w) as (res & w1 & Hrun & Hcase).
    rewrite Hrun in H. inversion H; subst. by inversion Hcase; subst.
  - intros e w' H. destruct (getOne_cases u w) as (res & w1 & Hrun & _). congruence.
Qed.

Lemma getOne_read_through_witness :
  (exists w', PresenceStore.getOne "a" stale_world = (Normal None, w') /\
              this_store w' = delete "a" (this_store stale_world) /\
              this_store w' !! "a" = None /\
              PresenceStore.getOne "a" w' = (Normal None, w')) /\
  (exists w', PresenceStore.getOne "b" fresh_world =
                (Normal (Some {| base := fresh_record; ttlMs := 4000; isOnline := true |}), w') /\
              this_store w' = this_store fresh_world).
Proof.
  split.
  - destruct (getOne_read_through "a" stale_world) as (_ & H & _).
    apply (H stale_record); [reflexivity | vm_compute; discriminate].
  - destruct (getOne_read_through "b" fresh_world) as (_ & _ & H & _).
    apply (H fresh_record); [reflexivity | reflexivity].
Defined.

(** C2. [upsert] takes [effectiveTtl] to be the larger of 1000 and the
    override (the configured default when no override is given), stores under
    the key a record made only of its arguments, of the clock value [now] and
    of [now + effectiveTtl] (whatever was stored before is replaced, other
    keys are untouched) and returns the snapshot of that new record, without
    a throw.  When the snapshot is taken at the same instant its [ttlMs] is
    [effectiveTtl], hence at least 1000, and so is the [ttlMs] of a [getOne]
    made at that instant. *)
Theorem upsert_replaces_with_floor (u : string) (s : PresenceStatus)
    (ov : option Overrides) (w : World) :
  let now := clock w (reads w) in
  let now' := clock w (S (reads w)) in
  let effectiveTtl :=
    Z.max 1000 (match ov ≫= o_ttlMs with Some t => t | None => this_ttlMs w end) in
  let r := {| userId := u; status := s; lastSeen := now;
              expiresAt := now + effectiveTtl; metadata := ov ≫= o_metadata |} in
  exists snap w',
    PresenceStore.upsert u s ov w = (Normal snap, w') /\
    base snap = r /\
    ttlMs snap = Z.max 0 (expiresAt r - now') /\
    isOnline snap = (0 <? ttlMs snap) /\
    this_store w' = <[u := r]> (this_store w) /\
    this_store w' !! u = Some r /\
    (forall u', u' <> u -> this_store w' !! u' = this_store w !! u') /\
    1000 <= effectiveTtl /\
    (now' = now -> ttlMs snap = effectiveTtl /\ 1000 <= ttlMs snap /\ isOnline snap = true) /\
    (clock w (S (S (reads w))) = now -> clock w (S (S (S (reads w)))) = now ->
       exists snap' w'',
         PresenceStore.getOne u w' = (Normal (Some snap'), w'') /\
         base snap' = r /\ ttlMs snap' = effectiveTtl /\ 1000 <= ttlMs snap').
Proof.
  intros now now' effectiveTtl r.
  assert (Hfloor : 1000 <= effectiveTtl) by (unfold effectiveTtl; lia).
  eexists _, _. split; [apply upsert_run|]. cbn [base ttlMs isOnline this_store set_reads set_store].
  assert (Hdef : default (this_ttlMs w) (ov ≫= o_ttlMs) =
                 match ov ≫= o_ttlMs with Some t => t | None => this_ttlMs w end)
    by (destruct (ov ≫= o_ttlMs); reflexivity).
  rewrite Hdef. fold effectiveTtl. fold now now'. fold r.
  repeat split.
  - apply lookup_insert_eq.
  - intros u' Hne. by apply lookup_insert_ne.
  - exact Hfloor.
  - rewrite H. cbn [expiresAt r]. lia.
  - rewrite H. cbn [expiresAt r]. lia.
  - rewrite H. cbn [expiresAt r]. apply Z.ltb_lt. lia.
  - intros H2 H3.
    set (w' := set_reads _ _).
    assert (Hl : this_store w' !! u = Some r) by apply lookup_insert_eq.
    assert (Hlive : clock w' (reads w') < expiresAt r).
    { cbn. fold now. rewrite H2. cbn [expiresAt r]. lia. }
    eexists _, _. split; [apply (getOne_live u w' r Hl Hlive)|].
    cbn. rewrite H3. fold now. repeat split; lia.
Qed.

Lemma upsert_replaces_with_floor_witness :
  exists snap w',
    PresenceStore.upsert "b" online (Some {| o_ttlMs := Some 10; o_metadata := None |})
      fresh_world = (Normal snap, w') /\
    ttlMs snap = 1000 /\
    status (base snap) = online /\
    (exists snap' w'',
       PresenceStore.getOne "b" w' = (Normal (Some snap'), w'') /\ 1000 <= ttlMs snap').
Proof.
  destruct (upsert_replaces_with_floor "b" online
              (Some {| o_ttlMs := Some 10; o_metadata := None |}) fresh_world)
    as (snap & w' & Hrun & Hbase & _ & _ & _ & _ & _ & _ & Hnow & Hget).
  exists snap, w'. split; [exact Hrun|].
  split; [apply Hnow; reflexivity|].
  split; [rewrite Hbase; reflexivity|].
  destruct Hget as (snap' & w'' & Hg & _ & _ & Hge); [reflexivity | reflexivity |].
  exists snap', w''. split; [exact Hg | exact Hge].
Defined.

(** C8. [markOffline] never throws and leaves the store without the key:
    the store afterwards is the store before with the key deleted (other
    keys untouched, nothing changed when the key had no record), and a
    second call in a row changes nothing more. *)
Theorem markOffline_idempotent (u : string) (w : World) :
  exists w1 w2,
    PresenceStore.markOffline u w = (Normal tt, w1) /\
    PresenceStore.markOffline u w1 = (Normal tt, w2) /\
    this_store w1 = delete u (this_store w) /\
    this_store w1 !! u = None /\
    (forall u', u' <> u -> this_store w1 !! u' = this_store w !! u') /\
    (this_store w !! u = None -> this_store w1 = this_store w) /\
    this_store w2 = this_store w1 /\
    this_store w2 !! u = None.
Proof.
  eexists _, _. split; [apply markOffline_run|]. split; [apply markOffline_run|].
  cbn [this_store set_store set_calls].
  repeat split.
  - apply lookup_delete_eq.
  - intros u' Hne. by apply lookup_delete_ne.
  - intros Hnone. by apply delete_id.
  - apply delete_id, lookup_delete_eq.
  - rewrite delete_id; apply lookup_delete_eq.
Qed.

Lemma markOffline_idempotent_witness :
  exists w1 w2,
    PresenceStore.markOffline "a" fresh_world = (Normal tt, w1) /\
    PresenceStore.markOffline "a" w1 = (Normal tt, w2) /\
    this_store w1 = this_store fresh_world /\
    this_store w2 = this_store w1.
Proof.
  destruct (markOffline_idempotent "a" fresh_world)
    as (w1 & w2 & H1 & H2 & _ & _ & _ & Hnoop & Hsame & _).
  exists w1, w2. repeat split; [exact H1 | exact H2 | | exact Hsame].
  apply Hnoop. reflexivity.
Defined.

(** ** [getMany] *)

Section GetMany.

Import PresenceStore.

Lemma store_step_refl (w : World) : store_step w w.
Proof. unfold store_step. repeat split; auto. Qed.

Lemma store_step_trans (w1 w2 w3 : World) :
  store_step w1 w2 -> store_step w2 w3 -> store_step w1 w3.
Proof.
  unfold store_step.
  intros (?&?&?&?&?&?&?&?&?&H12) (?&?&?&?&?&?&?&?&?&H23).
  repeat split; try congruence; [lia | auto].
Qed.

Lemma getOne_case_step (u : string) (w w' : World) (res : option PresenceSnapshot) :
  getOne_case u w res w' ->
  store_step w w' /\ lookup_outcome w u res /\
  (forall k, k <> u -> this_store w' !! k = this_store w !! k).
Proof.
  intros Hc. inversion Hc; subst; clear Hc.
  - split; [apply store_step_refl|]. split; [by left | auto].
  - split; [|split].
    + unfold store_step; cbn. repeat split; auto.
      intros k r0 Hk. apply lookup_delete_Some in Hk. tauto.
    + right. exists r, (reads w). auto.
    + intros k Hk. cbn. by apply lookup_delete_ne.
  - split; [|split].
    + unfold store_step; cbn. repeat split; auto.
    + exists (reads w), (S (reads w)). cbn. repeat split; auto.
    + auto.
Qed.

(** A result about a later world transfers to an earlier one that has the
    same clock and the same record under the key. *)
Lemma lookup_outcome_earlier (w w1 : World) (u : string) (res : option PresenceSnapshot) :
  store_step w w1 ->
  this_store w1 !! u = this_store w !! u ->
  lookup_outcome w1 u res -> lookup_outcome w u res.
Proof.
  intros (Hclock & _ & _ & _ & _ & _ & _ & _ & Hreads & _) Hsame.
  destruct res as [s|]; cbn.
  - intros (n & n' & Hn & Hlt & Hl & Hlive & Httl & Hon).
    exists n, n'. rewrite <- Hsame, <- Hclock. repeat split; auto. lia.
  - intros [Hnone | (r & n & Hn & Hl & Hexp)].
    + left. congruence.
    + right. exists r, n. rewrite <- Hsame, <- Hclock. repeat split; auto. lia.
Qed.

Lemma Forall2_impl_elem {A B} (P Q : A -> B -> Prop) (l : list A) (k : list B) :
  Forall2 P l k -> (forall x y, x ∈ l -> P x y -> Q x y) -> Forall2 Q l k.
Proof.
  induction 1 as [|x y l k Hxy Hall IH]; intros Himp; constructor.
  - apply Himp; [set_solver | exact Hxy].
  - apply IH. intros x' y' Hin. apply Himp. set_solver.
Qed.

Lemma mapM_getOne_run (l : list string) :
  NoDup l ->
  forall w, exists results w',
    mapM getOne l w = (Normal results, w') /\
    store_step w w' /\
    (forall k, k ∉ l -> this_store w' !! k = this_store w !! k) /\
    Forall2 (lookup_outcome w) l results.
Proof.
  induction 1 as [|x l Hx Hnd IH]; intros w.
  - exists [], w. repeat split; auto using store_step_refl.
  - destruct (getOne_cases x w) as (res & w1 & Hrun & Hcase).
    apply getOne_case_step in Hcase as (Hstep & Hout & Hother).
    destruct (IH w1) as (results & w' & Hrun' & Hstep' & Hother' & Hall).
    exists (res :: results), w'. split; [|split; [|split]].
    + cbn [mapM]. unfold bind at 1. rewrite Hrun.
      unfold bind at 1. rewrite Hrun'. reflexivity.
    + eapply store_step_trans; eauto.
    + intros k Hk. rewrite Hother' by set_solver. apply Hother. set_solver.
    + constructor; [exact Hout|].
      eapply Forall2_impl_elem; [exact Hall|].
      intros u r Hu. apply lookup_outcome_earlier; [exact Hstep|].
      apply Hother. set_solver.
Qed.

Lemma distinct_elem (l seen : list string) (x : string) :
  x ∈ distinct seen l <-> x ∈ l /\ x ∉ seen.
Proof.
  revert seen. induction l as [|y l IH]; intros seen; cbn [distinct].
  - set_solver.
  - case_bool_decide as Hy.
    + rewrite IH. set_solver.
    + rewrite !elem_of_cons, IH, not_elem_of_cons.
      destruct (decide (x = y)); naive_solver.
Qed.

Lemma distinct_NoDup (l seen : list string) : NoDup (distinct seen l).
Proof.
  revert seen. induction l as [|y l IH]; intros seen; cbn [distinct].
  - constructor.
  - case_bool_decide; [apply IH|].
    constructor; [|apply IH]. rewrite distinct_elem, not_elem_of_cons. naive_solver.
Qed.

Lemma distinct_length (l seen : list string) :
  (length (distinct seen l) <= length l)%nat.
Proof.
  revert seen. induction l as [|y l IH]; intros seen; cbn [distinct length].
  - lia.
  - case_bool_decide; [specialize (IH seen) | specialize (IH (y :: seen))]; cbn; lia.
Qed.

Lemma present_length (results : list (option PresenceSnapshot)) :
  (length (present results) <= length results)%nat.
Proof.
  unfold present. induction results as [|[s|] results IH]; cbn in *; lia.
Qed.

Lemma present_elem (w : World) (l : list string)
    (results : list (option PresenceSnapshot)) (s : PresenceSnapshot) :
  Forall2 (lookup_outcome w) l results ->
  s ∈ present results ->
  exists u, u ∈ l /\ lookup_outcome w u (Some s).
Proof.
  unfold present. induction 1 as [|u res l results Hout Hall IH]; cbn.
  - set_solver.
  - destruct res as [s'|]; cbn.
    + rewrite elem_of_cons. intros [->|Hin].
      * exists u. split; [set_solver | exact Hout].
      * destruct (IH Hin) as (u' & ? & ?). exists u'. split; [set_solver | done].
    + intros Hin. destruct (IH Hin) as (u' & ? & ?). exists u'. split; [set_solver | done].
Qed.

Lemma present_result (w : World) (l : list string)
    (results : list (option PresenceSnapshot)) (u : string) :
  Forall2 (lookup_outcome w) l results ->
  u ∈ l ->
  exists res, lookup_outcome w u res /\ (forall s, res = Some s -> s ∈ present results).
Proof.
  unfold present. induction 1 as [|u' res l results Hout Hall IH].
  - set_solver.
  - rewrite elem_of_cons. intros [->|Hin].
    + exists res. split; [exact Hout|]. intros s ->. cbn. set_solver.
    + destruct (IH Hin) as (res' & ? & Hs). exists res'. split; [done|].
      intros s Heq. specialize (Hs s Heq). destruct res; cbn; set_solver.
Qed.

Lemma outcome_key (w : World) (u : string) (s : PresenceSnapshot) :
  store_keyed (this_store w) -> lookup_outcome w u (Some s) -> userId (base s) = u.
Proof. intros Hk (n & n' & _ & _ & Hl & _). exact (Hk _ _ Hl). Qed.

Lemma present_keys_sublist (w : World) (l : list string)
    (results : list (option PresenceSnapshot)) :
  store_keyed (this_store w) ->
  Forall2 (lookup_outcome w) l results ->
  (fun s => userId (base s)) <$> present results `sublist_of` l.
Proof.
  intros Hk. unfold present. induction 1 as [|u res l results Hout Hall IH]; cbn.
  - constructor.
  - destruct res as [s|]; cbn.
    + rewrite (outcome_key w u s Hk Hout). by constructor.
    + by constructor.
Qed.

Lemma NoDup_fmap_filter_length {A} (f : A -> string) (a : string) (l : list A) :
  NoDup (f <$> l) -> (length (filter (fun x => f x = a) l) <= 1)%nat.
Proof.
  induction l as [|x l IH]; [cbn; lia|].
  rewrite fmap_cons, NoDup_cons. intros [Hx Hnd]. rewrite filter_cons.
  case_decide as Hfx; [|auto].
  destruct (filter (fun x => f x = a) l) as [|y k] eqn:Hfil; [cbn; lia|].
  exfalso. apply Hx.
  assert (Hy : y ∈ filter (fun x => f x = a) l) by (rewrite Hfil; set_solver).
  apply list_elem_of_filter in Hy as [Hfy Hin].
  rewrite Hfx, <- Hfy. by apply list_elem_of_fmap_2.
Qed.

Lemma getMany_run (ids : list string) (w : World) :
  exists results w',
    mapM getOne (distinct [] ids) w = (Normal results, w') /\
    getMany ids w = (Normal (present results), w') /\
    store_step w w' /\
    Forall2 (lookup_outcome w) (distinct [] ids) results.
Proof.
  destruct (mapM_getOne_run (distinct [] ids) (distinct_NoDup ids []) w)
    as (results & w' & Hrun & Hstep & _ & Hall).
  exists results, w'. split; [exact Hrun|]. split; [|split; [exact Hstep | exact Hall]].
  unfold getMany, bind. rewrite Hrun. reflexivity.
Qed.

End GetMany.

(** The store keeps every record under its own key. *)

Lemma store_keyed_empty : store_keyed ∅.
Proof. intros k r H. by rewrite lookup_empty in H. Qed.

Lemma store_keyed_insert (st : gmap string PresenceRecord) (r : PresenceRecord) :
  store_keyed st -> store_keyed (<[userId r := r]> st).
Proof.
  intros Hk k r' H. apply lookup_insert_Some in H as [[<- <-]|[_ H]]; [done | by apply Hk].
Qed.

Lemma store_keyed_step (w w' : World) :
  store_step w w' -> store_keyed (this_store w) -> store_keyed (this_store w').
Proof.
  intros (_&_&_&_&_&_&_&_&_&Hsub) Hk k r H. apply Hk, Hsub, H.
Qed.

Lemma store_keyed_delete (st : gmap string PresenceRecord) (u : string) :
  store_keyed st -> store_keyed (delete u st).
Proof. intros Hk k r H. apply lookup_delete_Some in H as [_ H]. by apply Hk. Qed.

Lemma upsert_keeps_keyed (u : string) (s : PresenceStatus) (ov : option Overrides)
    (w w' : World) (snap : PresenceSnapshot) :
  store_keyed (this_store w) ->
  PresenceStore.upsert u s ov w = (Normal snap, w') ->
  store_keyed (this_store w').
Proof.
  intros Hk Hrun. rewrite upsert_run in Hrun. inversion Hrun; subst; clear Hrun. cbn.
  match goal with |- store_keyed (<[u := ?r]> _) => apply (store_keyed_insert _ r) end.
  exact Hk.
Qed.

(** C9. On a store that keeps every record under its own key, [getMany]
    never throws; its result is what is left of the results of [getOne] on
    the distinct identifiers of the input, in order, once the absent ones
    are dropped; it has at most one entry for any identifier and is no
    longer than the input; every entry belongs to an identifier of the input
    and is the record stored for it, found alive; an identifier of the input
    with no entry had no record or a record found expired, and one whose
    record stays alive throughout has its entry. *)
Theorem getMany_dedups (ids : list string) (w : World) :
  store_keyed (this_store w) ->
  exists res w',
    PresenceStore.getMany ids w = (Normal res, w') /\
    (exists results,
       mapM PresenceStore.getOne (PresenceStore.distinct [] ids) w = (Normal results, w') /\
       res = PresenceStore.present results) /\
    NoDup (PresenceStore.distinct [] ids) /\
    (forall a, a ∈ PresenceStore.distinct [] ids <-> a ∈ ids) /\
    (forall a, (length (filter (fun s => userId (base s) = a) res) <= 1)%nat) /\
    (length res <= length ids)%nat /\
    (forall s, s ∈ res ->
       userId (base s) ∈ ids /\ lookup_outcome w (userId (base s)) (Some s)) /\
    (forall a, a ∈ ids -> (forall s, s ∈ res -> userId (base s) <> a) ->
       lookup_outcome w a None) /\
    (forall a r, a ∈ ids -> this_store w !! a = Some r ->
       (forall n, clock w n < expiresAt r) ->
       exists s, s ∈ res /\ base s = r).
Proof.
  intros Hk.
  destruct (getMany_run ids w) as (results & w' & Hmap & Hrun & Hstep & Hall).
  assert (Hin : forall a, a ∈ PresenceStore.distinct [] ids <-> a ∈ ids).
  { intros a. rewrite distinct_elem. set_solver. }
  exists (PresenceStore.present results), w'.
  split; [exact Hrun|]. split; [by exists results|].
  split; [apply distinct_NoDup|]. split; [exact Hin|].
  split; [|split; [|split; [|split]]].
  - intros a. apply NoDup_fmap_filter_length.
    eapply sublist_NoDup; [apply (distinct_NoDup ids [])|].
    by apply (present_keys_sublist w).
  - etransitivity; [apply present_length|].
    rewrite <- (Forall2_length _ _ _ Hall). apply distinct_length.
  - intros s Hs. destruct (present_elem w _ _ s Hall Hs) as (u & Hu & Hout).
    rewrite (outcome_key w u s Hk Hout). split; [by apply Hin | exact Hout].
  - intros a Ha Hno. apply Hin in Ha.
    destruct (present_result w _ _ a Hall Ha) as ([s|] & Hout & Hs); [|exact Hout].
    exfalso. apply (Hno s); [by apply Hs | by apply (outcome_key w a s Hk)].
  - intros a r Ha Hl Hlive. apply Hin in Ha.
    destruct (present_result w _ _ a Hall Ha) as ([s|] & Hout & Hs).
    + exists s. split; [by apply Hs|].
      destruct Hout as (n & n' & _ & _ & Hl' & _). congruence.
    + exfalso. destruct Hout as [Hnone | (r' & n & _ & Hl' & Hexp)]; [congruence|].
      assert (r' = r) by congruence. subst. specialize (Hlive n). lia.
Qed.

Lemma getMany_dedups_witness :
  exists res w',
    PresenceStore.getMany ["b"; "b"; "a"] fresh_world = (Normal res, w') /\
    (length res <= 3)%nat /\
    (length (filter (fun s => userId (base s) = "b") res) <= 1)%nat /\
    (exists s, s ∈ res /\ base s = fresh_record).
Proof.
  assert (Hk : store_keyed (this_store fresh_world)).
  { apply (store_keyed_insert ∅ fresh_record), store_keyed_empty. }
  destruct (getMany_dedups ["b"; "b"; "a"] fresh_world Hk)
    as (res & w' & Hrun & _ & _ & _ & Hone & Hlen & _ & _ & Hlive).
  exists res, w'. split; [exact Hrun|]. split; [exact Hlen|]. split; [apply Hone|].
  apply (Hlive "b" fresh_record); [set_solver | reflexivity | intros n; reflexivity].
Defined.

(** ** Running monadic code *)

(** Reduce the projections of an updated world. *)
Ltac fields :=
  cbn [clock reads this_ttlMs this_store subscriptions userIdVar readyState
       sendThrows sent calls set_reads set_store set_subscriptions
       set_userIdVar set_sent set_calls].

Lemma bind_normal {A B} (m : M A) (k : A -> M B) (w w' : World) (a : A) :
  m w = (Normal a, w') -> bind m k w = k a w'.
Proof. intros H. unfold bind. by rewrite H. Qed.

Lemma bind_thrown {A B} (m : M A) (k : A -> M B) (w w' : World) (e : Error) :
  m w = (Thrown e, w') -> bind m k w = (Thrown e, w').
Proof. intros H. unfold bind. by rewrite H. Qed.

Lemma try_catch_normal {A} (body handler : M A) (w w' : World) (a : A) :
  body w = (Normal a, w') -> try_catch body handler w = (Normal a, w').
Proof. intros H. unfold try_catch. by rewrite H. Qed.

Lemma try_catch_thrown {A} (body handler : M A) (w w' : World) (e : Error)
    (r : Completion A * World) :
  body w = (Thrown e, w') -> handler w' = r -> try_catch body handler w = r.
Proof. intros H <-. unfold try_catch. by rewrite H. Qed.

Lemma ws_send_ok (c : Conn) (msg : ServerMsg) (w : World) :
  sendThrows w c = false ->
  ws_send c msg w = (Normal tt, set_sent (sent w ++ [(c, msg)]) w).
Proof. intros H. unfold ws_send. by rewrite H. Qed.

Lemma ws_send_throws (c : Conn) (msg : ServerMsg) (w : World) :
  sendThrows w c = true -> ws_send c msg w = (Thrown SendError, w).
Proof. intros H. unfold ws_send. by rewrite H. Qed.

(** ** The broadcast *)

Section Broadcast.

Import WsSubscriptions.

Lemma notify_loop_run (friendId : string) (update : ServerMsg)
    (entries : list (Conn * Subscription)) (w : World) :
  notify_loop friendId update entries w =
    (Normal tt,
     set_subscriptions
       (pruned (readyState w) (sendThrows w) friendId entries (subscriptions w))
       (set_sent (sent w ++ pushes (readyState w) (sendThrows w) friendId update entries) w)).
Proof.
  revert w. induction entries as [|[c sub] rest IH]; intros w.
  - destruct w; cbn. by rewrite app_nil_r.
  - cbn [notify_loop pushes pruned]. unfold bind at 1, gets at 1.
    unfold targeted. cbn [fst snd].
    destruct (bool_decide (friendId ∈ friendIds sub) && bool_decide (readyState w c = OPEN)).
    + destruct (sendThrows w c) eqn:Hs; cbn [andb negb].
      * erewrite bind_normal;
          [|eapply try_catch_thrown; [by apply ws_send_throws | reflexivity]].
        rewrite IH. reflexivity.
      * erewrite bind_normal;
          [|eapply try_catch_normal; by apply ws_send_ok].
        rewrite IH. cbn. by rewrite <- app_assoc.
    + cbn [andb]. erewrite bind_normal; [|reflexivity]. apply IH.
Qed.

Lemma notifySubscribers_run (friendId : string) (st : EffectiveStatus) (seen : Z) (w : World) :
  notifySubscribers friendId st seen w =
    (Normal tt,
     set_subscriptions
       (pruned (readyState w) (sendThrows w) friendId (subscriptions w) (subscriptions w))
       (set_sent
          (sent w ++ pushes (readyState w) (sendThrows w) friendId
                       (update_frame friendId st seen) (subscriptions w))
          (set_calls (calls w ++ [CallNotify (JStr friendId) st seen]) w))).
Proof.
  unfold notifySubscribers. erewrite bind_normal; [|reflexivity].
  erewrite bind_normal; [|reflexivity]. rewrite notify_loop_run. reflexivity.
Qed.

End Broadcast.

(** ** The registry as a list of entries *)

Section Registry.

Import WsSubscriptions.

Lemma delivered_app (c : Conn) (l1 l2 : list (Conn * ServerMsg)) :
  delivered c (l1 ++ l2) = delivered c l1 ++ delivered c l2.
Proof. apply omap_app. Qed.

Lemma delivered_cons_same (c : Conn) (m : ServerMsg) (l : list (Conn * ServerMsg)) :
  delivered c ((c, m) :: l) = m :: delivered c l.
Proof. unfold delivered. cbn. by rewrite bool_decide_eq_true_2. Qed.

Lemma delivered_cons_other (c c' : Conn) (m : ServerMsg) (l : list (Conn * ServerMsg)) :
  c' <> c -> delivered c ((c', m) :: l) = delivered c l.
Proof. intros H. unfold delivered. cbn. by rewrite bool_decide_eq_false_2. Qed.

Lemma registry_get_delete (c c' : Conn) (subs : list (Conn * Subscription)) :
  registry_get c (registry_delete c' subs) =
    if bool_decide (c = c') then None else registry_get c subs.
Proof.
  induction subs as [|[c0 s0] subs IH]; cbn.
  - by case_bool_decide.
  - destruct (decide (c0 = c')) as [->|Hne].
    + rewrite bool_decide_eq_true_2 by done. rewrite IH.
      case_bool_decide as Hc; [done|].
      by rewrite (bool_decide_eq_false_2 (c' = c)) by congruence.
    + rewrite (bool_decide_eq_false_2 (c0 = c')) by done. cbn. rewrite IH.
      case_bool_decide as Hc; [|done]. subst.
      by rewrite bool_decide_eq_false_2 by done.
Qed.

Lemma registry_get_None (c : Conn) (subs : list (Conn * Subscription)) :
  registry_get c subs = None <-> c ∉ subs.*1.
Proof.
  induction subs as [|[c0 s0] subs IH]; cbn.
  - split; [intros _; apply not_elem_of_nil | done].
  - rewrite not_elem_of_cons. case_bool_decide; naive_solver.
Qed.

Lemma registry_get_Some (c : Conn) (sub : Subscription) (subs : list (Conn * Subscription)) :
  registry_wf subs -> (registry_get c subs = Some sub <-> (c, sub) ∈ subs).
Proof.
  unfold registry_wf. induction subs as [|[c0 s0] subs IH]; cbn.
  - intros _. split; [done | by intros ?%elem_of_nil].
  - rewrite NoDup_cons. intros [Hfresh Hnd]. rewrite elem_of_cons.
    case_bool_decide as Hc.
    + subst. split; [intros [= ->]; by left|].
      intros [[= ->]|Hin]; [done|]. exfalso. apply Hfresh.
      by apply (list_elem_of_fmap_2 fst) in Hin.
    + rewrite (IH Hnd). split; [by right|]. intros [[= -> ->]|Hin]; done.
Qed.

Lemma registry_delete_keys (c : Conn) (subs : list (Conn * Subscription)) :
  (registry_delete c subs).*1 `sublist_of` subs.*1.
Proof.
  induction subs as [|[c0 s0] subs IH]; cbn; [done|].
  case_bool_decide; cbn; by constructor.
Qed.

Lemma registry_delete_wf (c : Conn) (subs : list (Conn * Subscription)) :
  registry_wf subs -> registry_wf (registry_delete c subs).
Proof. intros H. eapply sublist_NoDup; [exact H | apply registry_delete_keys]. Qed.

Lemma registry_update_keys (c : Conn) (ids : gset string) (subs : list (Conn * Subscription)) :
  (registry_update c ids subs).*1 = subs.*1.
Proof.
  induction subs as [|[c0 s0] subs IH]; cbn; [done|].
  case_bool_decide; cbn; [done | by rewrite IH].
Qed.

Lemma pruned_wf rs fails (friendId : string) (entries subs : list (Conn * Subscription)) :
  registry_wf subs -> registry_wf (pruned rs fails friendId entries subs).
Proof.
  revert subs. induction entries as [|e rest IH]; intros subs Hwf; cbn; [done|].
  destruct (targeted rs friendId e && fails e.1); apply IH; [by apply registry_delete_wf | done].
Qed.

(** After the loop a connection is registered iff it was and no send to it
    threw. *)
Lemma pruned_get_failed rs fails (friendId : string) (c : Conn) (sub : Subscription)
    (entries subs : list (Conn * Subscription)) :
  (c, sub) ∈ entries -> targeted rs friendId (c, sub) = true -> fails c = true ->
  registry_get c (pruned rs fails friendId entries subs) = None.
Proof.
  intros Hin Ht Hf. revert subs.
  assert (Hstay : forall entries subs, c ∉ subs.*1 ->
            c ∉ (pruned rs fails friendId entries subs).*1).
  { clear. induction entries as [|e rest IH]; intros subs Hc; cbn; [done|].
    destruct (targeted rs friendId e && fails e.1); apply IH; [|done].
    intros Hc'. apply Hc. eapply elem_of_sublist; [exact Hc' | apply registry_delete_keys]. }
  induction entries as [|e rest IH]; intros subs; [by apply elem_of_nil in Hin|].
  apply elem_of_cons in Hin as [<-|Hin]; cbn.
  - rewrite Ht, Hf. cbn. apply registry_get_None, Hstay, registry_get_None.
    rewrite registry_get_delete. by rewrite bool_decide_eq_true_2.
  - destruct (targeted rs friendId e && fails e.1); by apply IH.
Qed.

Lemma pruned_get_kept rs fails (friendId : string) (c : Conn)
    (entries subs : list (Conn * Subscription)) :
  (forall sub, (c, sub) ∈ entries -> targeted rs friendId (c, sub) && fails c = false) ->
  registry_get c (pruned rs fails friendId entries subs) = registry_get c subs.
Proof.
  revert subs. induction entries as [|[c0 s0] rest IH]; intros subs Hok; cbn; [done|].
  assert (Hrest : forall sub, (c, sub) ∈ rest -> targeted rs friendId (c, sub) && fails c = false).
  { intros sub Hin. apply Hok. by right. }
  destruct (targeted rs friendId (c0, s0) && fails c0) eqn:Hfail; [|by apply IH].
  rewrite (IH _ Hrest), registry_get_delete.
  case_bool_decide as Hc; [|done]. subst.
  rewrite (Hok s0) in Hfail; [done | by left].
Qed.

Lemma pushes_only_update rs fails (friendId : string) (update : ServerMsg)
    (entries : list (Conn * Subscription)) (c : Conn) (m : ServerMsg) :
  (c, m) ∈ pushes rs fails friendId update entries ->
  m = update /\ fails c = false /\
  exists sub, (c, sub) ∈ entries /\ targeted rs friendId (c, sub) = true.
Proof.
  induction entries as [|[c0 s0] rest IH]; cbn; [by intros ?%elem_of_nil|].
  destruct (targeted rs friendId (c0, s0)) eqn:Ht; cbn.
  - destruct (fails c0) eqn:Hf; cbn.
    + intros (-> & ? & sub & ? & ?)%IH. repeat split; auto. exists sub. split; [by right | done].
    + rewrite elem_of_cons. intros [[= -> ->]|(-> & ? & sub & ? & ?)%IH].
      * repeat split; auto. exists s0. split; [by left | done].
      * repeat split; auto. exists sub. split; [by right | done].
  - intros (-> & ? & sub & ? & ?)%IH. repeat split; auto. exists sub. split; [by right | done].
Qed.

Lemma pushes_none rs fails (friendId : string) (update : ServerMsg)
    (entries : list (Conn * Subscription)) (c : Conn) :
  (forall sub, (c, sub) ∈ entries -> targeted rs friendId (c, sub) && negb (fails c) = false) ->
  delivered c (pushes rs fails friendId update entries) = [].
Proof.
  induction entries as [|[c0 s0] rest IH]; intros Hok; cbn [pushes fst snd]; [done|].
  assert (Hrest : forall sub, (c, sub) ∈ rest ->
            targeted rs friendId (c, sub) && negb (fails c) = false).
  { intros sub Hin. apply Hok. by right. }
  destruct (targeted rs friendId (c0, s0) && negb (fails c0)) eqn:Hsend; [|by apply IH].
  destruct (decide (c0 = c)) as [->|Hne].
  - rewrite (Hok s0) in Hsend; [done | by left].
  - rewrite delivered_cons_other by done. by apply IH.
Qed.

Lemma pushes_one rs fails (friendId : string) (update : ServerMsg)
    (entries : list (Conn * Subscription)) (c : Conn) (sub : Subscription) :
  registry_wf entries ->
  (c, sub) ∈ entries -> targeted rs friendId (c, sub) = true -> fails c = false ->
  delivered c (pushes rs fails friendId update entries) = [update].
Proof.
  unfold registry_wf. intros Hwf Hin Ht Hf.
  induction entries as [|[c0 s0] rest IH]; [by apply elem_of_nil in Hin|].
  cbn in Hwf. apply NoDup_cons in Hwf as [Hfresh Hnd].
  apply elem_of_cons in Hin as [[= <- <-]|Hin]; cbn [pushes fst snd].
  - rewrite Ht, Hf. cbn [andb negb]. rewrite delivered_cons_same. f_equal.
    apply pushes_none. intros sub' Hin'. exfalso. apply Hfresh.
    by apply (list_elem_of_fmap_2 fst) in Hin'.
  - assert (c0 <> c).
    { intros ->. apply Hfresh. by apply (list_elem_of_fmap_2 fst) in Hin. }
    destruct (targeted rs friendId (c0, s0) && negb (fails c0)).
    + rewrite delivered_cons_other by done. by apply IH.
    + by apply IH.
Qed.

End Registry.

Lemma targeted_spec rs (friendId : string) (c : Conn) (sub : Subscription) :
  targeted rs friendId (c, sub) = true <-> friendId ∈ friendIds sub /\ rs c = OPEN.
Proof.
  unfold targeted. cbn. rewrite andb_true_iff, !bool_decide_eq_true. done.
Qed.

Lemma targeted_false rs (friendId : string) (c : Conn) (sub : Subscription) :
  ~ (friendId ∈ friendIds sub /\ rs c = OPEN) -> targeted rs friendId (c, sub) = false.
Proof.
  intros H. destruct (targeted rs friendId (c, sub)) eqn:Ht; [|done].
  by apply targeted_spec in Ht.
Qed.

(** C7. A broadcast never throws, whatever the sends do: the sender sees no
    failure.  It touches neither the store nor the closures.  The frames it
    sends are all the one update.  A registered connection that watches the
    peer and is open gets that update exactly once and stays registered when
    its send works, whatever happens to the sends to the others; when its
    send throws it gets nothing and its entry is gone afterwards.  An entry
    that does not watch the peer, or is not open, is left alone. *)
Theorem broadcast_survives_send_failure (friendId : string) (st : EffectiveStatus)
    (seen : Z) (w : World) :
  registry_wf (subscriptions w) ->
  exists w' extra,
    WsSubscriptions.notifySubscribers friendId st seen w = (Normal tt, w') /\
    this_store w' = this_store w /\ userIdVar w' = userIdVar w /\
    sent w' = sent w ++ extra /\
    registry_wf (subscriptions w') /\
    (forall c m, (c, m) ∈ extra -> m = update_frame friendId st seen) /\
    (forall c sub, (c, sub) ∈ subscriptions w ->
       friendId ∈ friendIds sub -> readyState w c = OPEN -> sendThrows w c = false ->
       delivered c extra = [update_frame friendId st seen] /\
       WsSubscriptions.registry_get c (subscriptions w') = Some sub) /\
    (forall c sub, (c, sub) ∈ subscriptions w ->
       friendId ∈ friendIds sub -> readyState w c = OPEN -> sendThrows w c = true ->
       delivered c extra = [] /\
       WsSubscriptions.registry_get c (subscriptions w') = None) /\
    (forall c sub, (c, sub) ∈ subscriptions w ->
       ~ (friendId ∈ friendIds sub /\ readyState w c = OPEN) ->
       delivered c extra = [] /\
       WsSubscriptions.registry_get c (subscriptions w') = Some sub) /\
    (forall c, c ∉ (subscriptions w).*1 ->
       delivered c extra = [] /\
       WsSubscriptions.registry_get c (subscriptions w') = None).
Proof.
  intros Hwf.
  assert (Huniq : forall c s1 s2,
            (c, s1) ∈ subscriptions w -> (c, s2) ∈ subscriptions w -> s1 = s2).
  { intros c s1 s2 H1 H2. apply (registry_get_Some _ _ _ Hwf) in H1, H2. congruence. }
  eexists _, _. split; [apply notifySubscribers_run|].
  cbn [this_store userIdVar sent subscriptions set_subscriptions set_sent set_calls
       readyState sendThrows].
  split; [done|]. split; [done|]. split; [done|].
  split; [by apply pruned_wf|].
  split; [|split; [|split; [|split]]].
  - intros c m Hin. by apply pushes_only_update in Hin as [-> _].
  - intros c sub Hin Hw Ho Hs.
    assert (Ht : targeted (readyState w) friendId (c, sub) = true) by by apply targeted_spec.
    split; [by eapply pushes_one|].
    rewrite pruned_get_kept; [by apply registry_get_Some|].
    intros sub' _. rewrite Hs. apply andb_false_r.
  - intros c sub Hin Hw Ho Hs.
    assert (Ht : targeted (readyState w) friendId (c, sub) = true) by by apply targeted_spec.
    split; [|by eapply pruned_get_failed].
    apply pushes_none. intros sub' _. rewrite Hs. apply andb_false_r.
  - intros c sub Hin Hnot.
    assert (Ht : forall sub', (c, sub') ∈ subscriptions w ->
              targeted (readyState w) friendId (c, sub') = false).
    { intros sub' Hin'. rewrite (Huniq c sub' sub Hin' Hin). by apply targeted_false. }
    split.
    + apply pushes_none. intros sub' Hin'. by rewrite Ht.
    + rewrite pruned_get_kept; [by apply registry_get_Some|].
      intros sub' Hin'. by rewrite Ht.
  - intros c Hc.
    assert (Hno : forall sub, (c, sub) ∉ subscriptions w).
    { intros sub Hin. apply Hc. by apply (list_elem_of_fmap_2 fst) in Hin. }
    split.
    + apply pushes_none. intros sub Hin. by apply Hno in Hin.
    + rewrite pruned_get_kept; [by apply registry_get_None|].
      intros sub Hin. by apply Hno in Hin.
Qed.

Lemma broadcast_survives_send_failure_witness :
  exists w' extra,
    WsSubscriptions.notifySubscribers "p" (Stored away) 1000 lossy_world = (Normal tt, w') /\
    sent w' = sent lossy_world ++ extra /\
    delivered 2%nat extra = [update_frame "p" (Stored away) 1000] /\
    delivered 1%nat extra = [] /\
    WsSubscriptions.registry_get 1%nat (subscriptions w') = None /\
    delivered 3%nat extra = [].
Proof.
  assert (Hwf : registry_wf (subscriptions lossy_world)).
  { unfold registry_wf. cbn. apply (bool_decide_unpack _). vm_compute. exact I. }
  destruct (broadcast_survives_send_failure "p" (Stored away) 1000 lossy_world Hwf)
    as (w' & extra & Hrun & _ & _ & Hsent & _ & _ & Hok & Hfail & Hskip & _).
  exists w', extra. split; [exact Hrun|]. split; [exact Hsent|].
  split; [|split; [|split]].
  - apply (Hok 2%nat {| ws := 2%nat; friendIds := {[ "p" ]} |});
      [set_solver | set_solver | reflexivity | reflexivity].
  - apply (Hfail 1%nat {| ws := 1%nat; friendIds := {[ "p" ]} |});
      [set_solver | set_solver | reflexivity | reflexivity].
  - apply (Hfail 1%nat {| ws := 1%nat; friendIds := {[ "p" ]} |});
      [set_solver | set_solver | reflexivity | reflexivity].
  - apply (Hskip 3%nat {| ws := 3%nat; friendIds := {[ "q" ]} |}); [set_solver|].
    intros [Hin _]. cbn in Hin. apply elem_of_singleton in Hin. discriminate.
Defined.

(** ** Runs of the handlers of the adapter with the registry *)

Section AdapterRuns.

Import WsSubscriptions.

Lemma truthy_string (p : string) : p <> "" -> truthy_prop (Some (JStr p)) = true.
Proof. intros H. cbn. apply negb_true_iff. by apply String.eqb_neq. Qed.

(** A heartbeat for a non-empty string [p] on a connection whose send works. *)
Lemma heartbeat_run (c : Conn) (msg : ClientMsg) (p : string) (w : World) :
  m_type msg = Some (JStr "heartbeat") ->
  m_userId msg = Some (JStr p) ->
  p <> "" ->
  sendThrows w c = false ->
  let now := clock w (reads w) in
  let now' := clock w (S (reads w)) in
  let eff := Z.max 1000 (ttl_or_default (m_ttlMs msg)) in
  let r := {| userId := p; status := default online (m_status msg); lastSeen := now;
              expiresAt := now + eff; metadata := Some (default [] (m_metadata msg)) |} in
  let st := if 0 <? Z.max 0 (now + eff - now') then Stored (status r) else offline in
  exists w',
    on_message c (Parsed msg) w = (Normal tt, w') /\
    this_store w' = <[p := r]> (this_store w) /\
    userIdVar w' = (fun c' => if bool_decide (c' = c) then Some (JStr p) else userIdVar w c') /\
    sent w' = sent w ++ (c, HeartbeatAck p) ::
                pushes (readyState w) (sendThrows w) p (update_frame p st now) (subscriptions w) /\
    subscriptions w' =
      pruned (readyState w) (sendThrows w) p (subscriptions w) (subscriptions w) /\
    calls w' = calls w ++ [CallUpsert (JStr p); CallNotify (JStr p) st now] /\
    clock w' = clock w /\ readyState w' = readyState w /\ sendThrows w' = sendThrows w.
Proof.
  intros Htype Huid Hp Hs now now' eff r st.
  eexists. split.
  - unfold on_message. eapply try_catch_normal.
    unfold message_body. rewrite Htype, Huid, (truthy_string p Hp).
    cbn [is_literal String.eqb Ascii.eqb Bool.eqb andb].
    erewrite bind_normal; [|reflexivity].
    erewrite bind_normal; [|apply upsert_run].
    erewrite bind_normal; [|apply ws_send_ok; exact Hs].
    apply notifySubscribers_run.
  - cbn. rewrite <- !app_assoc. repeat split.
Qed.

(** The sequence shared by the offline branch and the close handler:
    [getOne], the last-seen value, [markOffline], [notifySubscribers]. *)
Lemma go_offline_run (u : string) (w : World) :
  exists seen w',
    (let* record := PresenceStore.getOne u in
     let* lastSeen := lastSeen_or_now record in
     PresenceStore.markOffline u >>
     notifySubscribers u offline lastSeen) w = (Normal tt, w') /\
    (forall r, this_store w !! u = Some r -> clock w (reads w) < expiresAt r ->
       lastSeen r <> 0 -> seen = lastSeen r) /\
    this_store w' = delete u (this_store w) /\
    userIdVar w' = userIdVar w /\
    sent w' = sent w ++ pushes (readyState w) (sendThrows w) u
                          (update_frame u offline seen) (subscriptions w) /\
    subscriptions w' =
      pruned (readyState w) (sendThrows w) u (subscriptions w) (subscriptions w) /\
    calls w' = calls w ++ [CallMarkOffline (JStr u); CallNotify (JStr u) offline seen] /\
    clock w' = clock w /\ readyState w' = readyState w /\ sendThrows w' = sendThrows w.
Proof.
  destruct (this_store w !! u) as [r|] eqn:Hl.
  - destruct (Z.le_gt_cases (expiresAt r) (clock w (reads w))) as [Hexp|Hlive].
    + eexists _, _. split.
      { erewrite bind_normal; [|by apply (getOne_expired u w r)].
        erewrite bind_normal; [|reflexivity].
        erewrite bind_normal; [|apply markOffline_run].
        apply notifySubscribers_run. }
      cbn. rewrite delete_delete_eq, <- !app_assoc. repeat split.
      intros r' [= <-] ? ?. lia.
    + destruct (lastSeen r =? 0) eqn:Hz.
      * eexists _, _. split.
        { erewrite bind_normal; [|by apply (getOne_live u w r)].
          cbn [lastSeen_or_now base]. rewrite Hz.
          erewrite bind_normal; [|reflexivity].
          erewrite bind_normal; [|apply markOffline_run].
          apply notifySubscribers_run. }
        cbn. rewrite <- !app_assoc. repeat split.
        intros r' [= <-] ? ?. lia.
      * eexists _, _. split.
        { erewrite bind_normal; [|by apply (getOne_live u w r)].
          cbn [lastSeen_or_now base]. rewrite Hz.
          erewrite bind_normal; [|reflexivity].
          erewrite bind_normal; [|apply markOffline_run].
          apply notifySubscribers_run. }
        cbn. rewrite <- !app_assoc. repeat split.
        by intros r' [= <-] ? ?.
  - eexists _, _. split.
    { erewrite bind_normal; [|by apply getOne_absent].
      erewrite bind_normal; [|reflexivity].
      erewrite bind_normal; [|apply markOffline_run].
      apply notifySubscribers_run. }
    cbn. rewrite <- !app_assoc. repeat split. by intros r' [=].
Qed.

End AdapterRuns.

Lemma delivered_cons (c c' : Conn) (m : ServerMsg) (l : list (Conn * ServerMsg)) :
  delivered c ((c', m) :: l) = (if bool_decide (c' = c) then [m] else []) ++ delivered c l.
Proof.
  case_bool_decide as H; [subst; apply delivered_cons_same | by apply delivered_cons_other].
Qed.

(** C5. A heartbeat for a non-empty user id [p] with status [s], received on
    a connection [c0] whose send works, while the clock advances by less
    than a second between the two readings of [upsert]: the handler
    completes; every registered connection that watches [p], is open and
    whose send works receives exactly one update frame, which names [p] with
    status [s]; a connection with no entry watching [p] receives no update.
    The only other frame is the acknowledgement to [c0]. *)
Theorem heartbeat_fan_out (p : string) (c0 : Conn) (msg : ClientMsg) (w : World) :
  m_type msg = Some (JStr "heartbeat") ->
  m_userId msg = Some (JStr p) ->
  p <> "" ->
  registry_wf (subscriptions w) ->
  sendThrows w c0 = false ->
  clock w (S (reads w)) < clock w (reads w) + 1000 ->
  let s := default online (m_status msg) in
  let update := update_frame p (Stored s) (clock w (reads w)) in
  let ack c := if bool_decide (c0 = c) then [HeartbeatAck p] else [] in
  exists w' extra r,
    WsSubscriptions.on_message c0 (Parsed msg) w = (Normal tt, w') /\
    this_store w' !! p = Some r /\ status r = s /\
    sent w' = sent w ++ extra /\
    (forall c sub, (c, sub) ∈ subscriptions w ->
       p ∈ friendIds sub -> readyState w c = OPEN -> sendThrows w c = false ->
       delivered c extra = ack c ++ [update]) /\
    (forall c, (forall sub, (c, sub) ∈ subscriptions w -> p ∉ friendIds sub) ->
       delivered c extra = ack c).
Proof.
  intros Htype Huid Hp Hwf Hs Hclock s update ack.
  destruct (heartbeat_run c0 msg p w Htype Huid Hp Hs)
    as (w' & Hrun & Hstore & _ & Hsent & _).
  assert (Hon : (0 <? Z.max 0 (clock w (reads w) + Z.max 1000 (ttl_or_default (m_ttlMs msg))
                               - clock w (S (reads w)))) = true).
  { apply Z.ltb_lt. lia. }
  rewrite Hon in Hsent. cbn [status] in Hsent.
  eexists w', _, _. split; [exact Hrun|].
  split; [rewrite Hstore; apply lookup_insert_eq|].
  split; [reflexivity|]. split; [exact Hsent|].
  split.
  - intros c sub Hin Hw Ho Hsend. rewrite delivered_cons. f_equal.
    eapply pushes_one; eauto. by apply targeted_spec.
  - intros c Hno. rewrite delivered_cons.
    rewrite pushes_none; [apply app_nil_r|].
    intros sub Hin. rewrite targeted_false; [done|]. intros [Hw _]. by apply (Hno sub).
Qed.

Lemma heartbeat_fan_out_witness :
  exists w' extra,
    WsSubscriptions.on_message 0%nat (Parsed (heartbeat_msg "p" away)) lobby_world
      = (Normal tt, w') /\
    sent w' = sent lobby_world ++ extra /\
    delivered 1%nat extra = [update_frame "p" (Stored away) 1000] /\
    delivered 2%nat extra = [update_frame "p" (Stored away) 1000] /\
    delivered 3%nat extra = [].
Proof.
  assert (Hwf : registry_wf (subscriptions lobby_world)).
  { unfold registry_wf. cbn. apply (bool_decide_unpack _). vm_compute. exact I. }
  destruct (heartbeat_fan_out "p" 0%nat (heartbeat_msg "p" away) lobby_world)
    as (w' & extra & r & Hrun & _ & _ & Hsent & Hsub & Hnot);
    [reflexivity | reflexivity | discriminate | exact Hwf | reflexivity
    | vm_compute; reflexivity |].
  exists w', extra. split; [exact Hrun|]. split; [exact Hsent|].
  split; [|split].
  - apply (Hsub 1%nat {| ws := 1%nat; friendIds := {[ "p" ]} |});
      [set_solver | set_solver | reflexivity | reflexivity].
  - apply (Hsub 2%nat {| ws := 2%nat; friendIds := {[ "p" ]} |});
      [set_solver | set_solver | reflexivity | reflexivity].
  - apply (Hnot 3%nat). intros sub Hin.
    assert (sub = {| ws := 3%nat; friendIds := {[ "q" ]} |}) as ->.
    { unfold lobby_world, watchers in Hin. cbn in Hin.
      rewrite !elem_of_cons in Hin. destruct Hin as [[=]|[[=]|[[=]|Hin]]]; [done|].
      by apply elem_of_nil in Hin. }
    cbn. intros Hin'. apply elem_of_singleton in Hin'. discriminate.
Defined.

(** ** Closing a connection *)

Section Close.

Import WsSubscriptions.

Lemma registry_delete_elem (c c' : Conn) (sub : Subscription)
    (subs : list (Conn * Subscription)) :
  (c', sub) ∈ registry_delete c subs <-> (c', sub) ∈ subs /\ c' <> c.
Proof.
  induction subs as [|[c0 s0] subs IH]; cbn.
  - split; [by intros ?%elem_of_nil | by intros [?%elem_of_nil _]].
  - case_bool_decide as Hc; rewrite ?elem_of_cons, IH; naive_solver.
Qed.

Lemma pruned_keys rs fails (friendId : string) (entries subs : list (Conn * Subscription)) :
  (pruned rs fails friendId entries subs).*1 `sublist_of` subs.*1.
Proof.
  revert subs. induction entries as [|e rest IH]; intros subs; cbn; [done|].
  destruct (targeted rs friendId e && fails e.1); [|apply IH].
  etransitivity; [apply IH | apply registry_delete_keys].
Qed.

Lemma pruned_after_delete rs fails (friendId : string) (c : Conn)
    (entries subs : list (Conn * Subscription)) :
  registry_get c (pruned rs fails friendId entries (registry_delete c subs)) = None.
Proof.
  apply registry_get_None. intros Hin.
  pose proof (elem_of_sublist _ _ _ Hin
                (pruned_keys rs fails friendId entries (registry_delete c subs))) as Hin'.
  revert Hin'. apply registry_get_None.
  rewrite registry_get_delete. by rewrite bool_decide_eq_true_2.
Qed.

Lemma on_close_step (c : Conn) (w : World) :
  on_close c w =
    match userIdVar w c with
    | None | Some JNull => ret tt
    | Some (JStr userId) =>
        let* record := PresenceStore.getOne userId in
        let* lastSeen := lastSeen_or_now record in
        PresenceStore.markOffline userId >>
        notifySubscribers userId offline lastSeen
    | Some v =>
        let* lastSeen := Date_now in
        log (CallMarkOffline v) >>
        log (CallNotify v offline lastSeen)
    end (set_subscriptions (registry_delete c (subscriptions w)) w).
Proof. reflexivity. Qed.

Lemma close_run_string (c : Conn) (u : string) (w : World) :
  userIdVar w c = Some (JStr u) ->
  exists seen w',
    on_close c w = (Normal tt, w') /\
    (forall r, this_store w !! u = Some r -> clock w (reads w) < expiresAt r ->
       lastSeen r <> 0 -> seen = lastSeen r) /\
    this_store w' = delete u (this_store w) /\
    sent w' = sent w ++ pushes (readyState w) (sendThrows w) u
                          (update_frame u offline seen) (registry_delete c (subscriptions w)) /\
    subscriptions w' =
      pruned (readyState w) (sendThrows w) u (registry_delete c (subscriptions w))
        (registry_delete c (subscriptions w)) /\
    calls w' = calls w ++ [CallMarkOffline (JStr u); CallNotify (JStr u) offline seen].
Proof.
  intros Hvar.
  destruct (go_offline_run u (set_subscriptions (registry_delete c (subscriptions w)) w))
    as (seen & w' & Hrun & Hseen & Hstore & _ & Hsent & Hsubs & Hcalls & _).
  exists seen, w'. split; [|by repeat split].
  rewrite on_close_step, Hvar. exact Hrun.
Qed.

Lemma on_close_keeps_invariants (c : Conn) (w : World) :
  exists w',
    on_close c w = (Normal tt, w') /\
    (registry_wf (subscriptions w) -> registry_wf (subscriptions w')) /\
    (store_keyed (this_store w) -> store_keyed (this_store w')).
Proof.
  destruct (userIdVar w c) as [v|] eqn:Hvar.
  - destruct v as [|b|z|u|items|fields].
    1,2,3,5,6: (eexists; split; [rewrite on_close_step, Hvar; reflexivity|];
      fields; split; [apply registry_delete_wf | done]).
    destruct (close_run_string c u w Hvar) as (seen & w' & Hrun & _ & Hstore & _ & Hsubs & _).
    exists w'. split; [exact Hrun|]. rewrite Hstore, Hsubs. split.
    + intros Hwf. by apply pruned_wf, registry_delete_wf.
    + apply store_keyed_delete.
  - eexists. split; [rewrite on_close_step, Hvar; reflexivity|].
    fields. split; [apply registry_delete_wf | done].
Qed.

End Close.

(** C6. Closing a connection [c] never throws and leaves [c] without a
    registry entry, whatever its closure holds.  No frame goes to [c].  If
    the closure holds the user id [u]: the record of [u] is gone, so that
    [getOne u] answers absent; one update frame is built, saying [u] is
    ["offline"] (with the last-seen value of the record when it was alive
    and not zero), and every other registered connection that watches [u],
    is open and whose send works receives it exactly once, a connection that
    does not watch [u] receives nothing.  If the closure holds nothing, the
    store is untouched and nothing is sent. *)
Theorem close_cleans_up (c : Conn) (w : World) :
  registry_wf (subscriptions w) ->
  exists w' extra,
    WsSubscriptions.on_close c w = (Normal tt, w') /\
    WsSubscriptions.registry_get c (subscriptions w') = None /\
    sent w' = sent w ++ extra /\
    delivered c extra = [] /\
    (forall u, userIdVar w c = Some (JStr u) ->
       this_store w' = delete u (this_store w) /\
       this_store w' !! u = None /\
       PresenceStore.getOne u w' = (Normal None, w') /\
       exists seen,
         (forall r, this_store w !! u = Some r -> clock w (reads w) < expiresAt r ->
            lastSeen r <> 0 -> seen = lastSeen r) /\
         (forall c' sub, c' <> c -> (c', sub) ∈ subscriptions w ->
            u ∈ friendIds sub -> readyState w c' = OPEN -> sendThrows w c' = false ->
            delivered c' extra = [update_frame u offline seen]) /\
         (forall c', (forall sub, (c', sub) ∈ subscriptions w -> u ∉ friendIds sub) ->
            delivered c' extra = [])) /\
    (userIdVar w c = None -> this_store w' = this_store w /\ extra = []).
Proof.
  intros Hwf.
  assert (Hwf' : registry_wf (WsSubscriptions.registry_delete c (subscriptions w)))
    by by apply registry_delete_wf.
  assert (Hgone : forall sub, (c, sub) ∉ WsSubscriptions.registry_delete c (subscriptions w)).
  { intros sub Hin. apply registry_delete_elem in Hin. naive_solver. }
  destruct (userIdVar w c) as [v|] eqn:Hvar.
  - destruct v as [|b|z|u|items|fields].
    1,2,3,5,6: (eexists _, [];
      split; [rewrite on_close_step, Hvar; reflexivity|];
      cbn; rewrite registry_get_delete, bool_decide_eq_true_2, app_nil_r by done;
      repeat split; done).
    destruct (close_run_string c u w Hvar)
      as (seen & w' & Hrun & Hseen & Hstore & Hsent & Hsubs & _).
    eexists w', _. split; [exact Hrun|].
    split; [rewrite Hsubs; apply pruned_after_delete|].
    split; [exact Hsent|].
    split; [apply pushes_none; intros sub Hin; by apply Hgone in Hin|].
    split; [|done].
    intros u' [= <-].
    assert (Hnone : this_store w' !! u = None) by (rewrite Hstore; apply lookup_delete_eq).
    split; [exact Hstore|]. split; [exact Hnone|].
    split; [by apply getOne_absent|].
    exists seen. split; [exact Hseen|]. split.
    + intros c' sub Hne Hin Hw Ho Hs.
      eapply pushes_one; eauto; [by apply registry_delete_elem | by apply targeted_spec].
    + intros c' Hno. apply pushes_none. intros sub Hin.
      apply registry_delete_elem in Hin as [Hin _].
      rewrite targeted_false; [done|]. intros [Hw _]. by apply (Hno sub).
  - eexists _, []. split; [rewrite on_close_step, Hvar; reflexivity|].
    cbn. rewrite registry_get_delete, bool_decide_eq_true_2, app_nil_r by done.
    repeat split; done.
Qed.

Lemma close_cleans_up_witness :
  exists w' extra,
    WsSubscriptions.on_close 0%nat closing_world = (Normal tt, w') /\
    WsSubscriptions.registry_get 0%nat (subscriptions w') = None /\
    sent w' = sent closing_world ++ extra /\
    this_store w' !! "p" = None /\
    delivered 0%nat extra = [] /\
    delivered 1%nat extra = [update_frame "p" offline 900] /\
    delivered 3%nat extra = [].
Proof.
  assert (Hwf : registry_wf (subscriptions closing_world)).
  { unfold registry_wf. cbn. apply (bool_decide_unpack _). vm_compute. exact I. }
  destruct (close_cleans_up 0%nat closing_world Hwf)
    as (w' & extra & Hrun & Hreg & Hsent & Hself & Hid & _).
  destruct (Hid "p") as (_ & Hgone & _ & seen & Hseen & Hsub & Hnot); [reflexivity|].
  assert (seen = 900) as ->.
  { apply (Hseen {| userId := "p"; status := away; lastSeen := 900;
                    expiresAt := 5000; metadata := None |});
      [reflexivity | reflexivity | discriminate]. }
  exists w', extra. repeat split; try assumption.
  - apply (Hsub 1%nat {| ws := 1%nat; friendIds := {[ "p" ]} |});
      [discriminate | set_solver | set_solver | reflexivity | reflexivity].
  - apply (Hnot 3%nat). intros sub Hin.
    assert (sub = {| ws := 3%nat; friendIds := {[ "q" ]} |}) as ->.
    { unfold closing_world, watchers in Hin. cbn in Hin.
      rewrite !elem_of_cons in Hin.
      destruct Hin as [[=]|[[=]|[[=]|[[=]|Hin]]]]; [done|].
      by apply elem_of_nil in Hin. }
    cbn. intros Hin'. apply elem_of_singleton in Hin'. discriminate.
Defined.

(** ** Every message on the adapter with the registry *)

Section Messages.

Import WsSubscriptions.

Lemma is_literal_true (p : option JSON) (s : string) :
  is_literal p s = true -> p = Some (JStr s).
Proof.
  destruct p as [[| | |t| |]|]; cbn; try discriminate.
  by intros ->%String.eqb_eq.
Qed.

Lemma truthy_string_inv (p : string) : truthy_prop (Some (JStr p)) = true -> p <> "".
Proof. cbn. intros H%negb_true_iff. by apply String.eqb_neq. Qed.

(** The reply of the query branch. *)
Lemma query_run (c : Conn) (msg : ClientMsg) (w : World) :
  is_literal (m_type msg) "heartbeat" && truthy_prop (m_userId msg) = false ->
  is_literal (m_type msg) "offline" && truthy_prop (m_userId msg) = false ->
  is_literal (m_type msg) "query-presence" && is_array (m_userIds msg) = true ->
  sendThrows w c = false ->
  exists records w1,
    PresenceStore.getMany (filter_strings (array_items (m_userIds msg))) w
      = (Normal records, w1) /\
    on_message c (Parsed msg) w =
      (Normal tt,
       set_sent (sent w1 ++ [(c, PresenceResponse (m_requestId msg) (map toEntry records))]) w1).
Proof.
  intros H1 H2 H3 Hs.
  destruct (getMany_run (filter_strings (array_items (m_userIds msg))) w)
    as (results & w1 & _ & Hrun & Hstep & _).
  exists (PresenceStore.present results), w1. split; [exact Hrun|].
  unfold on_message. eapply try_catch_normal.
  unfold message_body. rewrite H1, H2, H3.
  erewrite bind_normal; [|exact Hrun].
  apply ws_send_ok. destruct Hstep as (_&_&_&_&_&->&_). exact Hs.
Qed.

(** The reply of the subscribe branch; [w0] is the world once the registry
    has been updated. *)
Lemma subscribe_run (c : Conn) (msg : ClientMsg) (w : World) :
  is_literal (m_type msg) "heartbeat" && truthy_prop (m_userId msg) = false ->
  is_literal (m_type msg) "offline" && truthy_prop (m_userId msg) = false ->
  is_literal (m_type msg) "query-presence" && is_array (m_userIds msg) = false ->
  is_literal (m_type msg) "subscribe-friends" && is_array (m_friendIds msg) = true ->
  sendThrows w c = false ->
  let ids := filter_strings (array_items (m_friendIds msg)) in
  let w0 := set_subscriptions
              match registry_get c (subscriptions w) with
              | Some _ => registry_update c (list_to_set ids) (subscriptions w)
              | None => subscriptions w ++ [(c, {| ws := c; friendIds := list_to_set ids |})]
              end w in
  exists records w1,
    PresenceStore.getMany ids w0 = (Normal records, w1) /\
    on_message c (Parsed msg) w =
      (Normal tt, set_sent (sent w1 ++ [(c, FriendsPresenceUpdate (map toEntry records))]) w1).
Proof.
  intros H1 H2 H3 H4 Hs ids w0.
  destruct (getMany_run ids w0) as (results & w1 & _ & Hrun & Hstep & _).
  exists (PresenceStore.present results), w1. split; [exact Hrun|].
  unfold on_message. eapply try_catch_normal.
  unfold message_body. rewrite H1, H2, H3, H4.
  erewrite bind_normal; [|reflexivity].
  assert (Hmod : forall k : M unit,
            bind match registry_get c (subscriptions w) with
                 | Some _ =>
                     modify (fun w => set_subscriptions
                       (registry_update c (list_to_set ids) (subscriptions w)) w)
                 | None =>
                     modify (fun w => set_subscriptions
                       (subscriptions w ++ [(c, {| ws := c; friendIds := list_to_set ids |})]) w)
                 end (fun _ => k) w = k w0).
  { intros k. unfold w0. destruct (registry_get c (subscriptions w)); reflexivity. }
  fold ids. rewrite Hmod.
  erewrite bind_normal; [|exact Hrun].
  apply ws_send_ok. destruct Hstep as (_&_&_&_&_&->&_). exact Hs.
Qed.

End Messages.

Section MessagesTotal.

Import WsSubscriptions.

(** A heartbeat or an offline message whose [userId] is truthy but not a
    string only binds the closure variable. *)
Lemma bind_only_run (c : Conn) (msg : ClientMsg) (v : JSON) (w : World) :
  m_userId msg = Some v ->
  (forall p, v <> JStr p) ->
  is_literal (m_type msg) "heartbeat" && truthy_prop (m_userId msg) = true \/
  is_literal (m_type msg) "offline" && truthy_prop (m_userId msg) = true ->
  on_message c (Parsed msg) w =
    (Normal tt,
     set_userIdVar (fun c' => if bool_decide (c' = c) then Some v else userIdVar w c') w).
Proof.
  intros Huid Hns Hb. unfold on_message. eapply try_catch_normal. unfold message_body.
  destruct (is_literal (m_type msg) "heartbeat" && truthy_prop (m_userId msg)) eqn:H1.
  - rewrite Huid. destruct v; try reflexivity. by destruct (Hns s).
  - destruct Hb as [Hb|Hb]; [discriminate|]. rewrite Hb, Huid.
    destruct v; try reflexivity. by destruct (Hns s).
Qed.

Lemma offline_run (c : Conn) (msg : ClientMsg) (u : string) (w : World) :
  is_literal (m_type msg) "heartbeat" && truthy_prop (m_userId msg) = false ->
  is_literal (m_type msg) "offline" && truthy_prop (m_userId msg) = true ->
  m_userId msg = Some (JStr u) ->
  exists seen w',
    on_message c (Parsed msg) w = (Normal tt, w') /\
    this_store w' = delete u (this_store w) /\
    sent w' = sent w ++ pushes (readyState w) (sendThrows w) u
                          (update_frame u offline seen) (subscriptions w) /\
    subscriptions w' =
      pruned (readyState w) (sendThrows w) u (subscriptions w) (subscriptions w) /\
    calls w' = calls w ++ [CallMarkOffline (JStr u); CallNotify (JStr u) offline seen].
Proof.
  intros H1 H2 Huid.
  destruct (go_offline_run u
              (set_userIdVar (fun c' => if bool_decide (c' = c) then Some (JStr u)
                                        else userIdVar w c') w))
    as (seen & w' & Hrun & _ & Hstore & _ & Hsent & Hsubs & Hcalls & _).
  exists seen, w'. split; [|by repeat split].
  unfold on_message. eapply try_catch_normal. unfold message_body.
  rewrite H1, H2, Huid. erewrite bind_normal; [|reflexivity]. exact Hrun.
Qed.

(** With a send that works on the receiving connection, the message handler
    completes on every frame, and what it adds to the trace of calls is
    nothing, or an [upsert] and its notification, or a [markOffline] and
    its notification. *)
Lemma on_message_total (c : Conn) (data : Inbound) (w : World) :
  sendThrows w c = false ->
  exists w' tr,
    on_message c data w = (Normal tt, w') /\
    calls w' = calls w ++ tr /\ handler_trace tr.
Proof.
  intros Hs. destruct data as [| |msg].
  1,2: (exists (set_sent (sent w ++ [(c, ErrorReply)]) w), [];
        split; [unfold on_message; eapply try_catch_thrown;
                  [reflexivity | by apply ws_send_ok]|];
        cbn; rewrite app_nil_r; split; [done | constructor]).
  assert (Hquiet : forall w', calls w' = calls w ->
            on_message c (Parsed msg) w = (Normal tt, w') ->
            exists w' tr, on_message c (Parsed msg) w = (Normal tt, w') /\
              calls w' = calls w ++ tr /\ handler_trace tr).
  { intros w' Hc Hrun. exists w', []. rewrite app_nil_r. repeat split; auto. constructor. }
  destruct (is_literal (m_type msg) "heartbeat" && truthy_prop (m_userId msg)) eqn:H1.
  { apply andb_true_iff in H1 as H1'. destruct H1' as [Ht Hu]. apply is_literal_true in Ht.
    destruct (m_userId msg) as [v|] eqn:Huid; [|discriminate].
    assert (Hcase : (exists p, v = JStr p) \/ (forall p, v <> JStr p)).
    { destruct v; try (right; intros p; discriminate). left. eauto. }
    destruct Hcase as [[p ->]|Hns].
    - destruct (heartbeat_run c msg p w Ht Huid (truthy_string_inv p Hu) Hs)
        as (w' & Hrun & _ & _ & _ & _ & Hcalls & _).
      eexists w', _. split; [exact Hrun|]. split; [exact Hcalls | constructor].
    - eapply Hquiet; [|apply (bind_only_run c msg v w Huid Hns); rewrite Huid; by left].
      reflexivity. }
  destruct (is_literal (m_type msg) "offline" && truthy_prop (m_userId msg)) eqn:H2.
  { apply andb_true_iff in H2 as H2'. destruct H2' as [Ht Hu].
    destruct (m_userId msg) as [v|] eqn:Huid; [|discriminate].
    assert (Hcase : (exists p, v = JStr p) \/ (forall p, v <> JStr p)).
    { destruct v; try (right; intros p; discriminate). left. eauto. }
    destruct Hcase as [[p ->]|Hns].
    - pose proof (offline_run c msg p w) as Hoff. rewrite Huid in Hoff.
      destruct (Hoff H1 H2 eq_refl) as (seen & w' & Hrun & _ & _ & _ & Hcalls).
      eexists w', _. split; [exact Hrun|]. split; [exact Hcalls | constructor].
    - eapply Hquiet; [|apply (bind_only_run c msg v w Huid Hns); rewrite Huid; by right].
      reflexivity. }
  destruct (is_literal (m_type msg) "query-presence" && is_array (m_userIds msg)) eqn:H3.
  { destruct (query_run c msg w H1 H2 H3 Hs) as (records & w1 & Hget & Hrun).
    eapply Hquiet; [|exact Hrun]. cbn.
    destruct (getMany_run (filter_strings (array_items (m_userIds msg))) w)
      as (results & w1' & _ & Hget' & Hstep & _).
    rewrite Hget in Hget'. inversion Hget'; subst.
    by destruct Hstep as (_&_&_&_&_&_&_&->&_). }
  destruct (is_literal (m_type msg) "subscribe-friends" && is_array (m_friendIds msg)) eqn:H4.
  { destruct (subscribe_run c msg w H1 H2 H3 H4 Hs) as (records & w1 & Hget & Hrun).
    eapply Hquiet; [|exact Hrun]. cbn.
    match type of Hget with PresenceStore.getMany ?ids ?w0 = _ =>
      destruct (getMany_run ids w0) as (results & w1' & _ & Hget' & Hstep & _) end.
    rewrite Hget in Hget'. inversion Hget'; subst.
    by destruct Hstep as (_&_&_&_&_&_&_&->&_). }
  destruct (is_literal (m_type msg) "unsubscribe-friends") eqn:H5.
  { eapply Hquiet; [|unfold on_message; eapply try_catch_normal; unfold message_body;
                      rewrite H1, H2, H3, H4, H5; reflexivity].
    reflexivity. }
  eapply Hquiet; [|unfold on_message; eapply try_catch_normal; unfold message_body;
                    rewrite H1, H2, H3, H4, H5; reflexivity].
  reflexivity.
Qed.

(** The handler keeps the registry a map and the store keyed by user id. *)
Lemma on_message_keeps_invariants (c : Conn) (data : Inbound) (w : World) :
  sendThrows w c = false ->
  exists w',
    on_message c data w = (Normal tt, w') /\
    (registry_wf (subscriptions w) -> registry_wf (subscriptions w')) /\
    (store_keyed (this_store w) -> store_keyed (this_store w')).
Proof.
  intros Hs. destruct data as [| |msg].
  1,2: (exists (set_sent (sent w ++ [(c, ErrorReply)]) w);
        split; [unfold on_message; eapply try_catch_thrown;
                  [reflexivity | by apply ws_send_ok]|];
        fields; split; done).
  destruct (is_literal (m_type msg) "heartbeat" && truthy_prop (m_userId msg)) eqn:H1.
  { apply andb_true_iff in H1 as H1'. destruct H1' as [Ht Hu]. apply is_literal_true in Ht.
    destruct (m_userId msg) as [v|] eqn:Huid; [|discriminate].
    assert (Hcase : (exists p, v = JStr p) \/ (forall p, v <> JStr p)).
    { destruct v; try (right; intros p; discriminate). left. eauto. }
    destruct Hcase as [[p ->]|Hns].
    - destruct (heartbeat_run c msg p w Ht Huid (truthy_string_inv p Hu) Hs)
        as (w' & Hrun & Hstore & _ & _ & Hsubs & _).
      exists w'. split; [exact Hrun|]. rewrite Hstore, Hsubs. split.
      + apply pruned_wf.
      + intros Hk. match goal with |- store_keyed (<[p := ?r]> _) =>
          apply (store_keyed_insert _ r Hk) end.
    - eexists. split; [apply (bind_only_run c msg v w Huid Hns); rewrite Huid; by left|].
      fields. split; done. }
  destruct (is_literal (m_type msg) "offline" && truthy_prop (m_userId msg)) eqn:H2.
  { apply andb_true_iff in H2 as H2'. destruct H2' as [Ht Hu].
    destruct (m_userId msg) as [v|] eqn:Huid; [|discriminate].
    assert (Hcase : (exists p, v = JStr p) \/ (forall p, v <> JStr p)).
    { destruct v; try (right; intros p; discriminate). left. eauto. }
    destruct Hcase as [[p ->]|Hns].
    - pose proof (offline_run c msg p w) as Hoff. rewrite Huid in Hoff.
      destruct (Hoff H1 H2 eq_refl) as (seen & w' & Hrun & Hstore & _ & Hsubs & _).
      exists w'. split; [exact Hrun|]. rewrite Hstore, Hsubs.
      split; [apply pruned_wf | apply store_keyed_delete].
    - eexists. split; [apply (bind_only_run c msg v w Huid Hns); rewrite Huid; by right|].
      fields. split; done. }
  destruct (is_literal (m_type msg) "query-presence" && is_array (m_userIds msg)) eqn:H3.
  { destruct (query_run c msg w H1 H2 H3 Hs) as (records & w1 & Hget & Hrun).
    eexists. split; [exact Hrun|]. fields.
    destruct (getMany_run (filter_strings (array_items (m_userIds msg))) w)
      as (results & w1' & _ & Hget' & Hstep & _).
    rewrite Hget in Hget'. inversion Hget'; subst.
    split; [|by apply store_keyed_step].
    by destruct Hstep as (_&_&->&_). }
  destruct (is_literal (m_type msg) "subscribe-friends" && is_array (m_friendIds msg)) eqn:H4.
  { destruct (subscribe_run c msg w H1 H2 H3 H4 Hs) as (records & w1 & Hget & Hrun).
    eexists. split; [exact Hrun|]. fields.
    match type of Hget with PresenceStore.getMany ?ids ?w0 = _ =>
      destruct (getMany_run ids w0) as (results & w1' & _ & Hget' & Hstep & _) end.
    rewrite Hget in Hget'. inversion Hget'; subst.
    split; [|by apply (store_keyed_step _ _ Hstep)].
    destruct Hstep as (_&_&->&_). fields. intros Hwf.
    destruct (registry_get c (subscriptions w)) eqn:Hreg.
    - unfold registry_wf. by rewrite registry_update_keys.
    - unfold registry_wf. rewrite fmap_app. cbn.
      apply NoDup_app. split; [exact Hwf|]. split; [|apply NoDup_singleton].
      intros c' Hin ->%list_elem_of_singleton. by apply registry_get_None in Hreg. }
  destruct (is_literal (m_type msg) "unsubscribe-friends") eqn:H5.
  { eexists. split; [unfold on_message; eapply try_catch_normal; unfold message_body;
                      rewrite H1, H2, H3, H4, H5; reflexivity|].
    fields. split; [apply registry_delete_wf | done]. }
  eexists. split; [unfold on_message; eapply try_catch_normal; unfold message_body;
                    rewrite H1, H2, H3, H4, H5; reflexivity|].
  split; done.
Qed.

End MessagesTotal.

(** ** Traces of calls *)



Lemma on_close_trace (c : Conn) (w : World) :
  exists w' tr,
    WsSubscriptions.on_close c w = (Normal tt, w') /\
    calls w' = calls w ++ tr /\ handler_trace tr.
Proof.
  destruct (userIdVar w c) as [v|] eqn:Hvar.
  - destruct v as [|b|z|u|items|fields].
    2,3,5,6: (eexists _, _; split; [rewrite on_close_step, Hvar; reflexivity|];
      cbn; rewrite <- app_assoc; split; [reflexivity | constructor]).
    + eexists _, []. split; [rewrite on_close_step, Hvar; reflexivity|].
      cbn. rewrite app_nil_r. split; [done | constructor].
    + destruct (close_run_string c u w Hvar) as (seen & w' & Hrun & _ & _ & _ & _ & Hcalls).
      eexists w', _. split; [exact Hrun|]. split; [exact Hcalls | constructor].
  - eexists _, []. split; [rewrite on_close_step, Hvar; reflexivity|].
    cbn. rewrite app_nil_r. split; [done | constructor].
Qed.

(** ** The handlers without broadcast *)

Section Silent.

Lemma basic_on_message_total (c : Conn) (data : Inbound) (w : World) :
  sendThrows w c = false ->
  exists w' tr,
    WsServer.on_message c data w = (Normal tt, w') /\
    calls w' = calls w ++ tr /\ silent_trace tr /\
    subscriptions w' = subscriptions w /\
    (forall c', c' <> c -> delivered c' (sent w') = delivered c' (sent w)).
Proof.
  intros Hs.
  assert (Hsame : forall (m : ServerMsg) c', c' <> c ->
            delivered c' (sent w ++ [(c, m)]) = delivered c' (sent w)).
  { intros m c' Hne. rewrite delivered_app, delivered_cons_other by done.
    apply app_nil_r. }
  destruct data as [| |msg].
  1,2: (exists (set_sent (sent w ++ [(c, ErrorReply)]) w), [];
        split; [unfold WsServer.on_message; eapply try_catch_thrown;
                  [reflexivity | by apply ws_send_ok]|];
        fields; rewrite app_nil_r; repeat split; [constructor | apply Hsame]).
  unfold WsServer.on_message, WsServer.message_body.
  destruct (is_literal (m_type msg) "heartbeat" && truthy_prop (m_userId msg)) eqn:H1.
  { destruct (m_userId msg) as [[| | |p| |]|] eqn:Huid;
      try (eexists _, []; split; [eapply try_catch_normal; reflexivity|];
           fields; rewrite app_nil_r; repeat split; constructor).
    eexists _, _. split.
    { eapply try_catch_normal. erewrite bind_normal; [|reflexivity].
      erewrite bind_normal; [|apply upsert_run]. by apply ws_send_ok. }
    fields. repeat split; [constructor | apply Hsame]. }
  destruct (is_literal (m_type msg) "offline" && truthy_prop (m_userId msg)) eqn:H2.
  { destruct (m_userId msg) as [[| | |p| |]|] eqn:Huid;
      try (eexists _, []; split; [eapply try_catch_normal; reflexivity|];
           fields; rewrite app_nil_r; repeat split; constructor).
    eexists _, _. split; [eapply try_catch_normal; reflexivity|].
    fields. repeat split; constructor. }
  assert (Hreply : forall ids (reply : list PresenceSnapshot -> ServerMsg),
            exists w' tr,
              try_catch (let* records := PresenceStore.getMany ids in
                         ws_send c (reply records)) (ws_send c ErrorReply) w
                = (Normal tt, w') /\
              calls w' = calls w ++ tr /\ silent_trace tr /\
              subscriptions w' = subscriptions w /\
              (forall c', c' <> c -> delivered c' (sent w') = delivered c' (sent w))).
  { intros ids reply.
    destruct (getMany_run ids w) as (results & w1 & _ & Hrun & Hstep & _).
    destruct Hstep as (_&_&Hsubs&_&_&Hst&Hsent&Hcalls&_).
    eexists _, []. split.
    { eapply try_catch_normal. erewrite bind_normal; [|exact Hrun].
      apply ws_send_ok. by rewrite Hst. }
    fields. rewrite app_nil_r, Hsent. repeat split; auto. constructor. }
  destruct (is_literal (m_type msg) "query-presence" && is_array (m_userIds msg)).
  { apply (Hreply _ (fun records =>
             PresenceResponse (m_requestId msg) (map toEntry records))). }
  destruct (is_literal (m_type msg) "subscribe-friends" && is_array (m_friendIds msg)).
  { apply (Hreply _ (fun records => FriendsPresenceUpdate (map toEntry records))). }
  eexists _, []. split; [eapply try_catch_normal; reflexivity|].
  rewrite app_nil_r. repeat split; constructor.
Qed.




End Silent.

(** ** Notification after mutation *)

Section Announced.

Import WsSubscriptions.




End Announced.

Section AnnouncedClose.

Import WsSubscriptions.


End AnnouncedClose.






(** ** Malformed and unknown messages *)

Lemma is_literal_false (p : option JSON) (s : string) :
  p <> Some (JStr s) -> is_literal p s = false.
Proof.
  intros H. destruct (is_literal p s) eqn:E; [|done]. by apply is_literal_true in E.
Qed.

Lemma ignored_run (c : Conn) (msg : ClientMsg) (w : World) :
  unknown_type msg \/ missing_required msg ->
  WsSubscriptions.on_message c (Parsed msg) w = (Normal tt, w) /\
  WsServer.on_message c (Parsed msg) w = (Normal tt, w).
Proof.
  unfold WsSubscriptions.on_message, WsSubscriptions.message_body,
         WsServer.on_message, WsServer.message_body, try_catch.
  intros [Hunk | [[Ht Hf] | [[Ht Hf] | [[Ht Hf] | [Ht Hf]]]]].
  - assert (Hk : forall t, t ∈ known_types -> is_literal (m_type msg) t = false).
    { intros t Hin. by apply is_literal_false, Hunk. }
    rewrite (Hk "heartbeat"), (Hk "offline"), (Hk "query-presence"),
      (Hk "subscribe-friends"), (Hk "unsubscribe-friends")
      by (unfold known_types; set_solver).
    done.
  - by rewrite Ht, Hf.
  - by rewrite Ht, Hf.
  - by rewrite Ht, Hf.
  - by rewrite Ht, Hf.
Qed.

(** C4, as the code has it.  A frame that does not parse, or parses to
    [null], is answered with exactly one generic error frame on its own
    connection, provided that send works; with a working send the handler
    completes without a throw on every frame.  A parsed message with an
    unknown type tag is ignored: no frame is sent and the world is left as
    it was.  So is a message with a known tag that lacks its required
    property: it gets no error reply.  This holds for both adapters. *)
Theorem malformed_and_unknown_messages :
  (forall c data w, sendThrows w c = false ->
     data = Unparseable \/ data = ParsedNull ->
     WsSubscriptions.on_message c data w
       = (Normal tt, set_sent (sent w ++ [(c, ErrorReply)]) w) /\
     WsServer.on_message c data w
       = (Normal tt, set_sent (sent w ++ [(c, ErrorReply)]) w)) /\
  (forall c data w, sendThrows w c = false ->
     (exists w', WsSubscriptions.on_message c data w = (Normal tt, w')) /\
     (exists w', WsServer.on_message c data w = (Normal tt, w'))) /\
  (forall c msg w, unknown_type msg ->
     WsSubscriptions.on_message c (Parsed msg) w = (Normal tt, w) /\
     WsServer.on_message c (Parsed msg) w = (Normal tt, w)) /\
  (forall c msg w, missing_required msg ->
     WsSubscriptions.on_message c (Parsed msg) w = (Normal tt, w) /\
     WsServer.on_message c (Parsed msg) w = (Normal tt, w)).
Proof.
  split; [|split; [|split]].
  - intros c data w Hs [-> | ->];
      (split; (eapply try_catch_thrown; [reflexivity | by apply ws_send_ok])).
  - intros c data w Hs. split.
    + destruct (on_message_total c data w Hs) as (w' & _ & Hrun & _). eauto.
    + destruct (basic_on_message_total c data w Hs) as (w' & _ & Hrun & _). eauto.
  - intros c msg w H. apply ignored_run. by left.
  - intros c msg w H. apply ignored_run. by right.
Qed.

Lemma malformed_and_unknown_messages_witness :
  WsSubscriptions.on_message 1%nat Unparseable lobby_world
    = (Normal tt, set_sent [(1%nat, ErrorReply)] lobby_world) /\
  WsSubscriptions.on_message 1%nat (Parsed anonymous_heartbeat) lobby_world
    = (Normal tt, lobby_world).
Proof.
  destruct malformed_and_unknown_messages as (Herr & _ & _ & Hmiss).
  split.
  - apply (Herr 1%nat Unparseable lobby_world); [reflexivity | by left].
  - apply (Hmiss 1%nat anonymous_heartbeat lobby_world). left. split; reflexivity.
Defined.

(** C4, as stated, fails on a heartbeat that lacks its [userId]: no error
    frame is sent, by either adapter. *)
Lemma heartbeat_without_userId_gets_no_reply :
  (exists w',
     WsSubscriptions.on_message 1%nat (Parsed anonymous_heartbeat) lobby_world
       = (Normal tt, w') /\
     delivered 1%nat (sent w') = [] /\ delivered 1%nat (sent w') <> [ErrorReply]) /\
  (exists w',
     WsServer.on_message 1%nat (Parsed anonymous_heartbeat) lobby_world
       = (Normal tt, w') /\
     delivered 1%nat (sent w') = [] /\ delivered 1%nat (sent w') <> [ErrorReply]).
Proof.
  split; (eexists; split; [reflexivity|]; split; [reflexivity | discriminate]).
Qed.

(** ** Snapshots that are returned are online *)

Section Online.

Lemma outcome_online (w : World) (u : string) (s : PresenceSnapshot) :
  (forall n, clock w n = clock w (reads w)) ->
  lookup_outcome w u (Some s) ->
  isOnline s = true /\ 0 < ttlMs s /\ effective s = Stored (status (base s)).
Proof.
  intros Hstill (n & n' & _ & _ & _ & Hlive & Httl & Hon).
  rewrite (Hstill n) in Hlive. rewrite (Hstill n') in Httl.
  assert (Hpos : 0 < ttlMs s) by lia.
  assert (Honline : isOnline s = true) by (rewrite Hon; by apply Z.ltb_lt).
  unfold effective. by rewrite Honline.
Qed.

Lemma getMany_online (ids : list string) (w w' : World) (res : list PresenceSnapshot) :
  (forall n, clock w n = clock w (reads w)) ->
  PresenceStore.getMany ids w = (Normal res, w') ->
  forall s, s ∈ res ->
    isOnline s = true /\ 0 < ttlMs s /\ effective s = Stored (status (base s)).
Proof.
  intros Hstill Hrun s Hs.
  destruct (getMany_run ids w) as (results & w1 & _ & Hrun' & _ & Hall).
  rewrite Hrun in Hrun'. inversion Hrun'; subst.
  destruct (present_elem w _ _ s Hall Hs) as (u & _ & Hout).
  by apply (outcome_online w u).
Qed.

Lemma entries_online (w w' : World) (ids : list string) (res : list PresenceSnapshot)
    (e : UserEntry) :
  (forall n, clock w n = clock w (reads w)) ->
  PresenceStore.getMany ids w = (Normal res, w') ->
  e ∈ map toEntry res -> exists st, u_status e = Stored st.
Proof.
  intros Hstill Hrun He. apply list_elem_of_fmap in He as (s & -> & Hs).
  destruct (getMany_online ids w w' res Hstill Hrun s Hs) as (_ & _ & Heff).
  exists (status (base s)). exact Heff.
Qed.

End Online.

(** Where every time to live is a number, as in the definitions of these
    sections.  With the clock standing still during the call: a snapshot returned
    by [getOne] has [isOnline = true] and [ttlMs > 0]; so has every snapshot
    returned by [getMany], and the status computed for it by the reply
    mapping is its stored status; hence every entry of the reply to a query
    or to a subscription carries a stored status, never the ["offline"] of
    the other branch. *)
Theorem returned_snapshots_are_online :
  (forall u w s w',
     clock w (S (reads w)) = clock w (reads w) ->
     PresenceStore.getOne u w = (Normal (Some s), w') ->
     isOnline s = true /\ 0 < ttlMs s) /\
  (forall ids w res w',
     (forall n, clock w n = clock w (reads w)) ->
     PresenceStore.getMany ids w = (Normal res, w') ->
     forall s, s ∈ res ->
       isOnline s = true /\ 0 < ttlMs s /\ effective s = Stored (status (base s))) /\
  (forall c msg w,
     (forall n, clock w n = clock w (reads w)) ->
     sendThrows w c = false ->
     m_type msg = Some (JStr "query-presence") \/
     m_type msg = Some (JStr "subscribe-friends") ->
     exists w' extra,
       WsSubscriptions.on_message c (Parsed msg) w = (Normal tt, w') /\
       sent w' = sent w ++ extra /\
       forall c' m e, (c', m) ∈ extra -> e ∈ users_of m ->
         exists st, u_status e = Stored st).
Proof.
  split; [|split].
  - intros u w s w' Hstill Hrun.
    destruct (getOne_cases u w) as (res & w1 & Hrun' & Hcase).
    rewrite Hrun in Hrun'. inversion Hrun'; subst. inversion Hcase; subst. cbn.
    rewrite Hstill.
    assert (0 < Z.max 0 (expiresAt r - clock w (reads w))) by lia.
    split; [by apply Z.ltb_lt | done].
  - intros ids w res w' Hstill Hrun. by apply (getMany_online ids w w').
  - intros c msg w Hstill Hs Htype.
    assert (Hquiet : WsSubscriptions.on_message c (Parsed msg) w = (Normal tt, w) ->
              exists w' extra,
                WsSubscriptions.on_message c (Parsed msg) w = (Normal tt, w') /\
                sent w' = sent w ++ extra /\
                forall c' m e, (c', m) ∈ extra -> e ∈ users_of m ->
                  exists st, u_status e = Stored st).
    { intros Hrun. exists w, []. rewrite app_nil_r. repeat split; auto.
      by intros c' m e ?%elem_of_nil. }
    assert (Hone : forall w1 m,
              sent w1 = sent w ->
              (forall e, e ∈ users_of m -> exists st, u_status e = Stored st) ->
              WsSubscriptions.on_message c (Parsed msg) w
                = (Normal tt, set_sent (sent w1 ++ [(c, m)]) w1) ->
              exists w' extra,
                WsSubscriptions.on_message c (Parsed msg) w = (Normal tt, w') /\
                sent w' = sent w ++ extra /\
                forall c' m e, (c', m) ∈ extra -> e ∈ users_of m ->
                  exists st, u_status e = Stored st).
    { intros w1 m Hsent Hall Hrun. eexists _, [(c, m)]. split; [exact Hrun|].
      fields. rewrite Hsent. split; [done|].
      intros c' m' e Hin. apply list_elem_of_singleton in Hin as [= -> ->]. apply Hall. }
    destruct Htype as [Ht|Ht].
    + destruct (m_userIds msg) as [[| | | |items|]|] eqn:Hids;
        try (apply Hquiet, ignored_run; right; unfold missing_required; by auto);
        try (apply Hquiet; unfold WsSubscriptions.on_message,
               WsSubscriptions.message_body, try_catch; by rewrite Ht, Hids).
      destruct (query_run c msg w) as (records & w1 & Hget & Hrun);
        [by rewrite Ht | by rewrite Ht | by rewrite Ht, Hids | exact Hs |].
      destruct (getMany_run (filter_strings (array_items (m_userIds msg))) w)
        as (results & w1' & _ & Hget' & Hstep & _).
      rewrite Hids in Hget'. rewrite Hids in Hget.
      rewrite Hget in Hget'. inversion Hget'; subst.
      destruct Hstep as (_&_&_&_&_&_&Hsent&_).
      eapply Hone; [exact Hsent | | exact Hrun].
      intros e He. by apply (entries_online w w1' _ _ e Hstill Hget).
    + destruct (m_friendIds msg) as [[| | | |items|]|] eqn:Hids;
        try (apply Hquiet, ignored_run; right; unfold missing_required; by auto 6);
        try (apply Hquiet; unfold WsSubscriptions.on_message,
               WsSubscriptions.message_body, try_catch; by rewrite Ht, Hids).
      destruct (subscribe_run c msg w) as (records & w1 & Hget & Hrun);
        [by rewrite Ht | by rewrite Ht | by rewrite Ht | by rewrite Ht, Hids | exact Hs |].
      match type of Hget with PresenceStore.getMany ?ids ?w0 = _ =>
        destruct (getMany_run ids w0) as (results & w1' & _ & Hget' & Hstep & _);
        pose proof (entries_online w0 w1 ids records) as Hentries end.
      rewrite Hget in Hget'. inversion Hget'; subst.
      destruct Hstep as (_&_&_&_&_&_&Hsent&_).
      eapply Hone; [exact Hsent | | exact Hrun].
      intros e He. apply Hentries; [exact Hstill | exact Hget | exact He].
Qed.

Lemma returned_snapshots_are_online_witness :
  (exists s w',
     PresenceStore.getOne "b" fresh_world = (Normal (Some s), w') /\
     isOnline s = true /\ 0 < ttlMs s) /\
  (exists w' extra,
     WsSubscriptions.on_message 5%nat (Parsed query_msg) fresh_world = (Normal tt, w') /\
     sent w' = sent fresh_world ++ extra /\
     forall c' m e, (c', m) ∈ extra -> e ∈ users_of m -> exists st, u_status e = Stored st).
Proof.
  destruct returned_snapshots_are_online as (Hone & _ & Hreply).
  split.
  - eexists _, _. split; [reflexivity|].
    eapply (Hone "b" fresh_world); reflexivity.
  - apply (Hreply 5%nat query_msg fresh_world);
      [intros n; reflexivity | reflexivity | by left].
Defined.

(** ** A time to live that is no number *)

(** On integers the store of [UncheckedTtl] is the store of the first
    sections: a run of [getOne] or of [upsert] there is the same run here. *)
Lemma embed_getOne (u : string) (w w' : World) (res : option PresenceSnapshot) :
  PresenceStore.getOne u w = (Normal res, w') ->
  UncheckedTtl.getOne u (embed w) = (embed_snapshot <$> res, embed w').
Proof.
  intros Hrun. destruct (getOne_cases u w) as (res' & w1 & Hrun' & Hcase).
  rewrite Hrun in Hrun'. injection Hrun' as <- <-.
  unfold UncheckedTtl.getOne. cbn [embed UncheckedTtl.this_store]. rewrite lookup_fmap.
  inversion Hcase as [Hl|r Hl Hexp|r Hl Hlive]; subst; rewrite Hl; cbn.
  - reflexivity.
  - rewrite (proj2 (Z.leb_le _ _) Hexp). unfold embed, UncheckedTtl.set_store. cbn.
    by rewrite fmap_delete.
  - rewrite (proj2 (Z.leb_gt _ _) Hlive). reflexivity.
Qed.

Lemma embed_upsert (u : string) (st : PresenceStatus) (ttl : option Z)
    (md : option Metadata) (w w' : World) (s : PresenceSnapshot) :
  PresenceStore.upsert u st (Some {| o_ttlMs := ttl; o_metadata := md |}) w = (Normal s, w') ->
  UncheckedTtl.upsert u st (UncheckedTtl.Int <$> ttl) md (embed w) =
    (embed_snapshot s, embed w').
Proof.
  rewrite upsert_run. intros [= <- <-].
  unfold UncheckedTtl.upsert, UncheckedTtl.toSnapshot, embed, embed_snapshot, embed_record.
  cbn. rewrite fmap_insert. by destruct ttl.
Qed.

Lemma embed_ttl (t : option Z) :
  UncheckedTtl.ttl_or_default (ttl_field t) = UncheckedTtl.Int (ttl_or_default t).
Proof. destruct t as [z|]; cbn; [by destruct (z =? 0) | done]. Qed.

(** A record whose expiry time is [NaN] is never found expired and is
    always returned, offline. *)
Lemma nan_record_returned (u : string) (r : UncheckedTtl.PresenceRecord)
    (s : UncheckedTtl.State) :
  UncheckedTtl.this_store s !! u = Some r ->
  UncheckedTtl.expiresAt r = UncheckedTtl.NaN ->
  exists snap s',
    UncheckedTtl.getOne u s = (Some snap, s') /\
    UncheckedTtl.getMany [u] s = ([snap], s') /\
    UncheckedTtl.base snap = r /\
    UncheckedTtl.isOnline snap = false /\
    UncheckedTtl.ttlMs snap = UncheckedTtl.NaN /\
    UncheckedTtl.reply_status snap = offline /\
    UncheckedTtl.this_store s' = UncheckedTtl.this_store s /\
    UncheckedTtl.clock s' = UncheckedTtl.clock s.
Proof.
  intros Hl Hnan.
  assert (Hone : UncheckedTtl.getOne u s =
    (Some {| UncheckedTtl.base := r; UncheckedTtl.isOnline := false;
             UncheckedTtl.ttlMs := UncheckedTtl.NaN |},
     {| UncheckedTtl.clock := UncheckedTtl.clock s;
        UncheckedTtl.reads := S (S (UncheckedTtl.reads s));
        UncheckedTtl.this_ttlMs := UncheckedTtl.this_ttlMs s;
        UncheckedTtl.this_store := UncheckedTtl.this_store s |})).
  { unfold UncheckedTtl.getOne. rewrite Hl.
    unfold UncheckedTtl.isExpired, UncheckedTtl.toSnapshot. cbn. rewrite Hnan. reflexivity. }
  eexists _, _. split; [exact Hone|]. split.
  - unfold UncheckedTtl.getMany.
    assert (PresenceStore.distinct [] [u] = [u]) as -> by reflexivity.
    cbn [UncheckedTtl.getEach]. rewrite Hone. reflexivity.
  - done.
Qed.

(** C10, on the code.  The invariant fails for a record written by a
    WebSocket heartbeat whose [ttlMs] is truthy and no number: the record is
    stored with the expiry time [NaN]; from then on, whatever the clock
    shows, [getOne] and [getMany] never find it expired and return it with
    [isOnline = false] and no positive [ttlMs], so the reply mapping takes
    its ["offline"] branch; the record stays in the store. *)
Theorem unchecked_ttl_breaks_online_invariant (u : string) (st : PresenceStatus)
    (md : option Metadata) (s : UncheckedTtl.State) :
  let s1 := (UncheckedTtl.heartbeat u st UncheckedTtl.TtlNotANumber md s).2 in
  (exists r,
     UncheckedTtl.this_store s1 !! u = Some r /\
     UncheckedTtl.expiresAt r = UncheckedTtl.NaN /\
     UncheckedTtl.status r = st /\
     UncheckedTtl.lastSeen r = UncheckedTtl.clock s (UncheckedTtl.reads s)) /\
  forall s2,
    UncheckedTtl.this_store s2 !! u = UncheckedTtl.this_store s1 !! u ->
    exists snap s3,
      UncheckedTtl.getOne u s2 = (Some snap, s3) /\
      UncheckedTtl.getMany [u] s2 = ([snap], s3) /\
      UncheckedTtl.isOnline snap = false /\
      UncheckedTtl.ttlMs snap = UncheckedTtl.NaN /\
      UncheckedTtl.reply_status snap = offline /\
      UncheckedTtl.this_store s3 = UncheckedTtl.this_store s2.
Proof.
  intros s1.
  assert (Hstored : exists r,
     UncheckedTtl.this_store s1 !! u = Some r /\
     UncheckedTtl.expiresAt r = UncheckedTtl.NaN /\
     UncheckedTtl.status r = st /\
     UncheckedTtl.lastSeen r = UncheckedTtl.clock s (UncheckedTtl.reads s)).
  { eexists. split; [|split; [|split]].
    - unfold s1, UncheckedTtl.heartbeat, UncheckedTtl.upsert, UncheckedTtl.toSnapshot.
      cbn. apply lookup_insert_eq.
    - reflexivity.
    - reflexivity.
    - reflexivity. }
  split; [exact Hstored|].
  destruct Hstored as (r & Hl & Hnan & _). intros s2 Hsame. rewrite Hl in Hsame.
  destruct (nan_record_returned u r s2 Hsame Hnan)
    as (snap & s3 & Hone & Hmany & _ & Hoff & Httl & Hreply & Hstore & _).
  by exists snap, s3.
Qed.

(** At time 1000, after the heartbeat
    [{"type":"heartbeat","userId":"p","status":"away","ttlMs":"abc"}] on an
    empty store, [getOne("p")] and [getMany(["p"])] return a snapshot with
    [isOnline = false] at that same time, and the reply mapping gives
    ["offline"] for it. *)
Example unchecked_ttl_example :
  let s1 := (UncheckedTtl.heartbeat "p" away UncheckedTtl.TtlNotANumber None empty_state).2 in
  exists snap s2,
    UncheckedTtl.getOne "p" s1 = (Some snap, s2) /\
    UncheckedTtl.getMany ["p"] s1 = ([snap], s2) /\
    UncheckedTtl.isOnline snap = false /\
    UncheckedTtl.reply_status snap = offline /\
    UncheckedTtl.clock s2 (UncheckedTtl.reads s2) = 1000.
Proof. eexists _, _. repeat split; reflexivity. Qed.


(** * Further properties of the code *)

(** ** The sweep *)

Section Sweep.

Import PresenceSweep.

Lemma cleanup_loop_run (order : list string) :
  forall removed w,
  exists n w',
    cleanup_loop order removed w = (Normal n, w') /\
    store_step w w' /\
    (removed <= n)%nat /\
    (size (this_store w') + (n - removed) = size (this_store w))%nat /\
    (forall k, k ∉ order -> this_store w' !! k = this_store w !! k) /\
    (forall k r, k ∈ order -> this_store w' !! k = Some r ->
       exists m, (reads w <= m)%nat /\ clock w m < expiresAt r) /\
    (forall k r, k ∈ order -> this_store w !! k = Some r -> this_store w' !! k = None ->
       exists m, (reads w <= m)%nat /\ expiresAt r <= clock w m).
Proof.
  induction order as [|x rest IH]; intros removed w.
  - exists removed, w. split; [reflexivity|]. split; [apply store_step_refl|].
    repeat split; try lia; try done; by intros k r ?%elem_of_nil.
  - cbn [cleanup_loop]. unfold bind at 1, gets at 1.
    destruct (this_store w !! x) as [rec|] eqn:Hx.
    + unfold bind at 1, PresenceStore.isExpired at 1, bind at 1, Date_now at 1, ret at 1.
      destruct (Z.leb_spec (expiresAt rec) (clock w (reads w))) as [Hexp|Hlive].
      * unfold bind at 1, modify at 1.
        set (w1 := set_store (delete x (this_store w)) (set_reads (S (reads w)) w)).
        destruct (IH (S removed) w1) as (n & w' & Hrun & Hstep & Hle & Hsize & Hout & Hkept & Hgone).
        assert (Hstep1 : store_step w w1).
        { unfold store_step, w1; cbn. repeat split; auto.
          intros k r Hk. apply lookup_delete_Some in Hk. tauto. }
        exists n, w'. split; [exact Hrun|]. split; [by eapply store_step_trans|].
        split; [lia|]. split.
        { assert (Hw1 : size (this_store w1) = pred (size (this_store w))).
          { unfold w1; cbn. by rewrite map_size_delete, Hx. }
          rewrite Hw1 in Hsize.
          assert (Hpos : size (this_store w) <> 0%nat)
            by (apply (map_size_ne_0_lookup_2 _ x); eauto).
          lia. }
        split; [|split].
        -- intros k Hk. apply not_elem_of_cons in Hk as [Hne Hk].
           rewrite (Hout k Hk). unfold w1; cbn. by apply lookup_delete_ne.
        -- intros k r Hin Hk. apply elem_of_cons in Hin as [->|Hin].
           ++ destruct Hstep as (_&_&_&_&_&_&_&_&_&Hsub).
              apply Hsub in Hk. unfold w1 in Hk; cbn in Hk.
              by rewrite lookup_delete_eq in Hk.
           ++ destruct (Hkept k r Hin Hk) as (m & Hm & Hlive).
              exists m. unfold w1 in Hm, Hlive; cbn in Hm, Hlive. split; [lia | exact Hlive].
        -- intros k r Hin Hk Hnone. destruct (decide (k = x)) as [->|Hne].
           ++ exists (reads w). split; [lia|]. congruence.
           ++ apply elem_of_cons in Hin as [->|Hin]; [done|].
              destruct (Hgone k r Hin) as (m & Hm & Hexp'); [|exact Hnone|].
              { unfold w1; cbn. by rewrite lookup_delete_ne. }
              exists m. unfold w1 in Hm, Hexp'; cbn in Hm, Hexp'. split; [lia | exact Hexp'].
      * set (w1 := set_reads (S (reads w)) w).
        destruct (IH removed w1) as (n & w' & Hrun & Hstep & Hle & Hsize & Hout & Hkept & Hgone).
        assert (Hstep1 : store_step w w1).
        { unfold store_step, w1; cbn. repeat split; auto. }
        exists n, w'. split; [exact Hrun|]. split; [by eapply store_step_trans|].
        split; [lia|]. split; [exact Hsize|]. split; [|split].
        -- intros k Hk. apply not_elem_of_cons in Hk as [Hne Hk]. by rewrite (Hout k Hk).
        -- intros k r Hin Hk. apply elem_of_cons in Hin as [->|Hin].
           ++ destruct Hstep as (_&_&_&_&_&_&_&_&_&Hsub).
              apply Hsub in Hk. unfold w1 in Hk; cbn in Hk.
              exists (reads w). split; [lia|]. congruence.
           ++ destruct (Hkept k r Hin Hk) as (m & Hm & Hlive').
              exists m. unfold w1 in Hm, Hlive'; cbn in Hm, Hlive'. split; [lia | exact Hlive'].
        -- intros k r Hin Hk Hnone. apply elem_of_cons in Hin as [->|Hin].
           ++ destruct (decide (x ∈ rest)) as [Hxin|Hxout].
              ** destruct (Hgone x r Hxin Hk Hnone) as (m & Hm & Hexp').
                 exists m. unfold w1 in Hm, Hexp'; cbn in Hm, Hexp'. split; [lia | exact Hexp'].
              ** rewrite (Hout x Hxout) in Hnone. unfold w1 in Hnone; cbn in Hnone. congruence.
           ++ destruct (Hgone k r Hin Hk Hnone) as (m & Hm & Hexp').
              exists m. unfold w1 in Hm, Hexp'; cbn in Hm, Hexp'. split; [lia | exact Hexp'].
    + destruct (IH removed w) as (n & w' & Hrun & Hstep & Hle & Hsize & Hout & Hkept & Hgone).
      exists n, w'. split; [exact Hrun|]. split; [exact Hstep|].
      split; [lia|]. split; [exact Hsize|]. split; [|split].
      * intros k Hk. apply not_elem_of_cons in Hk as [Hne Hk]. by apply Hout.
      * intros k r Hin Hk. apply elem_of_cons in Hin as [->|Hin]; [|by apply (Hkept k r)].
        destruct Hstep as (_&_&_&_&_&_&_&_&_&Hsub). apply Hsub in Hk. congruence.
      * intros k r Hin Hk Hnone. apply elem_of_cons in Hin as [->|Hin]; [congruence|].
        by apply (Hgone k r).
Qed.

End Sweep.

Section SweepFacts.

Import PresenceSweep.

Lemma sweep_run (order : list string) (w : World) :
  exists n w',
    cleanupExpired order w = (Normal n, w') /\
    store_step w w' /\
    (size (this_store w') + n = size (this_store w))%nat /\
    (forall k r, this_store w !! k = Some r ->
       (forall m, (reads w <= m)%nat -> clock w m < expiresAt r) ->
       this_store w' !! k = Some r) /\
    (forall k r, k ∈ order -> this_store w !! k = Some r ->
       (forall m, (reads w <= m)%nat -> expiresAt r <= clock w m) ->
       this_store w' !! k = None).
Proof.
  destruct (cleanup_loop_run order 0 w)
    as (n & w' & Hrun & Hstep & _ & Hsize & Hout & Hkept & Hgone).
  exists n, w'. split; [exact Hrun|]. split; [exact Hstep|].
  split; [lia|]. split.
  - intros k r Hk Hlive. destruct (decide (k ∈ order)) as [Hin|Hnin].
    + destruct (this_store w' !! k) as [r'|] eqn:Hk'.
      * destruct Hstep as (_&_&_&_&_&_&_&_&_&Hsub). apply Hsub in Hk'. congruence.
      * destruct (Hgone k r Hin Hk Hk') as (m & Hm & Hexp). specialize (Hlive m Hm). lia.
    + by rewrite (Hout k Hnin).
  - intros k r Hin Hk Hexp. destruct (this_store w' !! k) as [r'|] eqn:Hk'; [|done].
    destruct (Hkept k r' Hin Hk') as (m & Hm & Hlive).
    destruct Hstep as (_&_&_&_&_&_&_&_&_&Hsub). apply Hsub in Hk'.
    assert (r' = r) by congruence. subst. specialize (Hexp m Hm). lia.
Qed.

Lemma sweep_still (order : list string) (w : World) :
  enumerates order w ->
  (forall n, clock w n = clock w (reads w)) ->
  exists n w',
    cleanupExpired order w = (Normal n, w') /\
    store_step w w' /\
    (size (this_store w') + n = size (this_store w))%nat /\
    forall k, this_store w' !! k =
      match this_store w !! k with
      | Some r => if bool_decide (clock w (reads w) < expiresAt r) then Some r else None
      | None => None
      end.
Proof.
  intros [_ Hall] Hstill.
  destruct (sweep_run order w) as (n & w' & Hrun & Hstep & Hsize & Hkeep & Hdrop).
  exists n, w'. split; [exact Hrun|]. split; [exact Hstep|]. split; [exact Hsize|].
  intros k. destruct (this_store w !! k) as [r|] eqn:Hk.
  - case_bool_decide as Hlive.
    + apply (Hkeep k r Hk). intros m _. by rewrite Hstill.
    + apply (Hdrop k r); [apply Hall; eauto | exact Hk|].
      intros m _. rewrite Hstill. lia.
  - destruct (this_store w' !! k) as [r'|] eqn:Hk'; [|done].
    destruct Hstep as (_&_&_&_&_&_&_&_&_&Hsub). apply Hsub in Hk'. congruence.
Qed.

End SweepFacts.

(** X1. The sweep returns exactly the number of records it removed: the
    size of the store before is the size after plus the result.  It never
    throws, never adds or alters a record, and touches neither the registry
    nor the frames sent nor any closure: no subscriber hears of a record
    removed by the sweep.  This holds for every visiting order. *)
Theorem sweep_counts_what_it_removes (order : list string) (w : World) :
  exists n w',
    PresenceSweep.cleanupExpired order w = (Normal n, w') /\
    (size (this_store w') + n = size (this_store w))%nat /\
    (forall k r, this_store w' !! k = Some r -> this_store w !! k = Some r) /\
    sent w' = sent w /\ subscriptions w' = subscriptions w /\
    calls w' = calls w /\ userIdVar w' = userIdVar w.
Proof.
  destruct (sweep_run order w) as (n & w' & Hrun & Hstep & Hsize & _).
  destruct Hstep as (_&_&Hsubs&Hvar&_&_&Hsent&Hcalls&_&Hsub).
  exists n, w'. repeat split; auto.
Qed.

(** X2. When the sweep visits every key of the store: a record that is
    still alive at every clock reading from the start of the sweep on is
    kept as it is, and a record that is expired at every such reading is
    removed. *)
Theorem sweep_removes_expired_keeps_live (order : list string) (w : World) :
  enumerates order w ->
  exists n w',
    PresenceSweep.cleanupExpired order w = (Normal n, w') /\
    (forall k r, this_store w !! k = Some r ->
       (forall m, (reads w <= m)%nat -> clock w m < expiresAt r) ->
       this_store w' !! k = Some r) /\
    (forall k r, this_store w !! k = Some r ->
       (forall m, (reads w <= m)%nat -> expiresAt r <= clock w m) ->
       this_store w' !! k = None).
Proof.
  intros [_ Hall].
  destruct (sweep_run order w) as (n & w' & Hrun & _ & _ & Hkeep & Hdrop).
  exists n, w'. split; [exact Hrun|]. split; [exact Hkeep|].
  intros k r Hk. apply Hdrop; [apply Hall; eauto | exact Hk].
Qed.

Lemma sweep_removes_expired_keeps_live_witness :
  exists n w',
    PresenceSweep.cleanupExpired ["b"; "a"] mixed_world = (Normal n, w') /\
    this_store w' !! "b" = Some fresh_record /\
    this_store w' !! "a" = None.
Proof.
  assert (Henum : enumerates ["b"; "a"] mixed_world).
  { split; [apply (bool_decide_unpack _); vm_compute; exact I|].
    intros k. unfold mixed_world. cbn.
    rewrite !elem_of_cons, elem_of_nil.
    destruct (decide (k = "a")) as [->|Ha]; [split; [eauto | intros _; by right; left]|].
    destruct (decide (k = "b")) as [->|Hb]; [split; [eauto | intros _; by left]|].
    rewrite lookup_insert_ne, lookup_singleton_ne by done.
    split; [intros [?|[?|[]]]; done | by intros [? [=]]]. }
  destruct (sweep_removes_expired_keeps_live ["b"; "a"] mixed_world Henum)
    as (n & w' & Hrun & Hkeep & Hdrop).
  exists n, w'. split; [exact Hrun|]. split.
  - apply (Hkeep "b" fresh_record); [reflexivity | intros m _; reflexivity].
  - apply (Hdrop "a" stale_record); [reflexivity | intros m _; vm_compute; discriminate].
Defined.

(** X3. With the clock standing still, a sweep that visits every key leaves
    exactly the records that are not expired; a second sweep, in any order,
    then removes nothing and returns 0; and [getOne] gives, for every user,
    the same answer after the sweep as it would have given before it: the
    sweep and the eviction on read agree. *)
Theorem sweep_at_one_instant (order : list string) (w : World) :
  enumerates order w ->
  (forall n, clock w n = clock w (reads w)) ->
  exists n w',
    PresenceSweep.cleanupExpired order w = (Normal n, w') /\
    (forall k r, this_store w' !! k = Some r <->
       this_store w !! k = Some r /\ clock w (reads w) < expiresAt r) /\
    (forall order', exists w'',
       PresenceSweep.cleanupExpired order' w' = (Normal 0%nat, w'') /\
       this_store w'' = this_store w') /\
    (forall u, (PresenceStore.getOne u w').1 = (PresenceStore.getOne u w).1).
Proof.
  intros Henum Hstill.
  destruct (sweep_still order w Henum Hstill) as (n & w' & Hrun & Hstep & _ & Hlook).
  assert (Hclock : clock w' = clock w) by apply Hstep.
  assert (Hiff : forall k r, this_store w' !! k = Some r <->
            this_store w !! k = Some r /\ clock w (reads w) < expiresAt r).
  { intros k r. rewrite Hlook. destruct (this_store w !! k) as [r0|]; [|naive_solver].
    case_bool_decide; naive_solver. }
  exists n, w'. split; [exact Hrun|]. split; [exact Hiff|]. split.
  - intros order'.
    destruct (sweep_run order' w') as (n' & w'' & Hrun' & Hstep' & Hsize' & Hkeep' & _).
    assert (Heq : this_store w'' = this_store w').
    { apply map_eq. intros k. destruct (this_store w' !! k) as [r|] eqn:Hk.
      - apply (Hkeep' k r Hk). intros m _. rewrite Hclock, Hstill. by apply Hiff in Hk as [_ ?].
      - destruct (this_store w'' !! k) as [r|] eqn:Hk'; [|done].
        destruct Hstep' as (_&_&_&_&_&_&_&_&_&Hsub). apply Hsub in Hk'. congruence. }
    assert (n' = 0%nat) as -> by (rewrite Heq in Hsize'; lia).
    by exists w''.
  - intros u. destruct (this_store w !! u) as [r|] eqn:Hu.
    + destruct (Z.le_gt_cases (expiresAt r) (clock w (reads w))) as [Hexp|Hlive].
      * rewrite (getOne_expired u w r Hu Hexp). rewrite getOne_absent; [done|].
        rewrite Hlook, Hu. rewrite bool_decide_eq_false_2; [done | lia].
      * assert (Hu' : this_store w' !! u = Some r) by (apply Hiff; done).
        rewrite (getOne_live u w r Hu Hlive).
        rewrite (getOne_live u w' r Hu'); [|by rewrite Hclock, Hstill].
        cbn [fst]. by rewrite Hclock, (Hstill (S (reads w'))), (Hstill (S (reads w))).
    + rewrite (getOne_absent u w Hu). rewrite getOne_absent; [done|]. by rewrite Hlook, Hu.
Qed.

Lemma sweep_at_one_instant_witness :
  exists n w',
    PresenceSweep.cleanupExpired ["a"; "b"] mixed_world = (Normal n, w') /\
    this_store w' !! "a" = None /\
    (PresenceStore.getOne "b" w').1 = (PresenceStore.getOne "b" mixed_world).1.
Proof.
  assert (Henum : enumerates ["a"; "b"] mixed_world).
  { split; [apply (bool_decide_unpack _); vm_compute; exact I|].
    intros k. unfold mixed_world. cbn.
    rewrite !elem_of_cons, elem_of_nil.
    destruct (decide (k = "a")) as [->|Ha]; [split; [eauto | intros _; by left]|].
    destruct (decide (k = "b")) as [->|Hb]; [split; [eauto | intros _; by right; left]|].
    rewrite lookup_insert_ne, lookup_singleton_ne by done.
    split; [intros [?|[?|[]]]; done | by intros [? [=]]]. }
  destruct (sweep_at_one_instant ["a"; "b"] mixed_world Henum)
    as (n & w' & Hrun & Hiff & _ & Hsame); [intros m; reflexivity|].
  exists n, w'. split; [exact Hrun|]. split; [|apply Hsame].
  destruct (this_store w' !! "a") as [r|] eqn:Ha; [|done].
  apply Hiff in Ha as [Ha Hlive]. inversion Ha; subst. vm_compute in Hlive. discriminate.
Defined.

(** X4. The life of a heartbeat.  Right after [upsert u s], a [getOne u]
    whose expiry test reads the clock before [expiresAt] returns the
    snapshot of the new record, with status [s], online exactly when its
    second clock reading is still before [expiresAt]; a [getOne u] whose
    expiry test reads [expiresAt] or later returns absent, removes the
    record, and the size of the store drops by one. *)
Theorem heartbeat_lifetime (u : string) (s : PresenceStatus) (ov : option Overrides)
    (w : World) :
  let now := clock w (reads w) in
  let expires := now + Z.max 1000 (default (this_ttlMs w) (ov ≫= o_ttlMs)) in
  let t1 := clock w (S (S (reads w))) in
  let t2 := clock w (S (S (S (reads w)))) in
  exists snap w',
    PresenceStore.upsert u s ov w = (Normal snap, w') /\
    (t1 < expires ->
       exists snap' w'',
         PresenceStore.getOne u w' = (Normal (Some snap'), w'') /\
         userId (base snap') = u /\ status (base snap') = s /\
         lastSeen (base snap') = now /\ expiresAt (base snap') = expires /\
         ttlMs snap' = Z.max 0 (expires - t2) /\
         isOnline snap' = bool_decide (t2 < expires) /\
         this_store w'' = this_store w') /\
    (expires <= t1 ->
       exists w'',
         PresenceStore.getOne u w' = (Normal None, w'') /\
         this_store w'' !! u = None /\
         S (size (this_store w'')) = size (this_store w')).
Proof.
  intros now expires t1 t2.
  eexists _, _. split; [apply upsert_run|].
  set (w' := set_reads _ _).
  set (r := {| userId := u; status := s; lastSeen := now; expiresAt := expires;
               metadata := ov ≫= o_metadata |}).
  assert (Hl : this_store w' !! u = Some r) by apply lookup_insert_eq.
  split.
  - intros Hlive. eexists _, _. split; [apply (getOne_live u w' r Hl Hlive)|].
    cbn. repeat split. fold t2 expires.
    destruct (Z.ltb_spec 0 (Z.max 0 (expires - t2))); case_bool_decide; try done; lia.
  - intros Hexp. eexists. split; [apply (getOne_expired u w' r Hl Hexp)|].
    cbn [this_store set_store set_reads]. split; [apply lookup_delete_eq|].
    rewrite map_size_delete. fold (this_store w'). rewrite Hl.
    assert (size (this_store w') <> 0%nat) by (apply (map_size_ne_0_lookup_2 _ u); eauto).
    lia.
Qed.

Lemma heartbeat_lifetime_witness :
  exists snap w' snap' w'',
    PresenceStore.upsert "a" busy (Some {| o_ttlMs := Some 2000; o_metadata := None |})
      (quiet_world 1000 60000) = (Normal snap, w') /\
    PresenceStore.getOne "a" w' = (Normal (Some snap'), w'') /\
    status (base snap') = busy /\ ttlMs snap' = 2000 /\ isOnline snap' = true.
Proof.
  destruct (heartbeat_lifetime "a" busy (Some {| o_ttlMs := Some 2000; o_metadata := None |})
              (quiet_world 1000 60000)) as (snap & w' & Hrun & Hlive & _).
  destruct Hlive as (snap' & w'' & Hget & _ & Hst & _ & _ & Httl & Hon & _);
    [vm_compute; reflexivity|].
  exists snap, w', snap', w''. repeat split; assumption.
Defined.

(** X5. What [size] reports: a first heartbeat of a user raises it by one, a
    further heartbeat of the same user leaves it as it is, and [markOffline]
    lowers it by one when the user has a record and leaves it otherwise. *)
Theorem size_counts_tracked_users (u : string) (s : PresenceStatus)
    (ov : option Overrides) (w : World) :
  (exists snap w',
     PresenceStore.upsert u s ov w = (Normal snap, w') /\
     (PresenceStore.size w').1 =
       Normal match this_store w !! u with
              | Some _ => size (this_store w)
              | None => S (size (this_store w))
              end) /\
  (exists w',
     PresenceStore.markOffline u w = (Normal tt, w') /\
     (PresenceStore.size w').1 =
       Normal match this_store w !! u with
              | Some _ => pred (size (this_store w))
              | None => size (this_store w)
              end).
Proof.
  split.
  - eexists _, _. split; [apply upsert_run|]. cbn. rewrite map_size_insert.
    by destruct (this_store w !! u).
  - eexists. split; [apply markOffline_run|]. cbn. rewrite map_size_delete.
    by destruct (this_store w !! u).
Qed.

(** ** Subscribing, unsubscribing and querying *)

Section Subscribing.

Import WsSubscriptions.

Lemma filter_strings_elem (items : list JSON) (p : string) :
  p ∈ filter_strings items <-> JStr p ∈ items.
Proof.
  induction items as [|v items IH]; cbn.
  - by rewrite !elem_of_nil.
  - destruct v; rewrite ?elem_of_cons, IH; naive_solver.
Qed.

Lemma registry_get_update (c c' : Conn) (ids : gset string)
    (subs : list (Conn * Subscription)) :
  registry_get c' (registry_update c ids subs) =
    if bool_decide (c' = c)
    then (fun sub => {| ws := ws sub; friendIds := ids |}) <$> registry_get c subs
    else registry_get c' subs.
Proof.
  induction subs as [|[c0 s0] subs IH]; cbn.
  - by case_bool_decide.
  - destruct (decide (c0 = c)) as [->|Hne].
    + rewrite (bool_decide_eq_true_2 (c = c)) by done. cbn.
      destruct (decide (c' = c)) as [->|Hne'].
      * by rewrite !bool_decide_eq_true_2.
      * rewrite (bool_decide_eq_false_2 (c' = c)) by done.
        by rewrite (bool_decide_eq_false_2 (c = c')) by done.
    + rewrite (bool_decide_eq_false_2 (c0 = c)) by done. cbn. rewrite IH.
      destruct (decide (c0 = c')) as [->|Hne'].
      * rewrite (bool_decide_eq_true_2 (c' = c')) by done.
        by rewrite (bool_decide_eq_false_2 (c' = c)) by done.
      * by rewrite (bool_decide_eq_false_2 (c0 = c')) by done.
Qed.

Lemma registry_get_snoc (c c' : Conn) (s : Subscription)
    (subs : list (Conn * Subscription)) :
  registry_get c' (subs ++ [(c, s)]) =
    match registry_get c' subs with
    | Some x => Some x
    | None => if bool_decide (c = c') then Some s else None
    end.
Proof.
  induction subs as [|[c0 s0] subs IH]; cbn; [done|].
  destruct (bool_decide (c0 = c')); [done | exact IH].
Qed.

(** The subscribe branch, with everything it leaves as it was. *)
Lemma subscribe_effects (c : Conn) (msg : ClientMsg) (items : list JSON) (w : World) :
  m_type msg = Some (JStr "subscribe-friends") ->
  m_friendIds msg = Some (JArr items) ->
  sendThrows w c = false ->
  exists records w',
    on_message c (Parsed msg) w = (Normal tt, w') /\
    subscriptions w' =
      match registry_get c (subscriptions w) with
      | Some _ => registry_update c (list_to_set (filter_strings items)) (subscriptions w)
      | None => subscriptions w ++
                  [(c, {| ws := c; friendIds := list_to_set (filter_strings items) |})]
      end /\
    sent w' = sent w ++ [(c, FriendsPresenceUpdate (map toEntry records))] /\
    (forall s, s ∈ records ->
       exists k, k ∈ filter_strings items /\ this_store w !! k = Some (base s)) /\
    userIdVar w' = userIdVar w /\ calls w' = calls w /\
    readyState w' = readyState w /\ sendThrows w' = sendThrows w /\
    clock w' = clock w /\ (reads w <= reads w')%nat /\
    (forall k r, this_store w' !! k = Some r -> this_store w !! k = Some r).
Proof.
  intros Ht Hids Hs.
  destruct (subscribe_run c msg w) as (records & w1 & Hget & Hrun);
    [by rewrite Ht | by rewrite Ht | by rewrite Ht | by rewrite Ht, Hids | exact Hs |].
  rewrite Hids in Hget. cbn [array_items] in Hget.
  match type of Hget with PresenceStore.getMany ?ids ?w0 = _ =>
    destruct (getMany_run ids w0) as (results & w1' & _ & Hget' & Hstep & Hall) end.
  rewrite Hget in Hget'. inversion Hget'; subst.
  destruct Hstep as (Hc&_&Hsubs&Hvar&Hrs&Hst&Hsent&Hcalls&Hreads&Hsub).
  eexists _, _. split; [exact Hrun|]. fields.
  rewrite Hsubs, Hsent, Hvar, Hcalls, Hrs, Hst, Hc. fields.
  split; [by destruct (registry_get c (subscriptions w))|].
  split; [done|]. split.
  { intros s Hs'. destruct (present_elem _ _ _ s Hall Hs') as (k & Hk & Hout).
    exists k. split; [by apply distinct_elem in Hk as [? _]|].
    by destruct Hout as (n & n' & _ & _ & Hl & _). }
  repeat split; auto.
Qed.

End Subscribing.

(** X6. A subscribe-friends message with an array [friendIds], on a
    connection whose send works, replaces what the connection watched: its
    registry entry afterwards holds exactly the strings of the array,
    whatever it held before; the entries of the other connections are
    untouched and the registry stays a map.  The connection receives one
    frame, a friends-presence-update; nothing else is sent, no closure and
    no call trace changes. *)
Theorem subscribe_replaces_watched_set (c : Conn) (msg : ClientMsg)
    (items : list JSON) (w : World) :
  m_type msg = Some (JStr "subscribe-friends") ->
  m_friendIds msg = Some (JArr items) ->
  sendThrows w c = false ->
  registry_wf (subscriptions w) ->
  exists users w' sub,
    WsSubscriptions.on_message c (Parsed msg) w = (Normal tt, w') /\
    WsSubscriptions.registry_get c (subscriptions w') = Some sub /\
    (forall p, p ∈ friendIds sub <-> JStr p ∈ items) /\
    (forall c', c' <> c ->
       WsSubscriptions.registry_get c' (subscriptions w') =
       WsSubscriptions.registry_get c' (subscriptions w)) /\
    registry_wf (subscriptions w') /\
    sent w' = sent w ++ [(c, FriendsPresenceUpdate users)] /\
    userIdVar w' = userIdVar w /\ calls w' = calls w.
Proof.
  intros Ht Hids Hs Hwf.
  destruct (subscribe_effects c msg items w Ht Hids Hs)
    as (records & w' & Hrun & Hsubs & Hsent & _ & Hvar & Hcalls & _).
  assert (Hmem : forall p, p ∈ (list_to_set (filter_strings items) : gset string) <->
                           JStr p ∈ items).
  { intros p. rewrite elem_of_list_to_set. apply filter_strings_elem. }
  destruct (WsSubscriptions.registry_get c (subscriptions w)) as [old|] eqn:Hreg.
  - exists (map toEntry records), w', {| ws := ws old; friendIds := list_to_set (filter_strings items) |}.
    split; [exact Hrun|]. rewrite Hsubs.
    split; [by rewrite registry_get_update, bool_decide_eq_true_2, Hreg|].
    split; [exact Hmem|]. split.
    { intros c' Hne. by rewrite registry_get_update, bool_decide_eq_false_2. }
    split; [unfold registry_wf; by rewrite registry_update_keys|]. done.
  - exists (map toEntry records), w', {| ws := c; friendIds := list_to_set (filter_strings items) |}.
    split; [exact Hrun|]. rewrite Hsubs.
    split; [by rewrite registry_get_snoc, Hreg, bool_decide_eq_true_2|].
    split; [exact Hmem|]. split.
    { intros c' Hne. rewrite registry_get_snoc.
      destruct (WsSubscriptions.registry_get c' (subscriptions w)); [done|].
      by rewrite bool_decide_eq_false_2. }
    split; [|done].
    unfold registry_wf. rewrite fmap_app. cbn.
    apply NoDup_app. split; [exact Hwf|]. split; [|apply NoDup_singleton].
    intros c' Hin ->%list_elem_of_singleton. by apply registry_get_None in Hreg.
Qed.

Lemma subscribe_replaces_watched_set_witness :
  exists users w' sub,
    WsSubscriptions.on_message 1%nat (Parsed (subscribe_msg [JStr "q"; JNum 5])) lobby_world
      = (Normal tt, w') /\
    WsSubscriptions.registry_get 1%nat (subscriptions w') = Some sub /\
    "q" ∈ friendIds sub /\ ("p" ∉ friendIds sub) /\
    sent w' = sent lobby_world ++ [(1%nat, FriendsPresenceUpdate users)].
Proof.
  assert (Hwf : registry_wf (subscriptions lobby_world)).
  { unfold registry_wf. cbn. apply (bool_decide_unpack _). vm_compute. exact I. }
  destruct (subscribe_replaces_watched_set 1%nat (subscribe_msg [JStr "q"; JNum 5])
              [JStr "q"; JNum 5] lobby_world)
    as (users & w' & sub & Hrun & Hreg & Hmem & _ & _ & Hsent & _);
    [reflexivity | reflexivity | reflexivity | exact Hwf |].
  exists users, w', sub. split; [exact Hrun|]. split; [exact Hreg|].
  split; [apply Hmem; set_solver|]. split; [|exact Hsent].
  intros Hp. apply Hmem in Hp. rewrite !elem_of_cons, elem_of_nil in Hp.
  destruct Hp as [[=]|[[=]|[]]].
Defined.

(** ** Subscribing and then hearing of a heartbeat *)

Section SubscribeThenHeartbeat.

Import WsSubscriptions.


(** What a heartbeat delivers to a connection, given the registry entry of
    that connection. *)
Lemma heartbeat_delivery (c0 c : Conn) (msg : ClientMsg) (p : string) (w : World) :
  m_type msg = Some (JStr "heartbeat") ->
  m_userId msg = Some (JStr p) ->
  p <> "" ->
  registry_wf (subscriptions w) ->
  sendThrows w c0 = false ->
  clock w (S (reads w)) < clock w (reads w) + 1000 ->
  exists w' extra,
    on_message c0 (Parsed msg) w = (Normal tt, w') /\
    sent w' = sent w ++ extra /\
    delivered c extra =
      (if bool_decide (c0 = c) then [HeartbeatAck p] else []) ++
      match registry_get c (subscriptions w) with
      | Some sub =>
          if bool_decide (p ∈ friendIds sub) && bool_decide (readyState w c = OPEN)
             && negb (sendThrows w c)
          then [update_frame p (Stored (default online (m_status msg))) (clock w (reads w))]
          else []
      | None => []
      end.
Proof.
  intros Htype Huid Hp Hwf Hs Hclock.
  destruct (heartbeat_run c0 msg p w Htype Huid Hp Hs)
    as (w' & Hrun & _ & _ & Hsent & _).
  assert (Hon : (0 <? Z.max 0 (clock w (reads w) + Z.max 1000 (ttl_or_default (m_ttlMs msg))
                               - clock w (S (reads w)))) = true).
  { apply Z.ltb_lt. lia. }
  rewrite Hon in Hsent. cbn [status] in Hsent.
  eexists w', _. split; [exact Hrun|]. split; [exact Hsent|].
  rewrite delivered_cons. f_equal.
  destruct (registry_get c (subscriptions w)) as [sub|] eqn:Hreg.
  - apply (registry_get_Some _ _ _ Hwf) in Hreg as Hin.
    destruct (bool_decide (p ∈ friendIds sub) && bool_decide (readyState w c = OPEN)) eqn:Ht.
    + destruct (sendThrows w c) eqn:Hsc; cbn [andb negb].
      * apply pushes_none. intros sub' _. rewrite Hsc. apply andb_false_r.
      * by eapply pushes_one.
    + cbn [andb]. apply pushes_none. intros sub' Hin'.
      apply (registry_get_Some _ _ _ Hwf) in Hin'.
      assert (sub' = sub) as -> by congruence.
      unfold targeted. cbn [fst snd]. by rewrite Ht.
  - apply pushes_none. intros sub Hin.
    apply registry_get_None in Hreg. exfalso. apply Hreg.
    by apply (list_elem_of_fmap_2 fst) in Hin.
Qed.

End SubscribeThenHeartbeat.



(** ** Unsubscribing, querying, going offline *)

Section MoreBranches.

Import WsSubscriptions.

Lemma unsubscribe_run (c : Conn) (msg : ClientMsg) (w : World) :
  m_type msg = Some (JStr "unsubscribe-friends") ->
  on_message c (Parsed msg) w =
    (Normal tt, set_subscriptions (registry_delete c (subscriptions w)) w).
Proof.
  intros Ht. unfold on_message, message_body, try_catch. by rewrite Ht.
Qed.

Lemma getMany_effects (ids : list string) (w : World) :
  exists records w',
    PresenceStore.getMany ids w = (Normal records, w') /\
    store_step w w' /\
    (forall k, k ∉ ids -> this_store w' !! k = this_store w !! k) /\
    (forall s, s ∈ records -> exists k, k ∈ ids /\ this_store w !! k = Some (base s)) /\
    (length records <= length ids)%nat.
Proof.
  destruct (mapM_getOne_run (PresenceStore.distinct [] ids) (distinct_NoDup ids []) w)
    as (results & w' & Hrun & Hstep & Hout & Hall).
  exists (PresenceStore.present results), w'. split.
  { unfold PresenceStore.getMany, bind. rewrite Hrun. reflexivity. }
  split; [exact Hstep|]. split; [|split].
  - intros k Hk. apply Hout. rewrite distinct_elem. tauto.
  - intros s Hs. destruct (present_elem w _ _ s Hall Hs) as (k & Hk & Hout').
    exists k. split; [by apply distinct_elem in Hk as [? _]|].
    by destruct Hout' as (n & n' & _ & _ & Hl & _).
  - etransitivity; [apply present_length|].
    rewrite <- (Forall2_length _ _ _ Hall). apply distinct_length.
Qed.

Lemma offline_effects (c : Conn) (msg : ClientMsg) (u : string) (w : World) :
  m_type msg = Some (JStr "offline") ->
  m_userId msg = Some (JStr u) ->
  u <> "" ->
  exists seen w',
    on_message c (Parsed msg) w = (Normal tt, w') /\
    (forall r, this_store w !! u = Some r -> clock w (reads w) < expiresAt r ->
       lastSeen r <> 0 -> seen = lastSeen r) /\
    this_store w' = delete u (this_store w) /\
    userIdVar w' = (fun c' => if bool_decide (c' = c) then Some (JStr u) else userIdVar w c') /\
    sent w' = sent w ++ pushes (readyState w) (sendThrows w) u
                          (update_frame u offline seen) (subscriptions w) /\
    subscriptions w' =
      pruned (readyState w) (sendThrows w) u (subscriptions w) (subscriptions w) /\
    calls w' = calls w ++ [CallMarkOffline (JStr u); CallNotify (JStr u) offline seen].
Proof.
  intros Ht Huid Hu.
  destruct (go_offline_run u
              (set_userIdVar (fun c' => if bool_decide (c' = c) then Some (JStr u)
                                        else userIdVar w c') w))
    as (seen & w' & Hrun & Hseen & Hstore & Hvar & Hsent & Hsubs & Hcalls & _).
  exists seen, w'. split; [|by repeat split].
  unfold on_message. eapply try_catch_normal. unfold message_body.
  rewrite Ht, Huid, (truthy_string u Hu).
  cbn [is_literal String.eqb Ascii.eqb Bool.eqb andb].
  erewrite bind_normal; [|reflexivity]. exact Hrun.
Qed.

End MoreBranches.

(** X8. Unsubscribing and then a heartbeat.  An unsubscribe-friends message
    removes the registry entry of its connection [c] and nothing else, sends
    no frame, and completes even when the send of [c] throws.  A heartbeat
    for a non-empty user id that then arrives on a connection [c0] whose send
    works gives [c] no update, whoever it is for: [c] receives the
    acknowledgement if it sent the heartbeat itself, and nothing otherwise. *)
Theorem unsubscribe_then_heartbeat (c c0 : Conn) (un_msg hb_msg : ClientMsg)
    (p : string) (w : World) :
  m_type un_msg = Some (JStr "unsubscribe-friends") ->
  m_type hb_msg = Some (JStr "heartbeat") ->
  m_userId hb_msg = Some (JStr p) ->
  p <> "" ->
  registry_wf (subscriptions w) ->
  sendThrows w c0 = false ->
  clock w (S (reads w)) < clock w (reads w) + 1000 ->
  exists w1 w2 extra,
    WsSubscriptions.on_message c (Parsed un_msg) w = (Normal tt, w1) /\
    WsSubscriptions.registry_get c (subscriptions w1) = None /\
    (forall c', c' <> c ->
       WsSubscriptions.registry_get c' (subscriptions w1) =
       WsSubscriptions.registry_get c' (subscriptions w)) /\
    sent w1 = sent w /\ this_store w1 = this_store w /\
    WsSubscriptions.on_message c0 (Parsed hb_msg) w1 = (Normal tt, w2) /\
    sent w2 = sent w1 ++ extra /\
    delivered c extra = if bool_decide (c0 = c) then [HeartbeatAck p] else [].
Proof.
  intros Htu Hth Huid Hp Hwf Hs Hclock.
  set (w1 := set_subscriptions (WsSubscriptions.registry_delete c (subscriptions w)) w).
  assert (Hreg : WsSubscriptions.registry_get c (subscriptions w1) = None).
  { unfold w1; cbn. rewrite registry_get_delete. by rewrite bool_decide_eq_true_2. }
  destruct (heartbeat_delivery c0 c hb_msg p w1 Hth Huid Hp)
    as (w2 & extra & Hrun2 & Hsent & Hdel); [by apply registry_delete_wf | exact Hs | exact Hclock|].
  exists w1, w2, extra. split; [by apply unsubscribe_run|]. split; [exact Hreg|].
  split.
  { intros c' Hne. unfold w1; cbn. rewrite registry_get_delete.
    by rewrite bool_decide_eq_false_2. }
  split; [done|]. split; [done|]. split; [exact Hrun2|]. split; [exact Hsent|].
  rewrite Hdel, Hreg. apply app_nil_r.
Qed.

Lemma unsubscribe_then_heartbeat_witness :
  exists w1 w2 extra,
    WsSubscriptions.on_message 1%nat (Parsed unsubscribe_msg) lobby_world = (Normal tt, w1) /\
    WsSubscriptions.on_message 0%nat (Parsed (heartbeat_msg "p" away)) w1 = (Normal tt, w2) /\
    sent w2 = sent w1 ++ extra /\
    delivered 1%nat extra = [].
Proof.
  assert (Hwf : registry_wf (subscriptions lobby_world)).
  { unfold registry_wf. cbn. apply (bool_decide_unpack _). vm_compute. exact I. }
  destruct (unsubscribe_then_heartbeat 1%nat 0%nat unsubscribe_msg (heartbeat_msg "p" away)
              "p" lobby_world)
    as (w1 & w2 & extra & Hrun1 & _ & _ & _ & _ & Hrun2 & Hsent & Hdel);
    [reflexivity | reflexivity | reflexivity | discriminate | exact Hwf | reflexivity
    | reflexivity |].
  exists w1, w2, extra. repeat split; assumption.
Defined.

(** X9. A query-presence message with an array [userIds], on a connection
    whose send works, has no side effect beyond eviction: it sends exactly
    one frame, to the asking connection, a presence-response that echoes
    [requestId]; the registry, the closures and the call trace are left as
    they were; the store loses at most records of the users asked for and
    gains or alters none.  Every entry of the reply is the stored record of
    one of the strings of [userIds], and there are no more entries than
    elements of [userIds]. *)
Theorem query_only_reads (c : Conn) (msg : ClientMsg) (items : list JSON) (w : World) :
  m_type msg = Some (JStr "query-presence") ->
  m_userIds msg = Some (JArr items) ->
  sendThrows w c = false ->
  exists records w',
    WsSubscriptions.on_message c (Parsed msg) w = (Normal tt, w') /\
    sent w' = sent w ++ [(c, PresenceResponse (m_requestId msg) (map toEntry records))] /\
    subscriptions w' = subscriptions w /\ userIdVar w' = userIdVar w /\
    calls w' = calls w /\
    (forall k r, this_store w' !! k = Some r -> this_store w !! k = Some r) /\
    (forall k, JStr k ∉ items -> this_store w' !! k = this_store w !! k) /\
    (forall s, s ∈ records ->
       exists k, JStr k ∈ items /\ this_store w !! k = Some (base s)) /\
    (length records <= length items)%nat.
Proof.
  intros Ht Hids Hs.
  destruct (query_run c msg w) as (records & w1 & Hget & Hrun);
    [by rewrite Ht | by rewrite Ht | by rewrite Ht, Hids | exact Hs |].
  rewrite Hids in Hget. cbn [array_items] in Hget.
  destruct (getMany_effects (filter_strings items) w)
    as (records' & w1' & Hget' & Hstep & Hout & Hfrom & Hlen).
  rewrite Hget in Hget'. inversion Hget'; subst.
  destruct Hstep as (_&_&Hsubs&Hvar&_&_&Hsent&Hcalls&_&Hsub).
  eexists records', _. split; [exact Hrun|]. fields. rewrite Hsent.
  repeat split; auto.
  - intros k Hk. apply Hout. by rewrite filter_strings_elem.
  - intros s Hin. destruct (Hfrom s Hin) as (k & Hk & Hl).
    exists k. split; [by apply filter_strings_elem | exact Hl].
  - etransitivity; [exact Hlen|]. clear. induction items as [|[] items IH]; cbn; lia.
Qed.

Lemma query_only_reads_witness :
  exists records w',
    WsSubscriptions.on_message 5%nat (Parsed query_msg) mixed_world = (Normal tt, w') /\
    sent w' = [(5%nat, PresenceResponse (Some (JNum 1)) (map toEntry records))] /\
    subscriptions w' = subscriptions mixed_world /\
    (length records <= 3)%nat.
Proof.
  destruct (query_only_reads 5%nat query_msg [JStr "b"; JStr "a"; JNum 7] mixed_world)
    as (records & w' & Hrun & Hsent & Hsubs & _ & _ & _ & _ & _ & Hlen);
    [reflexivity | reflexivity | reflexivity |].
  exists records, w'. repeat split; assumption.
Defined.

(** X10. An offline message for a non-empty user id [u] on connection [c]
    completes whatever the sends do and sends no reply to [c] as such.  It
    removes the record of [u], binds the closure of [c] to [u], and builds
    one update saying [u] is ["offline"], with the last-seen value of the
    record when that was alive and not zero: every registered connection
    that watches [u], is open and whose send works receives it exactly
    once, a connection that does not watch [u] receives nothing. *)
Theorem offline_message_effects (c : Conn) (msg : ClientMsg) (u : string) (w : World) :
  m_type msg = Some (JStr "offline") ->
  m_userId msg = Some (JStr u) ->
  u <> "" ->
  registry_wf (subscriptions w) ->
  exists seen w' extra,
    WsSubscriptions.on_message c (Parsed msg) w = (Normal tt, w') /\
    this_store w' = delete u (this_store w) /\
    userIdVar w' c = Some (JStr u) /\
    (forall c', c' <> c -> userIdVar w' c' = userIdVar w c') /\
    sent w' = sent w ++ extra /\
    (forall r, this_store w !! u = Some r -> clock w (reads w) < expiresAt r ->
       lastSeen r <> 0 -> seen = lastSeen r) /\
    (forall c' sub, (c', sub) ∈ subscriptions w ->
       u ∈ friendIds sub -> readyState w c' = OPEN -> sendThrows w c' = false ->
       delivered c' extra = [update_frame u offline seen]) /\
    (forall c', (forall sub, (c', sub) ∈ subscriptions w -> u ∉ friendIds sub) ->
       delivered c' extra = []).
Proof.
  intros Ht Huid Hu Hwf.
  destruct (offline_effects c msg u w Ht Huid Hu)
    as (seen & w' & Hrun & Hseen & Hstore & Hvar & Hsent & _).
  eexists seen, w', _. split; [exact Hrun|]. split; [exact Hstore|].
  rewrite Hvar. split; [by rewrite bool_decide_eq_true_2|].
  split; [intros c' Hne; by rewrite bool_decide_eq_false_2|].
  split; [exact Hsent|]. split; [exact Hseen|]. split.
  - intros c' sub Hin Hw Ho Hs. eapply pushes_one; eauto. by apply targeted_spec.
  - intros c' Hno. apply pushes_none. intros sub Hin.
    rewrite targeted_false; [done|]. intros [Hw _]. by apply (Hno sub).
Qed.

Lemma offline_message_effects_witness :
  exists w' extra,
    WsSubscriptions.on_message 0%nat (Parsed (offline_msg "p")) closing_world
      = (Normal tt, w') /\
    this_store w' !! "p" = None /\
    sent w' = sent closing_world ++ extra /\
    delivered 1%nat extra = [update_frame "p" offline 900].
Proof.
  assert (Hwf : registry_wf (subscriptions closing_world)).
  { unfold registry_wf. cbn. apply (bool_decide_unpack _). vm_compute. exact I. }
  destruct (offline_message_effects 0%nat (offline_msg "p") "p" closing_world)
    as (seen & w' & extra & Hrun & Hstore & _ & _ & Hsent & Hseen & Hsub & _);
    [reflexivity | reflexivity | discriminate | exact Hwf |].
  assert (seen = 900) as ->.
  { apply (Hseen {| userId := "p"; status := away; lastSeen := 900;
                    expiresAt := 5000; metadata := None |});
      [reflexivity | reflexivity | discriminate]. }
  exists w', extra. split; [exact Hrun|].
  split; [rewrite Hstore; apply lookup_delete_eq|]. split; [exact Hsent|].
  apply (Hsub 1%nat {| ws := 1%nat; friendIds := {[ "p" ]} |});
    [set_solver | set_solver | reflexivity | reflexivity].
Defined.

(** X11. The last identity wins.  A connection whose send works heartbeats
    as [a], then as [b] (two different non-empty user ids), then closes.
    The close takes only [b] offline: the record of [b] is removed, while
    the record that the first heartbeat stored for [a] is still in the store
    afterwards, unchanged, and no [markOffline] is made for [a]. *)
Theorem last_identity_wins (c : Conn) (msg_a msg_b : ClientMsg) (a b : string) (w : World) :
  m_type msg_a = Some (JStr "heartbeat") -> m_userId msg_a = Some (JStr a) ->
  m_type msg_b = Some (JStr "heartbeat") -> m_userId msg_b = Some (JStr b) ->
  a <> "" -> b <> "" -> a <> b ->
  sendThrows w c = false ->
  exists w1 w2 w3 ra seen,
    WsSubscriptions.on_message c (Parsed msg_a) w = (Normal tt, w1) /\
    WsSubscriptions.on_message c (Parsed msg_b) w1 = (Normal tt, w2) /\
    WsSubscriptions.on_close c w2 = (Normal tt, w3) /\
    this_store w1 !! a = Some ra /\
    userId ra = a /\ status ra = default online (m_status msg_a) /\
    this_store w3 !! a = Some ra /\
    this_store w3 !! b = None /\
    calls w3 = calls w2 ++ [CallMarkOffline (JStr b); CallNotify (JStr b) offline seen].
Proof.
  intros Hta Hua Htb Hub Ha Hb Hab Hs.
  destruct (heartbeat_run c msg_a a w Hta Hua Ha Hs)
    as (w1 & Hrun1 & Hstore1 & _ & _ & _ & _ & _ & _ & Hst1).
  destruct (heartbeat_run c msg_b b w1 Htb Hub Hb)
    as (w2 & Hrun2 & Hstore2 & Hvar2 & _); [by rewrite Hst1|].
  destruct (close_run_string c b w2)
    as (seen & w3 & Hrun3 & _ & Hstore3 & _ & _ & Hcalls3);
    [rewrite Hvar2; by rewrite bool_decide_eq_true_2|].
  eexists w1, w2, w3, _, seen. split; [exact Hrun1|]. split; [exact Hrun2|].
  split; [exact Hrun3|].
  split; [rewrite Hstore1; apply lookup_insert_eq|].
  split; [reflexivity|]. split; [reflexivity|].
  rewrite Hstore3, Hstore2, Hstore1.
  split; [|split; [apply lookup_delete_eq | exact Hcalls3]].
  rewrite lookup_delete_ne, lookup_insert_ne by done. apply lookup_insert_eq.
Qed.

Lemma last_identity_wins_witness :
  exists w3 ra,
    this_store w3 !! "p" = Some ra /\ status ra = away /\
    this_store w3 !! "q" = None /\
    exists w1 w2,
      WsSubscriptions.on_message 4%nat (Parsed (heartbeat_msg "p" away)) lobby_world
        = (Normal tt, w1) /\
      WsSubscriptions.on_message 4%nat (Parsed (heartbeat_msg "q" busy)) w1 = (Normal tt, w2) /\
      WsSubscriptions.on_close 4%nat w2 = (Normal tt, w3).
Proof.
  destruct (last_identity_wins 4%nat (heartbeat_msg "p" away) (heartbeat_msg "q" busy)
              "p" "q" lobby_world)
    as (w1 & w2 & w3 & ra & seen & H1 & H2 & H3 & _ & _ & Hst & Ha & Hb & _);
    try reflexivity; try discriminate.
  exists w3, ra. split; [exact Ha|]. split; [exact Hst|]. split; [exact Hb|].
  exists w1, w2. repeat split; assumption.
Defined.

(** X12. When [send] throws on the receiving connection the handler does
    not contain the failure: the error reply of the [catch] block throws in
    turn and the exception leaves the handler.  This happens for a frame
    that does not parse and for a heartbeat; the heartbeat has by then bound
    the closure and stored the record, but no frame is sent and no
    subscriber is notified.  A subscribe-friends message has by then
    registered the connection. *)
Theorem throwing_send_escapes (c : Conn) (w : World) :
  sendThrows w c = true ->
  WsSubscriptions.on_message c Unparseable w = (Thrown SendError, w) /\
  WsSubscriptions.on_message c ParsedNull w = (Thrown SendError, w) /\
  (forall msg p,
     m_type msg = Some (JStr "heartbeat") -> m_userId msg = Some (JStr p) -> p <> "" ->
     exists w',
       WsSubscriptions.on_message c (Parsed msg) w = (Thrown SendError, w') /\
       is_Some (this_store w' !! p) /\
       userIdVar w' c = Some (JStr p) /\
       sent w' = sent w /\ subscriptions w' = subscriptions w /\
       calls w' = calls w ++ [CallUpsert (JStr p)]) /\
  (forall msg items,
     m_type msg = Some (JStr "subscribe-friends") -> m_friendIds msg = Some (JArr items) ->
     exists w',
       WsSubscriptions.on_message c (Parsed msg) w = (Thrown SendError, w') /\
       is_Some (WsSubscriptions.registry_get c (subscriptions w')) /\
       sent w' = sent w).
Proof.
  intros Hs. split; [|split; [|split]].
  - unfold WsSubscriptions.on_message.
    eapply try_catch_thrown; [reflexivity | by apply ws_send_throws].
  - unfold WsSubscriptions.on_message.
    eapply try_catch_thrown; [reflexivity | by apply ws_send_throws].
  - intros msg p Ht Huid Hp. eexists. split.
    { unfold WsSubscriptions.on_message. eapply try_catch_thrown.
      - unfold WsSubscriptions.message_body. rewrite Ht, Huid, (truthy_string p Hp).
        cbn [is_literal String.eqb Ascii.eqb Bool.eqb andb].
        erewrite bind_normal; [|reflexivity].
        erewrite bind_normal; [|apply upsert_run].
        eapply bind_thrown. by apply ws_send_throws.
      - by apply ws_send_throws. }
    fields. split; [eexists; apply lookup_insert_eq|].
    split; [by rewrite bool_decide_eq_true_2|]. done.
  - intros msg items Ht Hids.
    set (w0 := set_subscriptions
                 match WsSubscriptions.registry_get c (subscriptions w) with
                 | Some _ => WsSubscriptions.registry_update c
                               (list_to_set (filter_strings items)) (subscriptions w)
                 | None => subscriptions w ++
                     [(c, {| ws := c; friendIds := list_to_set (filter_strings items) |})]
                 end w).
    assert (Hmod :
      match WsSubscriptions.registry_get c (subscriptions w) with
      | Some _ =>
          modify (fun w => set_subscriptions
            (WsSubscriptions.registry_update c (list_to_set (filter_strings items))
               (subscriptions w)) w)
      | None =>
          modify (fun w => set_subscriptions
            (subscriptions w ++
               [(c, {| ws := c; friendIds := list_to_set (filter_strings items) |})]) w)
      end w = (Normal tt, w0)).
    { unfold w0. destruct (WsSubscriptions.registry_get c (subscriptions w)); reflexivity. }
    destruct (getMany_effects (filter_strings items) w0)
      as (records & w1 & Hget & Hstep & _).
    destruct Hstep as (_&_&Hsubs&_&_&Hst&Hsent&_).
    exists w1. split.
    { unfold WsSubscriptions.on_message. eapply try_catch_thrown.
      - unfold WsSubscriptions.message_body. rewrite Ht, Hids.
        cbn [is_literal String.eqb Ascii.eqb Bool.eqb andb is_array array_items].
        erewrite bind_normal; [|reflexivity].
        erewrite bind_normal; [|exact Hmod].
        erewrite bind_normal; [|exact Hget].
        apply ws_send_throws. by rewrite Hst.
      - apply ws_send_throws. by rewrite Hst. }
    rewrite Hsubs, Hsent. unfold w0. fields. split; [|done].
    destruct (WsSubscriptions.registry_get c (subscriptions w)) as [old|] eqn:Hreg.
    + rewrite registry_get_update, bool_decide_eq_true_2, Hreg by done. by eexists.
    + rewrite registry_get_snoc, Hreg, bool_decide_eq_true_2 by done. by eexists.
Qed.

Lemma throwing_send_escapes_witness :
  WsSubscriptions.on_message 1%nat Unparseable lossy_world = (Thrown SendError, lossy_world) /\
  exists w',
    WsSubscriptions.on_message 1%nat (Parsed (heartbeat_msg "p" away)) lossy_world
      = (Thrown SendError, w') /\
    is_Some (this_store w' !! "p") /\ sent w' = [].
Proof.
  destruct (throwing_send_escapes 1%nat lossy_world) as (Hbad & _ & Hhb & _); [reflexivity|].
  split; [exact Hbad|].
  destruct (Hhb (heartbeat_msg "p" away) "p") as (w' & Hrun & Hst & _ & Hsent & _);
    [reflexivity | reflexivity | discriminate |].
  exists w'. repeat split; assumption.
Defined.

(** X13. The two handlers of the adapter keep what the broadcast relies on:
    if the registry has at most one entry per connection it still has
    afterwards, and if every record of the store is kept under its own user
    id it still is afterwards.  This holds for the close handler always and
    for the message handler on every frame when the send of the receiving
    connection works. *)
Theorem adapter_keeps_invariants (c : Conn) (w : World) :
  (forall data, sendThrows w c = false ->
     exists w',
       WsSubscriptions.on_message c data w = (Normal tt, w') /\
       (registry_wf (subscriptions w) -> registry_wf (subscriptions w')) /\
       (store_keyed (this_store w) -> store_keyed (this_store w'))) /\
  (exists w',
     WsSubscriptions.on_close c w = (Normal tt, w') /\
     (registry_wf (subscriptions w) -> registry_wf (subscriptions w')) /\
     (store_keyed (this_store w) -> store_keyed (this_store w'))).
Proof.
  split.
  - intros data Hs. by apply on_message_keeps_invariants.
  - apply on_close_keeps_invariants.
Qed.

Lemma adapter_keeps_invariants_witness :
  exists w',
    WsSubscriptions.on_message 1%nat (Parsed (subscribe_msg [JStr "q"])) lobby_world
      = (Normal tt, w') /\
    registry_wf (subscriptions w') /\ store_keyed (this_store w').
Proof.
  destruct (adapter_keeps_invariants 1%nat lobby_world) as (Hmsg & _).
  destruct (Hmsg (Parsed (subscribe_msg [JStr "q"]))) as (w' & Hrun & Hreg & Hkey);
    [reflexivity|].
  exists w'. split; [exact Hrun|]. split.
  - apply Hreg. unfold registry_wf. cbn. apply (bool_decide_unpack _). vm_compute. exact I.
  - apply Hkey. apply store_keyed_empty.
Defined.

(** ** The invite store *)

Lemma map_get_elem (key : string) (m : InviteStore.Invites) (r : InviteStore.InviteRecord) :
  InviteStore.map_get key m = Some r -> (key, r) ∈ m.
Proof.
  induction m as [|[k v] rest IH]; cbn; [done|].
  case_bool_decide as Hk.
  - intros [= ->]. subst k. apply elem_of_cons. by left.
  - intros H. apply elem_of_cons. right. by apply IH.
Qed.

Lemma map_get_None (key : string) (m : InviteStore.Invites) :
  InviteStore.map_get key m = None <-> key ∉ m.*1.
Proof.
  induction m as [|[k v] rest IH]; cbn.
  - split; [intros _; apply not_elem_of_nil | done].
  - case_bool_decide as Hk.
    + split; [done|]. intros H. exfalso. apply H. subst k. apply elem_of_cons. by left.
    + rewrite IH. rewrite not_elem_of_cons. naive_solver.
Qed.

Lemma map_get_unique (key : string) (m : InviteStore.Invites) (r : InviteStore.InviteRecord) :
  NoDup (m.*1) -> (key, r) ∈ m -> InviteStore.map_get key m = Some r.
Proof.
  induction m as [|[k v] rest IH]; cbn; intros Hnd Hin.
  - by apply elem_of_nil in Hin.
  - apply NoDup_cons in Hnd as [Hk Hnd].
    apply elem_of_cons in Hin as [[= <- <-]|Hin].
    + by rewrite bool_decide_eq_true_2.
    + case_bool_decide as Hkk.
      * subst k. exfalso. apply Hk.
        change key with (key, r).1. by apply list_elem_of_fmap_2.
      * by apply IH.
Qed.

(** [set] either adds the entry at the end or replaces the value of the one
    entry that has the key. *)
Lemma map_set_shape (key : string) (value : InviteStore.InviteRecord) (m : InviteStore.Invites) :
  (InviteStore.map_get key m = None /\
   InviteStore.map_set key value m = m ++ [(key, value)]) \/
  (exists l1 v l2, m = l1 ++ (key, v) :: l2 /\
     InviteStore.map_get key m = Some v /\
     InviteStore.map_set key value m = l1 ++ (key, value) :: l2).
Proof.
  induction m as [|[k v] rest IH]; cbn.
  - by left.
  - case_bool_decide as Hk.
    + subst k. right. by exists [], v, rest.
    + destruct IH as [[Hn Hs]|(l1 & v' & l2 & Hm & Hg & Hs)].
      * left. by rewrite Hs.
      * right. exists ((k, v) :: l1), v', l2. by rewrite Hm at 1; rewrite Hs.
Qed.

Lemma map_get_set (key : string) (value : InviteStore.InviteRecord) (m : InviteStore.Invites) :
  InviteStore.map_get key (InviteStore.map_set key value m) = Some value.
Proof.
  induction m as [|[k v] rest IH]; cbn.
  - by rewrite bool_decide_eq_true_2.
  - case_bool_decide as Hk; cbn.
    + by rewrite bool_decide_eq_true_2.
    + by rewrite bool_decide_eq_false_2.
Qed.

Lemma map_get_set_other (key k' : string) (value : InviteStore.InviteRecord) (m : InviteStore.Invites) :
  k' <> key ->
  InviteStore.map_get k' (InviteStore.map_set key value m) = InviteStore.map_get k' m.
Proof.
  intros Hne. induction m as [|[k v] rest IH]; cbn.
  - by rewrite bool_decide_eq_false_2.
  - case_bool_decide as Hk; cbn.
    + subst k. by rewrite !bool_decide_eq_false_2.
    + case_bool_decide; [done | exact IH].
Qed.

Lemma map_set_keys (key : string) (value : InviteStore.InviteRecord) (m : InviteStore.Invites) :
  is_Some (InviteStore.map_get key m) ->
  (InviteStore.map_set key value m).*1 = m.*1.
Proof.
  induction m as [|[k v] rest IH]; cbn.
  - by intros [? ?].
  - case_bool_decide as Hk; cbn; [by subst|].
    intros H. by rewrite IH.
Qed.

Lemma map_set_keys_new (key : string) (value : InviteStore.InviteRecord) (m : InviteStore.Invites) :
  InviteStore.map_get key m = None ->
  (InviteStore.map_set key value m).*1 = m.*1 ++ [key].
Proof.
  induction m as [|[k v] rest IH]; cbn; [done|].
  case_bool_decide as Hk; cbn; [done|].
  intros H. by rewrite IH.
Qed.

Lemma map_set_elem (key k : string) (value r : InviteStore.InviteRecord) (m : InviteStore.Invites) :
  (k, r) ∈ InviteStore.map_set key value m ->
  (k, r) = (key, value) \/ (k, r) ∈ m.
Proof.
  induction m as [|[k0 v] rest IH]; cbn.
  - intros H. apply list_elem_of_singleton in H. by left.
  - case_bool_decide as Hk.
    + subst k0. intros H. apply elem_of_cons in H as [H|H]; [by left|].
      right. apply elem_of_cons. by right.
    + intros H. apply elem_of_cons in H as [H|H].
      * right. apply elem_of_cons. by left.
      * destruct (IH H) as [?|?]; [by left|]. right. apply elem_of_cons. by right.
Qed.

Lemma map_set_keeps_keyed (key : string) (value : InviteStore.InviteRecord) (m : InviteStore.Invites) :
  InviteStore.id value = key -> invites_keyed m ->
  invites_keyed (InviteStore.map_set key value m).
Proof.
  intros Hid [Hnd Hids]. split.
  - destruct (InviteStore.map_get key m) as [v|] eqn:Hg.
    + by rewrite map_set_keys; [|rewrite Hg].
    + rewrite map_set_keys_new by done. apply NoDup_app. split; [done|]. split.
      * intros x Hx Hx'. apply list_elem_of_singleton in Hx'. subst x.
        by apply map_get_None in Hg.
      * apply NoDup_singleton.
  - intros k r Hin. apply map_set_elem in Hin as [[= -> ->]|Hin]; [done|].
    by apply Hids.
Qed.

Lemma map_remove_sublist (key : string) (m : InviteStore.Invites) :
  InviteStore.map_remove key m `sublist_of` m.
Proof.
  induction m as [|[k v] rest IH]; cbn; [done|].
  case_bool_decide; [by apply sublist_cons | by apply sublist_skip].
Qed.

Lemma map_get_remove (key : string) (m : InviteStore.Invites) :
  InviteStore.map_get key (InviteStore.map_remove key m) = None.
Proof.
  induction m as [|[k v] rest IH]; cbn; [done|].
  case_bool_decide as Hk; [done|]. cbn. by rewrite bool_decide_eq_false_2.
Qed.

Lemma map_get_remove_other (key k' : string) (m : InviteStore.Invites) :
  k' <> key ->
  InviteStore.map_get k' (InviteStore.map_remove key m) = InviteStore.map_get k' m.
Proof.
  intros Hne. induction m as [|[k v] rest IH]; cbn; [done|].
  case_bool_decide as Hk; cbn.
  - subst k. by rewrite bool_decide_eq_false_2.
  - case_bool_decide; [done | exact IH].
Qed.

Lemma pending_pairs_app (l1 l2 : list InviteStore.InviteRecord) :
  pending_pairs (l1 ++ l2) = pending_pairs l1 ++ pending_pairs l2.
Proof. unfold pending_pairs. by rewrite filter_app, fmap_app. Qed.

Lemma pending_pairs_cons (r : InviteStore.InviteRecord) (l : list InviteStore.InviteRecord) :
  pending_pairs (r :: l) =
  (if bool_decide (InviteStore.status r = InviteStore.pending)
   then [(InviteStore.fromUserId r, InviteStore.toUserId r)] else []) ++ pending_pairs l.
Proof.
  unfold pending_pairs. rewrite filter_cons.
  case_bool_decide as H; destruct (decide _); done.
Qed.

Lemma pending_pairs_sublist (l1 l2 : list InviteStore.InviteRecord) :
  l1 `sublist_of` l2 -> pending_pairs l1 `sublist_of` pending_pairs l2.
Proof.
  intros H. unfold pending_pairs. apply fmap_sublist.
  induction H as [|x l1 l2 H IH|x l1 l2 H IH]; [done| |].
  - rewrite !filter_cons. destruct (decide _); [by apply sublist_skip | done].
  - rewrite filter_cons. destruct (decide _); [by apply sublist_cons | done].
Qed.

Lemma pending_pairs_elem (f t : string) (l : list InviteStore.InviteRecord) :
  (f, t) ∈ pending_pairs l <->
  exists r, r ∈ l /\ InviteStore.status r = InviteStore.pending /\
            InviteStore.fromUserId r = f /\ InviteStore.toUserId r = t.
Proof.
  unfold pending_pairs. rewrite list_elem_of_fmap. split.
  - intros (r & [= -> ->] & Hr). apply list_elem_of_filter in Hr as [Hp Hr]. by exists r.
  - intros (r & Hr & Hp & <- & <-). exists r. split; [done|].
    by apply list_elem_of_filter.
Qed.

(** What [find] of [createInvite] tells. *)
Lemma find_blocks_Some (payload : InviteStore.Payload) (l : list InviteStore.InviteRecord)
    (r : InviteStore.InviteRecord) :
  List.find (InviteStore.blocks payload) l = Some r ->
  r ∈ l /\ InviteStore.status r = InviteStore.pending /\
  InviteStore.fromUserId r = InviteStore.p_fromUserId payload /\
  InviteStore.toUserId r = InviteStore.p_toUserId payload.
Proof.
  intros H. apply find_some in H as [Hin Hb]. apply list_elem_of_In in Hin.
  unfold InviteStore.blocks in Hb.
  apply andb_prop in Hb as [Hb H3]. apply andb_prop in Hb as [H1 H2].
  apply bool_decide_eq_true_1 in H1, H2, H3. done.
Qed.

Lemma find_blocks_None (payload : InviteStore.Payload) (l : list InviteStore.InviteRecord) :
  List.find (InviteStore.blocks payload) l = None <->
  (InviteStore.p_fromUserId payload, InviteStore.p_toUserId payload) ∉ pending_pairs l.
Proof.
  rewrite pending_pairs_elem. split.
  - intros H (r & Hr & Hp & Hf & Ht).
    apply list_elem_of_In in Hr. pose proof (find_none _ _ H r Hr) as Hb.
    unfold InviteStore.blocks in Hb.
    by rewrite !bool_decide_eq_true_2 in Hb.
  - intros H. destruct (List.find _ l) as [r|] eqn:Hf; [|done].
    apply find_blocks_Some in Hf as (? & ? & ? & ?). exfalso. apply H. by exists r.
Qed.

(** Replacing or adding a record keeps the pending pairs distinct when the
    new record is not pending, or is pending for a pair that has no pending
    invite. *)
Lemma map_set_keeps_pairs (key : string) (value : InviteStore.InviteRecord) (m : InviteStore.Invites) :
  one_pending_per_pair m ->
  (InviteStore.status value = InviteStore.pending ->
   (InviteStore.fromUserId value, InviteStore.toUserId value) ∉
     pending_pairs (InviteStore.values m)) ->
  one_pending_per_pair (InviteStore.map_set key value m).
Proof.
  unfold one_pending_per_pair, InviteStore.values. intros Hnd Hnew.
  destruct (map_set_shape key value m) as [[_ ->]|(l1 & v & l2 & Hm & _ & ->)].
  - rewrite fmap_app, pending_pairs_app. cbn [fmap list_fmap snd]. rewrite pending_pairs_cons.
    change (pending_pairs []) with (@nil (string * string)). rewrite app_nil_r.
    case_bool_decide as Hp; [|by rewrite app_nil_r].
    apply NoDup_app. split; [done|]. split.
    + intros x Hx Hx'. apply list_elem_of_singleton in Hx'. subst x. by apply Hnew.
    + apply NoDup_singleton.
  - subst m. rewrite fmap_app in *. cbn [fmap list_fmap snd] in *.
    rewrite pending_pairs_app, pending_pairs_cons in *.
    set (old := if bool_decide (InviteStore.status v = InviteStore.pending)
                then [(InviteStore.fromUserId v, InviteStore.toUserId v)] else []) in *.
    assert (Hfresh : forall x,
      x ∈ (if bool_decide (InviteStore.status value = InviteStore.pending)
           then [(InviteStore.fromUserId value, InviteStore.toUserId value)] else []) ->
      (x ∉ pending_pairs l1.*2) /\ (x ∉ pending_pairs l2.*2)).
    { intros x Hx. destruct (bool_decide_reflect (InviteStore.status value = InviteStore.pending)) as [Hp|Hp];
        [|by apply elem_of_nil in Hx].
      apply list_elem_of_singleton in Hx. subst x. specialize (Hnew Hp).
      rewrite !elem_of_app in Hnew. naive_solver. }
    assert (Hone : NoDup
      (if bool_decide (InviteStore.status value = InviteStore.pending)
       then [(InviteStore.fromUserId value, InviteStore.toUserId value)] else [])).
    { destruct (bool_decide (InviteStore.status value = InviteStore.pending));
        [apply NoDup_singleton | apply NoDup_nil_2]. }
    apply NoDup_app in Hnd as (Hn1 & Hdisj & Hn2).
    apply NoDup_app in Hn2 as (_ & _ & Hn2).
    apply NoDup_app. split; [done|]. split.
    + intros x Hx Hx'. apply elem_of_app in Hx' as [Hx'|Hx'].
      * by apply Hfresh in Hx' as [? ?].
      * apply (Hdisj x Hx). apply elem_of_app. by right.
    + apply NoDup_app. split; [done|]. split; [|done].
      intros x Hx. by apply Hfresh in Hx as [? ?].
Qed.

Lemma pending_pair_unique (l : list InviteStore.InviteRecord) (r r' : InviteStore.InviteRecord) :
  NoDup (pending_pairs l) -> r ∈ l -> r' ∈ l ->
  InviteStore.status r = InviteStore.pending ->
  InviteStore.status r' = InviteStore.pending ->
  InviteStore.fromUserId r = InviteStore.fromUserId r' ->
  InviteStore.toUserId r = InviteStore.toUserId r' ->
  r = r'.
Proof.
  induction l as [|x l IH]; intros Hnd Hr Hr' Hp Hp' Hf Ht.
  - by apply elem_of_nil in Hr.
  - rewrite pending_pairs_cons in Hnd.
    apply elem_of_cons in Hr as [->|Hr]; apply elem_of_cons in Hr' as [->|Hr']; [done| | |].
    + rewrite bool_decide_eq_true_2 in Hnd by done. cbn in Hnd.
      apply NoDup_cons in Hnd as [Hx _]. exfalso. apply Hx.
      apply pending_pairs_elem. by exists r'.
    + rewrite bool_decide_eq_true_2 in Hnd by done. cbn in Hnd.
      apply NoDup_cons in Hnd as [Hx _]. exfalso. apply Hx.
      apply pending_pairs_elem. by exists r.
    + apply NoDup_app in Hnd as (_ & _ & Hnd). by apply IH.
Qed.

Lemma values_elem (m : InviteStore.Invites) (r : InviteStore.InviteRecord) :
  r ∈ InviteStore.values m <-> exists k, (k, r) ∈ m.
Proof.
  unfold InviteStore.values. rewrite list_elem_of_fmap. split.
  - intros ([k r'] & -> & H). by exists k.
  - intros [k H]. by exists (k, r).
Qed.

Lemma createInvite_existing (uuid : string) (now : Z) (payload : InviteStore.Payload)
    (m : InviteStore.Invites) (r : InviteStore.InviteRecord) :
  one_pending_per_pair m -> r ∈ InviteStore.values m ->
  InviteStore.status r = InviteStore.pending ->
  InviteStore.fromUserId r = InviteStore.p_fromUserId payload ->
  InviteStore.toUserId r = InviteStore.p_toUserId payload ->
  InviteStore.createInvite uuid now payload m = (r, m).
Proof.
  intros Hone Hr Hp Hf Ht. unfold InviteStore.createInvite.
  destruct (List.find _ _) as [r'|] eqn:Hfind.
  - apply find_blocks_Some in Hfind as (Hr' & Hp' & Hf' & Ht').
    f_equal. apply (pending_pair_unique (InviteStore.values m)); try done; congruence.
  - apply find_blocks_None in Hfind. exfalso. apply Hfind.
    apply pending_pairs_elem. by exists r.
Qed.

Lemma createInvite_fresh (uuid : string) (now : Z) (payload : InviteStore.Payload)
    (m : InviteStore.Invites) :
  (InviteStore.p_fromUserId payload, InviteStore.p_toUserId payload) ∉
    pending_pairs (InviteStore.values m) ->
  exists r,
    InviteStore.createInvite uuid now payload m = (r, InviteStore.map_set uuid r m) /\
    InviteStore.id r = uuid /\ InviteStore.createdAt r = now /\
    InviteStore.status r = InviteStore.pending /\
    InviteStore.fromUserId r = InviteStore.p_fromUserId payload /\
    InviteStore.fromDisplayName r = InviteStore.p_fromDisplayName payload /\
    InviteStore.toUserId r = InviteStore.p_toUserId payload /\
    InviteStore.toDisplayName r = InviteStore.p_toDisplayName payload.
Proof.
  intros Hno. apply find_blocks_None in Hno. unfold InviteStore.createInvite.
  rewrite Hno. eexists. split; [reflexivity|]. done.
Qed.

Lemma createInvite_cases (uuid : string) (now : Z) (payload : InviteStore.Payload)
    (m : InviteStore.Invites) :
  let r := (InviteStore.createInvite uuid now payload m).1 in
  let m' := (InviteStore.createInvite uuid now payload m).2 in
  InviteStore.status r = InviteStore.pending /\
  InviteStore.fromUserId r = InviteStore.p_fromUserId payload /\
  InviteStore.toUserId r = InviteStore.p_toUserId payload /\
  ((r ∈ InviteStore.values m /\ m' = m) \/
   (((InviteStore.p_fromUserId payload, InviteStore.p_toUserId payload) ∉
       pending_pairs (InviteStore.values m)) /\
    InviteStore.id r = uuid /\ m' = InviteStore.map_set uuid r m)).
Proof.
  unfold InviteStore.createInvite.
  destruct (List.find _ _) as [r'|] eqn:Hfind; cbn.
  - apply find_blocks_Some in Hfind as (Hr' & Hp' & Hf' & Ht'). naive_solver.
  - apply find_blocks_None in Hfind. naive_solver.
Qed.

Lemma updateStatus_found (inviteId : string) (st : InviteStore.InviteStatus)
    (m : InviteStore.Invites) (r : InviteStore.InviteRecord) :
  InviteStore.getById inviteId m = Some r ->
  exists r', InviteStore.updateStatus inviteId st m =
               (Some r', InviteStore.map_set inviteId r' m) /\
             InviteStore.status r' = st /\ same_invite r' r.
Proof.
  unfold InviteStore.getById, InviteStore.updateStatus. intros ->.
  eexists. split; [reflexivity|]. by repeat split.
Qed.

Lemma map_remove_absent (key : string) (m : InviteStore.Invites) :
  InviteStore.map_get key m = None -> InviteStore.map_remove key m = m.
Proof.
  induction m as [|[k v] rest IH]; cbn; [done|].
  case_bool_decide as Hk; [done|]. intros Hget. by rewrite IH.
Qed.

Lemma map_remove_keeps_keyed (key : string) (m : InviteStore.Invites) :
  invites_keyed m -> invites_keyed (InviteStore.map_remove key m).
Proof.
  intros [Hnd Hids]. pose proof (map_remove_sublist key m) as Hsub. split.
  - eapply sublist_NoDup; [exact Hnd | by apply fmap_sublist].
  - intros k r Hin. apply Hids. eapply elem_of_sublist; [exact Hin | exact Hsub].
Qed.

Lemma map_remove_keeps_pairs (key : string) (m : InviteStore.Invites) :
  one_pending_per_pair m -> one_pending_per_pair (InviteStore.map_remove key m).
Proof.
  unfold one_pending_per_pair, InviteStore.values. intros Hnd.
  eapply sublist_NoDup; [exact Hnd|].
  apply pending_pairs_sublist. apply fmap_sublist. apply map_remove_sublist.
Qed.

(** X14. Inviting the same user again while the first invite is pending
    makes nothing new: [createInvite] returns the pending record as it is
    kept, with the names and the time of the first invite, whatever the new
    payload says, and the store is unchanged. *)
Theorem createInvite_reuses_pending (uuid : string) (now : Z) (payload : InviteStore.Payload)
    (m : InviteStore.Invites) (r : InviteStore.InviteRecord) :
  one_pending_per_pair m ->
  r ∈ InviteStore.values m ->
  InviteStore.status r = InviteStore.pending ->
  InviteStore.fromUserId r = InviteStore.p_fromUserId payload ->
  InviteStore.toUserId r = InviteStore.p_toUserId payload ->
  InviteStore.createInvite uuid now payload m = (r, m).
Proof.
  intros Hone Hr Hp Hf Ht. unfold InviteStore.createInvite.
  destruct (List.find _ _) as [r'|] eqn:Hfind.
  - apply find_blocks_Some in Hfind as (Hr' & Hp' & Hf' & Ht').
    f_equal. apply (pending_pair_unique (InviteStore.values m)); try done; congruence.
  - apply find_blocks_None in Hfind. exfalso. apply Hfind.
    apply pending_pairs_elem. by exists r.
Qed.

Lemma createInvite_reuses_pending_witness :
  InviteStore.createInvite "i3" 300 ann_again sample_invites = (ann_to_bob, sample_invites).
Proof.
  apply (createInvite_reuses_pending "i3" 300 ann_again sample_invites ann_to_bob).
  - apply (bool_decide_unpack _). vm_compute. exact I.
  - apply elem_of_cons. left. reflexivity.
  - reflexivity.
  - reflexivity.
  - reflexivity.
Defined.

(** X15. The record [createInvite] returns can be fetched by its id from
    the store afterwards, be it new or reused; it is pending and goes from
    the payload's sender to its receiver; and the entries under all other
    ids are as before. *)
Theorem createInvite_then_getById (uuid : string) (now : Z) (payload : InviteStore.Payload)
    (m : InviteStore.Invites) :
  invites_keyed m ->
  let r := (InviteStore.createInvite uuid now payload m).1 in
  let m' := (InviteStore.createInvite uuid now payload m).2 in
  InviteStore.getById (InviteStore.id r) m' = Some r /\
  InviteStore.status r = InviteStore.pending /\
  InviteStore.fromUserId r = InviteStore.p_fromUserId payload /\
  InviteStore.toUserId r = InviteStore.p_toUserId payload /\
  forall k, k <> InviteStore.id r -> InviteStore.getById k m' = InviteStore.getById k m.
Proof.
  intros [Hnd Hids] r m'.
  destruct (createInvite_cases uuid now payload m) as (Hp & Hf & Ht & Hcase).
  fold r m' in Hp, Hf, Ht, Hcase. repeat (split; [try done|]).
  - destruct Hcase as [[Hin ->]|(_ & Hid & ->)].
    + apply values_elem in Hin as [k Hin]. rewrite (Hids k r Hin).
      by apply map_get_unique.
    + rewrite Hid. apply map_get_set.
  - intros k Hk. destruct Hcase as [[Hin ->]|(_ & Hid & ->)]; [done|].
    rewrite Hid in Hk. by apply map_get_set_other.
Qed.

Lemma createInvite_then_getById_witness :
  let r := (InviteStore.createInvite "i3" 300 ann_again sample_invites).1 in
  let m' := (InviteStore.createInvite "i3" 300 ann_again sample_invites).2 in
  InviteStore.getById (InviteStore.id r) m' = Some r /\
  InviteStore.status r = InviteStore.pending /\
  InviteStore.fromUserId r = InviteStore.p_fromUserId ann_again /\
  InviteStore.toUserId r = InviteStore.p_toUserId ann_again /\
  forall k, k <> InviteStore.id r -> InviteStore.getById k m' = InviteStore.getById k sample_invites.
Proof.
  apply (createInvite_then_getById "i3" 300 ann_again sample_invites).
  split.
  - apply (bool_decide_unpack _). vm_compute. exact I.
  - intros k r Hin. unfold sample_invites in Hin.
    repeat (apply elem_of_cons in Hin as [[= -> ->]|Hin]; [reflexivity|]).
    by apply elem_of_nil in Hin.
Defined.

(** X16. The invite store keeps its shape: if every record is kept under
    its own id and no ordered pair of users has two pending invites, the
    same holds after [createInvite], after [updateStatus] to [accepted] or
    [declined], and after [delete]. *)
Theorem invite_store_invariant (m : InviteStore.Invites) :
  invites_keyed m -> one_pending_per_pair m ->
  (forall uuid now payload,
     let m' := (InviteStore.createInvite uuid now payload m).2 in
     invites_keyed m' /\ one_pending_per_pair m') /\
  (forall inviteId st, st <> InviteStore.pending ->
     let m' := (InviteStore.updateStatus inviteId st m).2 in
     invites_keyed m' /\ one_pending_per_pair m') /\
  (forall inviteId,
     let m' := (InviteStore.delete inviteId m).2 in
     invites_keyed m' /\ one_pending_per_pair m').
Proof.
  intros Hkeyed Hone. split; [|split].
  - intros uuid now payload m'.
    destruct (createInvite_cases uuid now payload m) as (Hp & Hf & Ht & Hcase).
    fold m' in Hcase. destruct Hcase as [[_ ->]|(Hno & Hid & ->)]; [done|]. split.
    + by apply map_set_keeps_keyed.
    + apply map_set_keeps_pairs; [done|]. intros _. by rewrite Hf, Ht.
  - intros inviteId st Hst m'. subst m'.
    destruct (InviteStore.getById inviteId m) as [r|] eqn:Hget.
    + destruct (updateStatus_found inviteId st m r Hget) as (r' & -> & Hst' & Hsame).
      cbn [snd]. split.
      * apply map_set_keeps_keyed; [|done].
        destruct Hsame as [-> _]. destruct Hkeyed as [_ Hids].
        apply Hids. by apply map_get_elem.
      * apply map_set_keeps_pairs; [done|]. intros Hp. congruence.
    + unfold InviteStore.updateStatus. unfold InviteStore.getById in Hget.
      by rewrite Hget.
  - intros inviteId m'. subst m'. cbn [InviteStore.delete snd]. split.
    + by apply map_remove_keeps_keyed.
    + by apply map_remove_keeps_pairs.
Qed.

Lemma invite_store_invariant_witness :
  (forall uuid now payload,
     let m' := (InviteStore.createInvite uuid now payload sample_invites).2 in
     invites_keyed m' /\ one_pending_per_pair m') /\
  (forall inviteId st, st <> InviteStore.pending ->
     let m' := (InviteStore.updateStatus inviteId st sample_invites).2 in
     invites_keyed m' /\ one_pending_per_pair m') /\
  (forall inviteId,
     let m' := (InviteStore.delete inviteId sample_invites).2 in
     invites_keyed m' /\ one_pending_per_pair m').
Proof.
  apply (invite_store_invariant sample_invites).
  - split.
    + apply (bool_decide_unpack _). vm_compute. exact I.
    + intros k r Hin. unfold sample_invites in Hin.
      repeat (apply elem_of_cons in Hin as [[= -> ->]|Hin]; [reflexivity|]).
      by apply elem_of_nil in Hin.
  - apply (bool_decide_unpack _). vm_compute. exact I.
Defined.

Lemma place_perm (x : InviteStore.InviteRecord) (l : list InviteStore.InviteRecord) :
  InviteStore.place x l ≡ₚ x :: l.
Proof.
  induction l as [|y rest IH]; cbn; [done|].
  destruct (InviteStore.createdAt x <? InviteStore.createdAt y); [|done].
  rewrite IH. apply Permutation_swap.
Qed.

Lemma sort_perm (l : list InviteStore.InviteRecord) :
  InviteStore.sort_newest_first l ≡ₚ l.
Proof.
  induction l as [|x rest IH]; cbn; [done|]. by rewrite place_perm, IH.
Qed.

Lemma place_sorted (x : InviteStore.InviteRecord) (l : list InviteStore.InviteRecord) :
  StronglySorted newer_or_same l -> StronglySorted newer_or_same (InviteStore.place x l).
Proof.
  induction l as [|y rest IH]; cbn; intros Hs.
  - constructor; [constructor | constructor].
  - apply StronglySorted_inv in Hs as [Hrest Hy].
    destruct (Z.ltb_spec (InviteStore.createdAt x) (InviteStore.createdAt y)) as [Hlt|Hge].
    + constructor; [by apply IH|].
      rewrite place_perm. constructor; [unfold newer_or_same; lia | done].
    + constructor; [by constructor|].
      constructor; [exact Hge|].
      eapply Forall_impl; [exact Hy|]. unfold newer_or_same. intros z Hz. cbn in Hz. lia.
Qed.

Lemma sort_sorted (l : list InviteStore.InviteRecord) :
  StronglySorted newer_or_same (InviteStore.sort_newest_first l).
Proof.
  induction l as [|x rest IH]; cbn; [constructor | by apply place_sorted].
Qed.

(** Records made at the same instant keep their order. *)
Lemma place_stable (t : Z) (x : InviteStore.InviteRecord) (l : list InviteStore.InviteRecord) :
  filter (fun r => InviteStore.createdAt r = t) (InviteStore.place x l) =
  filter (fun r => InviteStore.createdAt r = t) (x :: l).
Proof.
  induction l as [|y rest IH]; cbn [InviteStore.place]; [done|].
  destruct (Z.ltb_spec (InviteStore.createdAt x) (InviteStore.createdAt y)) as [Hlt|Hge]; [|done].
  rewrite (filter_cons _ y), IH, !(filter_cons _ x), (filter_cons _ y).
  destruct (decide (InviteStore.createdAt y = t)); destruct (decide (InviteStore.createdAt x = t)); try done.
  lia.
Qed.

Lemma sort_stable (t : Z) (l : list InviteStore.InviteRecord) :
  filter (fun r => InviteStore.createdAt r = t) (InviteStore.sort_newest_first l) =
  filter (fun r => InviteStore.createdAt r = t) l.
Proof.
  induction l as [|x rest IH]; cbn [InviteStore.sort_newest_first]; [done|].
  by rewrite place_stable, !filter_cons, IH.
Qed.

Lemma listed_spec (userId : string) (direction : InviteStore.InviteDirection)
    (statusFilter : list InviteStore.InviteStatus) (r : InviteStore.InviteRecord) :
  InviteStore.listed userId direction statusFilter r = true <->
  InviteStore.status r ∈ statusFilter /\
  match direction with
  | InviteStore.incoming => InviteStore.toUserId r = userId
  | InviteStore.outgoing => InviteStore.fromUserId r = userId
  | InviteStore.all => InviteStore.fromUserId r = userId \/ InviteStore.toUserId r = userId
  end.
Proof.
  unfold InviteStore.listed.
  destruct (bool_decide_reflect (InviteStore.status r ∈ statusFilter)) as [Hs|Hs]; cbn.
  - destruct direction.
    + rewrite bool_decide_eq_true. naive_solver.
    + rewrite bool_decide_eq_true. naive_solver.
    + rewrite orb_true_iff, !bool_decide_eq_true. naive_solver.
  - naive_solver.
Qed.

Lemma listForUser_elem (userId : string) (direction : option InviteStore.InviteDirection)
    (statusFilter : option (list InviteStore.InviteStatus)) (m : InviteStore.Invites)
    (r : InviteStore.InviteRecord) :
  r ∈ InviteStore.listForUser userId direction statusFilter m <->
  r ∈ InviteStore.values m /\
  InviteStore.listed userId (default InviteStore.incoming direction)
    (default [InviteStore.pending] statusFilter) r = true.
Proof.
  unfold InviteStore.listForUser. rewrite sort_perm.
  rewrite list_elem_of_In, filter_In, <- list_elem_of_In. done.
Qed.

(** X17. [listForUser] returns exactly the records of the store that have
    one of the wanted statuses and the user at the wanted end (received
    pending invites when neither is given), newest first, and records made
    at the same instant in the order they were stored. *)
Theorem listForUser_selects_and_sorts (userId : string)
    (direction : option InviteStore.InviteDirection)
    (statusFilter : option (list InviteStore.InviteStatus)) (m : InviteStore.Invites) :
  let wanted r :=
    InviteStore.status r ∈ default [InviteStore.pending] statusFilter /\
    match default InviteStore.incoming direction with
    | InviteStore.incoming => InviteStore.toUserId r = userId
    | InviteStore.outgoing => InviteStore.fromUserId r = userId
    | InviteStore.all => InviteStore.fromUserId r = userId \/ InviteStore.toUserId r = userId
    end in
  let result := InviteStore.listForUser userId direction statusFilter m in
  (forall r, r ∈ result <-> r ∈ InviteStore.values m /\ wanted r) /\
  (length result <= length m)%nat /\
  StronglySorted newer_or_same result /\
  (forall t,
     filter (fun r => InviteStore.createdAt r = t) result `sublist_of` InviteStore.values m).
Proof.
  intros wanted result. split; [|split; [|split]].
  - intros r. unfold result. rewrite listForUser_elem, listed_spec. done.
  - unfold result, InviteStore.listForUser. rewrite sort_perm.
    pose proof (filter_length
      (InviteStore.listed userId (default InviteStore.incoming direction)
         (default [InviteStore.pending] statusFilter)) (InviteStore.values m)) as Hlen.
    unfold InviteStore.values in *. rewrite length_fmap in Hlen. lia.
  - apply sort_sorted.
  - intros t.
    unfold result, InviteStore.listForUser. rewrite sort_stable.
    etrans; [apply sublist_filter|].
    induction (InviteStore.values m) as [|x l IH]; cbn; [done|].
    destruct (InviteStore.listed _ _ _ x); [by apply sublist_skip | by apply sublist_cons].
Qed.

(** X18. [updateStatus] on an id the store does not have returns
    [undefined] and changes nothing.  On an id it has, it returns the
    record with the new status and everything else as it was; the record is
    then what [getById] gives for the id, the entries under the other ids
    are untouched, and the ids keep their order. *)
Theorem updateStatus_changes_only_status (inviteId : string) (st : InviteStore.InviteStatus)
    (m : InviteStore.Invites) :
  match InviteStore.getById inviteId m with
  | None => InviteStore.updateStatus inviteId st m = (None, m)
  | Some r =>
      exists r' m',
        InviteStore.updateStatus inviteId st m = (Some r', m') /\
        InviteStore.status r' = st /\ same_invite r' r /\
        InviteStore.getById inviteId m' = Some r' /\
        (forall k, k <> inviteId -> InviteStore.getById k m' = InviteStore.getById k m) /\
        m'.*1 = m.*1
  end.
Proof.
  destruct (InviteStore.getById inviteId m) as [r|] eqn:Hget.
  - destruct (updateStatus_found inviteId st m r Hget) as (r' & Hrun & Hst & Hsame).
    exists r', (InviteStore.map_set inviteId r' m).
    split; [exact Hrun|]. split; [exact Hst|]. split; [exact Hsame|].
    split; [apply map_get_set|]. split.
    + intros k Hk. by apply map_get_set_other.
    + apply map_set_keys. unfold InviteStore.getById in Hget. by rewrite Hget.
  - unfold InviteStore.updateStatus. unfold InviteStore.getById in Hget. by rewrite Hget.
Qed.

(** X19. [delete] tells whether the store had the id; afterwards the id is
    unknown, the entries under the other ids are untouched, and deleting
    the id again returns [false] and changes nothing. *)
Theorem delete_removes_one_entry (inviteId : string) (m : InviteStore.Invites) :
  let found := (InviteStore.delete inviteId m).1 in
  let m' := (InviteStore.delete inviteId m).2 in
  (found = true <-> is_Some (InviteStore.getById inviteId m)) /\
  InviteStore.getById inviteId m' = None /\
  (forall k, k <> inviteId -> InviteStore.getById k m' = InviteStore.getById k m) /\
  InviteStore.delete inviteId m' = (false, m').
Proof.
  unfold InviteStore.delete, InviteStore.getById. cbn [fst snd].
  split; [apply bool_decide_eq_true|]. split; [apply map_get_remove|]. split.
  - intros k Hk. by apply map_get_remove_other.
  - rewrite (map_remove_absent inviteId (InviteStore.map_remove inviteId m))
      by apply map_get_remove.
    f_equal.
    apply bool_decide_eq_false. rewrite map_get_remove. by intros [? ?].
Qed.

(** X20. A decision frees the pair: while an invite is pending, inviting
    the same user again returns that invite; once it has been accepted or
    declined, the next [createInvite] for the pair makes a new pending
    record, with the new id, the new time and the names of the new payload. *)
Theorem invite_again_after_decision (uuid : string) (now : Z) (payload : InviteStore.Payload)
    (m : InviteStore.Invites) (inviteId : string) (r : InviteStore.InviteRecord)
    (st : InviteStore.InviteStatus) :
  one_pending_per_pair m ->
  InviteStore.getById inviteId m = Some r ->
  InviteStore.status r = InviteStore.pending ->
  InviteStore.fromUserId r = InviteStore.p_fromUserId payload ->
  InviteStore.toUserId r = InviteStore.p_toUserId payload ->
  st <> InviteStore.pending ->
  InviteStore.createInvite uuid now payload m = (r, m) /\
  let decided := (InviteStore.updateStatus inviteId st m).2 in
  let fresh := (InviteStore.createInvite uuid now payload decided).1 in
  InviteStore.id fresh = uuid /\ InviteStore.createdAt fresh = now /\
  InviteStore.status fresh = InviteStore.pending /\
  InviteStore.fromDisplayName fresh = InviteStore.p_fromDisplayName payload /\
  InviteStore.toDisplayName fresh = InviteStore.p_toDisplayName payload /\
  (InviteStore.createInvite uuid now payload decided).2 =
    InviteStore.map_set uuid fresh decided.
Proof.
  intros Hone Hget Hp Hf Ht Hst. split.
  - apply createInvite_existing; try done.
    apply values_elem. exists inviteId. by apply map_get_elem.
  - intros decided fresh.
    assert (Hfree : (InviteStore.p_fromUserId payload, InviteStore.p_toUserId payload) ∉
                    pending_pairs (InviteStore.values decided)).
    { unfold decided.
      destruct (updateStatus_found inviteId st m r Hget) as (r' & -> & Hst' & Hsame).
      cbn [snd]. unfold InviteStore.getById in Hget.
      destruct (map_set_shape inviteId r' m) as [[Hn _]|(l1 & v & l2 & Hm & Hv & ->)];
        [congruence|].
      assert (v = r) as -> by congruence.
      unfold one_pending_per_pair in Hone. rewrite Hm in Hone.
      unfold InviteStore.values in *. rewrite fmap_app in *. cbn [fmap list_fmap snd] in *.
      rewrite pending_pairs_app, pending_pairs_cons in *.
      rewrite (bool_decide_eq_true_2 _ Hp) in Hone.
      rewrite bool_decide_eq_false_2 by congruence.
      rewrite Hf, Ht in Hone.
      apply NoDup_app in Hone as (_ & Hdisj & Hone). cbn in Hone.
      apply NoDup_cons in Hone as [Hx _].
      rewrite !elem_of_app. intros [H1|[H2|H3]].
      - apply (Hdisj _ H1). apply elem_of_cons. by left.
      - by apply elem_of_nil in H2.
      - done. }
    destruct (createInvite_fresh uuid now payload decided Hfree)
      as (r0 & Hrun & Hid & Hat & Hpend & _ & Hfn & _ & Htn).
    unfold fresh. rewrite Hrun. cbn [fst snd]. done.
Qed.

Lemma invite_again_after_decision_witness :
  InviteStore.createInvite "i3" 300 ann_again sample_invites = (ann_to_bob, sample_invites) /\
  let decided := (InviteStore.updateStatus "i1" InviteStore.declined sample_invites).2 in
  let fresh := (InviteStore.createInvite "i3" 300 ann_again decided).1 in
  InviteStore.id fresh = "i3" /\ InviteStore.createdAt fresh = 300 /\
  InviteStore.status fresh = InviteStore.pending /\
  InviteStore.fromDisplayName fresh = InviteStore.p_fromDisplayName ann_again /\
  InviteStore.toDisplayName fresh = InviteStore.p_toDisplayName ann_again /\
  (InviteStore.createInvite "i3" 300 ann_again decided).2 =
    InviteStore.map_set "i3" fresh decided.
Proof.
  apply (invite_again_after_decision "i3" 300 ann_again sample_invites "i1" ann_to_bob
           InviteStore.declined).
  - apply (bool_decide_unpack _). vm_compute. exact I.
  - reflexivity.
  - reflexivity.
  - reflexivity.
  - reflexivity.
  - discriminate.
Defined.

(** ** The invite routes *)

Lemma requireSecret_same (s : string) :
  Server.requireSecret (Some s) (Some s) = true.
Proof.
  unfold Server.requireSecret. destruct (String.eqb s "") eqn:He; [done|].
  cbn. by rewrite String.eqb_refl.
Qed.

Lemma requireSecret_rejects (s : string) (header : option string) :
  s <> "" -> header <> Some s -> Server.requireSecret (Some s) header = false.
Proof.
  intros Hs Hh. unfold Server.requireSecret.
  apply String.eqb_neq in Hs. rewrite Hs.
  destruct header as [h|]; [|done].
  assert (h <> s) as Hne by congruence. apply String.eqb_neq in Hne. rewrite Hne.
  apply andb_false_r.
Qed.

Lemma serializeInvite_sent (r : InviteStore.InviteRecord) (userId : string) :
  InviteStore.fromUserId r = userId ->
  sent_view userId (InviteStore.status r) (InviteRoutes.serializeInvite r userId).
Proof.
  intros Hf. unfold sent_view, InviteRoutes.serializeInvite. cbn.
  by rewrite bool_decide_eq_true_2.
Qed.

Lemma serializeInvite_received (r : InviteStore.InviteRecord) (userId : string) :
  InviteStore.toUserId r = userId ->
  received_view userId (InviteStore.status r) (InviteRoutes.serializeInvite r userId).
Proof.
  intros Ht. unfold received_view, InviteRoutes.serializeInvite. cbn.
  split; [done|]. split; [done|]. intros Hne. by rewrite bool_decide_eq_false_2.
Qed.

(** X21. The answer to an invite always shows the invite among the
    sender's pending sent invites: the list that comes with it holds it, and
    every entry of the list is a pending invite sent by the requester, seen
    from the sender's side with the receiver as peer. *)
Theorem post_invite_lists_the_invite (secret header : option string)
    (body : InviteRoutes.InviteBody) (uuid : string) (now : Z) (m : InviteStore.Invites) :
  Server.requireSecret secret header = true ->
  exists invite invites m',
    InviteRoutes.post_invite secret header (Some body) uuid now m =
      (InviteRoutes.InviteMade invite invites, m') /\
    invite ∈ invites /\
    InviteStore.toUserId (InviteRoutes.of_record invite) = InviteRoutes.targetUserId body /\
    Forall (sent_view (InviteRoutes.requesterId body) InviteStore.pending) invites.
Proof.
  intros Hauth. unfold InviteRoutes.post_invite. rewrite Hauth. cbn [negb].
  set (payload := InviteStore.Build_Payload _ _ _ _ _ _ _ _).
  destruct (createInvite_cases uuid now payload m) as (Hp & Hf & Ht & Hcase).
  destruct (InviteStore.createInvite uuid now payload m) as [r m'] eqn:Hrun.
  cbn [fst snd] in *.
  eexists _, _, m'. split; [reflexivity|].
  assert (Hin : r ∈ InviteStore.values m').
  { destruct Hcase as [[Hin ->]|(_ & Hid & ->)]; [done|].
    apply values_elem. exists uuid. apply map_get_elem, map_get_set. }
  split; [|split].
  - apply (list_elem_of_fmap_2
             (fun item => InviteRoutes.serializeInvite item (InviteRoutes.requesterId body))).
    apply listForUser_elem. split; [done|].
    apply listed_spec. cbn. split; [|done]. rewrite Hp. apply elem_of_cons. by left.
  - done.
  - apply Forall_forall. intros item Hitem.
    apply list_elem_of_fmap in Hitem as (r0 & -> & Hr0).
    apply listForUser_elem in Hr0 as [_ Hl]. apply listed_spec in Hl as [Hs Hfrom].
    cbn in Hs, Hfrom. apply list_elem_of_singleton in Hs.
    rewrite <- Hs. by apply serializeInvite_sent.
Qed.

Lemma post_invite_lists_the_invite_witness :
  exists invite invites m',
    InviteRoutes.post_invite None None (Some ann_invites_bob) "i3" 300 sample_invites =
      (InviteRoutes.InviteMade invite invites, m') /\
    invite ∈ invites /\
    InviteStore.toUserId (InviteRoutes.of_record invite) =
      InviteRoutes.targetUserId ann_invites_bob /\
    Forall (sent_view (InviteRoutes.requesterId ann_invites_bob) InviteStore.pending) invites.
Proof.
  apply (post_invite_lists_the_invite None None ann_invites_bob "i3" 300 sample_invites).
  reflexivity.
Defined.

(** X22. Deciding on an invite: an unknown id is answered 404 and a
    decision by a user who is neither the sender nor the receiver 403, both
    without touching the store; a decision by one of the two is stored, and
    the answer shows the invite with the decided status and otherwise as it
    was.  The route never answers 500. *)
Theorem post_invite_status_outcomes (secret header : option string) (inviteId : string)
    (data : InviteRoutes.StatusBody) (m : InviteStore.Invites) :
  Server.requireSecret secret header = true -> inviteId <> "" ->
  (forall body, (InviteRoutes.post_invite_status secret header inviteId body m).1 <>
                InviteRoutes.ServerError) /\
  match InviteStore.getById inviteId m with
  | None =>
      InviteRoutes.post_invite_status secret header inviteId (Some data) m =
        (InviteRoutes.NotFound, m)
  | Some record =>
      if bool_decide (InviteRoutes.actorUserId data = InviteStore.fromUserId record \/
                      InviteRoutes.actorUserId data = InviteStore.toUserId record)
      then exists updated m',
        InviteRoutes.post_invite_status secret header inviteId (Some data) m =
          (InviteRoutes.InviteChanged
             (InviteRoutes.serializeInvite updated (InviteRoutes.actorUserId data)), m') /\
        InviteStore.status updated = InviteRoutes.decided (InviteRoutes.decision data) /\
        same_invite updated record /\
        InviteStore.getById inviteId m' = Some updated /\
        (forall k, k <> inviteId -> InviteStore.getById k m' = InviteStore.getById k m)
      else
        InviteRoutes.post_invite_status secret header inviteId (Some data) m =
          (InviteRoutes.Forbidden, m)
  end.
Proof.
  intros Hauth Hid. apply String.eqb_neq in Hid. split.
  - intros body. unfold InviteRoutes.post_invite_status. rewrite Hauth, Hid. cbn [negb].
    destruct body as [d|]; [|done].
    destruct (InviteStore.getById inviteId m) as [r|] eqn:Hget; [|done].
    destruct (_ && _); [done|].
    destruct (updateStatus_found inviteId (InviteRoutes.decided (InviteRoutes.decision d)) m r Hget)
      as (r' & -> & _). done.
  - unfold InviteRoutes.post_invite_status. rewrite Hauth, Hid. cbn [negb].
    destruct (InviteStore.getById inviteId m) as [r|] eqn:Hget; [|done].
    destruct (updateStatus_found inviteId
                (InviteRoutes.decided (InviteRoutes.decision data)) m r Hget)
      as (r' & Hrun & Hst & Hsame).
    case_bool_decide as Hparty.
    + assert (negb (bool_decide (InviteStore.fromUserId r = InviteRoutes.actorUserId data)) &&
              negb (bool_decide (InviteStore.toUserId r = InviteRoutes.actorUserId data)) = false)
        as ->.
      { destruct Hparty as [Hp|Hp]; rewrite Hp.
        - by rewrite bool_decide_eq_true_2.
        - rewrite (bool_decide_eq_true_2 (InviteStore.toUserId r = _)) by done.
          apply andb_false_r. }
      rewrite Hrun. eexists r', _. split; [reflexivity|].
      split; [done|]. split; [done|]. split; [apply map_get_set|].
      intros k Hk. by apply map_get_set_other.
    + rewrite !bool_decide_eq_false_2 by naive_solver. done.
Qed.

Lemma post_invite_status_outcomes_witness :
  (forall body, (InviteRoutes.post_invite_status None None "i1" body sample_invites).1 <>
                InviteRoutes.ServerError) /\
  exists updated m',
    InviteRoutes.post_invite_status None None "i1"
      (Some {| InviteRoutes.decision := InviteRoutes.Accept;
               InviteRoutes.actorUserId := "bob" |}) sample_invites =
      (InviteRoutes.InviteChanged (InviteRoutes.serializeInvite updated "bob"), m') /\
    InviteStore.status updated = InviteStore.accepted /\
    same_invite updated ann_to_bob /\
    InviteStore.getById "i1" m' = Some updated /\
    (forall k, k <> "i1" -> InviteStore.getById k m' = InviteStore.getById k sample_invites).
Proof.
  apply (post_invite_status_outcomes None None "i1"
           {| InviteRoutes.decision := InviteRoutes.Accept;
              InviteRoutes.actorUserId := "bob" |} sample_invites).
  - reflexivity.
  - discriminate.
Defined.

(** X23. With a secret configured, a request whose [x-presence-secret]
    header is missing or different is answered 401 by each of the five
    protected routes, and neither the presence store nor the invite store
    changes; with the right header the check lets the request through. *)
Theorem wrong_secret_changes_nothing (s : string) (header : option string) :
  s <> "" -> header <> Some s ->
  (forall body w, Server.post_heartbeat (Some s) header body w = (Normal Server.Unauthorized, w)) /\
  (forall userId w, Server.post_offline (Some s) header userId w = (Normal Server.Unauthorized, w)) /\
  (forall userId direction st m,
     InviteRoutes.get_invites (Some s) header userId direction st m = InviteRoutes.Unauthorized) /\
  (forall body uuid now m,
     InviteRoutes.post_invite (Some s) header body uuid now m = (InviteRoutes.Unauthorized, m)) /\
  (forall inviteId body m,
     InviteRoutes.post_invite_status (Some s) header inviteId body m =
       (InviteRoutes.Unauthorized, m)) /\
  Server.requireSecret (Some s) (Some s) = true.
Proof.
  intros Hs Hh. pose proof (requireSecret_rejects s header Hs Hh) as Hrej.
  unfold Server.post_heartbeat, Server.post_offline, InviteRoutes.get_invites,
    InviteRoutes.post_invite, InviteRoutes.post_invite_status.
  rewrite Hrej. cbn [negb]. repeat (split; [done|]). apply requireSecret_same.
Qed.

Lemma wrong_secret_changes_nothing_witness :
  (forall body w, Server.post_heartbeat (Some "s3cret-s3cret") (Some "guess") body w =
                  (Normal Server.Unauthorized, w)) /\
  (forall userId w, Server.post_offline (Some "s3cret-s3cret") (Some "guess") userId w =
                    (Normal Server.Unauthorized, w)) /\
  (forall userId direction st m,
     InviteRoutes.get_invites (Some "s3cret-s3cret") (Some "guess") userId direction st m =
       InviteRoutes.Unauthorized) /\
  (forall body uuid now m,
     InviteRoutes.post_invite (Some "s3cret-s3cret") (Some "guess") body uuid now m =
       (InviteRoutes.Unauthorized, m)) /\
  (forall inviteId body m,
     InviteRoutes.post_invite_status (Some "s3cret-s3cret") (Some "guess") inviteId body m =
       (InviteRoutes.Unauthorized, m)) /\
  Server.requireSecret (Some "s3cret-s3cret") (Some "s3cret-s3cret") = true.
Proof.
  apply (wrong_secret_changes_nothing "s3cret-s3cret" (Some "guess")).
  - discriminate.
  - discriminate.
Defined.

Lemma listed_outgoing_filter (userId : string) (st : InviteStore.InviteStatus)
    (l : list InviteStore.InviteRecord) :
  List.filter (InviteStore.listed userId InviteStore.outgoing [st]) l =
  filter (fun r => InviteStore.fromUserId r = userId /\ InviteStore.status r = st) l.
Proof.
  induction l as [|r l IH]; [done|]. cbn [List.filter]. rewrite filter_cons, IH.
  destruct (InviteStore.listed userId InviteStore.outgoing [st] r) eqn:Hl.
  - apply listed_spec in Hl as [Hs Hf]. apply list_elem_of_singleton in Hs.
    by rewrite decide_True.
  - rewrite decide_False; [done|]. intros [Hf Hs].
    assert (InviteStore.listed userId InviteStore.outgoing [st] r = true) as Habs; [|congruence].
    apply listed_spec. split; [|done]. rewrite Hs. apply elem_of_cons. by left.
Qed.

Lemma listed_incoming_filter (userId : string) (st : InviteStore.InviteStatus)
    (l : list InviteStore.InviteRecord) :
  List.filter (InviteStore.listed userId InviteStore.incoming [st]) l =
  filter (fun r => InviteStore.toUserId r = userId /\ InviteStore.status r = st) l.
Proof.
  induction l as [|r l IH]; [done|]. cbn [List.filter]. rewrite filter_cons, IH.
  destruct (InviteStore.listed userId InviteStore.incoming [st] r) eqn:Hl.
  - apply listed_spec in Hl as [Hs Hf]. apply list_elem_of_singleton in Hs.
    by rewrite decide_True.
  - rewrite decide_False; [done|]. intros [Hf Hs].
    assert (InviteStore.listed userId InviteStore.incoming [st] r = true) as Habs; [|congruence].
    apply listed_spec. split; [|done]. rewrite Hs. apply elem_of_cons. by left.
Qed.

Lemma of_record_serialized (userId : string) (l : list InviteStore.InviteRecord) :
  InviteRoutes.of_record <$> map (fun r => InviteRoutes.serializeInvite r userId) l = l.
Proof. induction l as [|r l IH]; cbn; [done | by rewrite IH]. Qed.

(** X24. Listing invites over HTTP, for the [userId] parameter trimmed.
    Without a [direction] parameter, or with [outgoing], the answer holds
    exactly the stored invites the user sent that have the status asked for
    (pending when none is given), newest first, each serialized from the
    user's side: direction outgoing, the receiver as peer.  With [incoming]
    it holds exactly the stored invites the user received that have the
    status, newest first, each with the sender as peer and direction
    incoming unless the user sent it to themselves.  A [direction] or a
    [status] that is none of the known words is answered 400, and so is a
    [userId] that is missing, no string, or blank. *)
Theorem get_invites_views (secret header : option string) (raw : string)
    (statusParam : option string) (st : InviteStore.InviteStatus) (m : InviteStore.Invites) :
  Server.requireSecret secret header = true -> Text.trim raw <> "" ->
  InviteRoutes.parse_status (default "pending" statusParam) = Some st ->
  let userId := Text.trim raw in
  (exists sent,
     Requests.get_invites secret header (Some raw) None statusParam m =
       InviteRoutes.InvitesListed sent /\
     Requests.get_invites secret header (Some raw) (Some "outgoing") statusParam m =
       InviteRoutes.InvitesListed sent /\
     InviteRoutes.of_record <$> sent ≡ₚ
       filter (fun r => InviteStore.fromUserId r = userId /\ InviteStore.status r = st)
         (InviteStore.values m) /\
     StronglySorted newer_or_same (InviteRoutes.of_record <$> sent) /\
     Forall (fun item =>
               item = InviteRoutes.serializeInvite (InviteRoutes.of_record item) userId /\
               sent_view userId st item) sent) /\
  (exists received,
     Requests.get_invites secret header (Some raw) (Some "incoming") statusParam m =
       InviteRoutes.InvitesListed received /\
     InviteRoutes.of_record <$> received ≡ₚ
       filter (fun r => InviteStore.toUserId r = userId /\ InviteStore.status r = st)
         (InviteStore.values m) /\
     StronglySorted newer_or_same (InviteRoutes.of_record <$> received) /\
     Forall (fun item =>
               item = InviteRoutes.serializeInvite (InviteRoutes.of_record item) userId /\
               received_view userId st item) received) /\
  (forall word, InviteRoutes.parse_direction word = None ->
     Requests.get_invites secret header (Some raw) (Some word) statusParam m =
       InviteRoutes.BadRequest "Invalid direction") /\
  (forall direction word, InviteRoutes.parse_direction (default "outgoing" direction) <> None ->
     InviteRoutes.parse_status word = None ->
     Requests.get_invites secret header (Some raw) direction (Some word) m =
       InviteRoutes.BadRequest "Invalid status") /\
  (forall blank direction status,
     blank = None \/ (exists s, blank = Some s /\ Text.trim s = "") ->
     Requests.get_invites secret header blank direction status m =
       InviteRoutes.BadRequest "userId is required").
Proof.
  intros Hauth Hid Hst userId. apply String.eqb_neq in Hid.
  unfold Requests.get_invites, InviteRoutes.get_invites. rewrite Hauth. fold userId.
  fold userId in Hid. rewrite Hid. cbn [negb from_option id].
  split; [|split; [|split; [|split]]].
  - change (InviteRoutes.parse_direction "outgoing") with (Some InviteStore.outgoing).
    cbn [from_option id] in Hst. rewrite Hst. eexists. split; [reflexivity|].
    split; [reflexivity|]. rewrite of_record_serialized.
    split; [|split].
    + unfold InviteStore.listForUser. rewrite sort_perm. cbn [from_option id].
      by rewrite listed_outgoing_filter.
    + apply sort_sorted.
    + apply Forall_forall. intros item Hitem.
      apply list_elem_of_fmap in Hitem as (r & -> & Hr).
      split; [reflexivity|].
      apply listForUser_elem in Hr as [_ Hl]. apply listed_spec in Hl as [Hs Hfrom].
      cbn in Hs, Hfrom. apply list_elem_of_singleton in Hs.
      rewrite <- Hs. by apply serializeInvite_sent.
  - change (InviteRoutes.parse_direction "incoming") with (Some InviteStore.incoming).
    cbn [from_option id] in Hst. rewrite Hst. eexists. split; [reflexivity|].
    rewrite of_record_serialized.
    split; [|split].
    + unfold InviteStore.listForUser. rewrite sort_perm. cbn [from_option id].
      by rewrite listed_incoming_filter.
    + apply sort_sorted.
    + apply Forall_forall. intros item Hitem.
      apply list_elem_of_fmap in Hitem as (r & -> & Hr).
      split; [reflexivity|].
      apply listForUser_elem in Hr as [_ Hl]. apply listed_spec in Hl as [Hs Hto].
      cbn in Hs, Hto. apply list_elem_of_singleton in Hs.
      rewrite <- Hs. by apply serializeInvite_received.
  - intros word Hword. by rewrite Hword.
  - intros direction word Hdir Hword.
    destruct (InviteRoutes.parse_direction (default "outgoing" direction)); [|done].
    cbn [from_option id]. by rewrite Hword.
  - intros blank direction status [->|(s & -> & ->)]; reflexivity.
Qed.

Lemma get_invites_views_witness :
  let userId := Text.trim " ann " in
  (exists sent,
     Requests.get_invites None None (Some " ann ") None None sample_invites =
       InviteRoutes.InvitesListed sent /\
     Requests.get_invites None None (Some " ann ") (Some "outgoing") None sample_invites =
       InviteRoutes.InvitesListed sent /\
     InviteRoutes.of_record <$> sent ≡ₚ
       filter (fun r => InviteStore.fromUserId r = userId /\
                        InviteStore.status r = InviteStore.pending)
         (InviteStore.values sample_invites) /\
     StronglySorted newer_or_same (InviteRoutes.of_record <$> sent) /\
     Forall (fun item =>
               item = InviteRoutes.serializeInvite (InviteRoutes.of_record item) userId /\
               sent_view userId InviteStore.pending item) sent) /\
  (exists received,
     Requests.get_invites None None (Some " ann ") (Some "incoming") None sample_invites =
       InviteRoutes.InvitesListed received /\
     InviteRoutes.of_record <$> received ≡ₚ
       filter (fun r => InviteStore.toUserId r = userId /\
                        InviteStore.status r = InviteStore.pending)
         (InviteStore.values sample_invites) /\
     StronglySorted newer_or_same (InviteRoutes.of_record <$> received) /\
     Forall (fun item =>
               item = InviteRoutes.serializeInvite (InviteRoutes.of_record item) userId /\
               received_view userId InviteStore.pending item) received) /\
  (forall word, InviteRoutes.parse_direction word = None ->
     Requests.get_invites None None (Some " ann ") (Some word) None sample_invites =
       InviteRoutes.BadRequest "Invalid direction") /\
  (forall direction word, InviteRoutes.parse_direction (default "outgoing" direction) <> None ->
     InviteRoutes.parse_status word = None ->
     Requests.get_invites None None (Some " ann ") direction (Some word) sample_invites =
       InviteRoutes.BadRequest "Invalid status") /\
  (forall blank direction status,
     blank = None \/ (exists s, blank = Some s /\ Text.trim s = "") ->
     Requests.get_invites None None blank direction status sample_invites =
       InviteRoutes.BadRequest "userId is required").
Proof.
  apply (get_invites_views None None " ann " None InviteStore.pending sample_invites).
  - reflexivity.
  - discriminate.
  - reflexivity.
Defined.

(** ** The player directory *)

Lemma shouldBroadcast_watched (event : UserChangeWatcher.ChangeEvent) :
  UserChangeWatcher.shouldBroadcast event = true ->
  UserChangeWatcher.watched (UserChangeWatcher.operationType event) = true.
Proof.
  unfold UserChangeWatcher.shouldBroadcast.
  by destruct (UserChangeWatcher.operationType event).
Qed.

Lemma on_change_step (iso : string) (event : UserChangeWatcher.ChangeEvent)
    (st : UserChangeWatcher.DirectoryState) :
  UserChangeWatcher.on_change iso event st =
  if UserChangeWatcher.shouldBroadcast event
  then UserChangeWatcher.applyPlayerDirectoryChange iso
         (UserChangeWatcher.normalizeDocumentId (UserChangeWatcher.documentKey event)) st
  else st.
Proof.
  unfold UserChangeWatcher.on_change.
  destruct (UserChangeWatcher.shouldBroadcast event) eqn:Hb; [|done].
  by rewrite (shouldBroadcast_watched event Hb).
Qed.

Lemma on_changes_snoc (events : list (string * UserChangeWatcher.ChangeEvent))
    (e : string * UserChangeWatcher.ChangeEvent) (st : UserChangeWatcher.DirectoryState) :
  UserChangeWatcher.on_changes (events ++ [e]) st =
  UserChangeWatcher.on_change e.1 e.2 (UserChangeWatcher.on_changes events st).
Proof. unfold UserChangeWatcher.on_changes. by rewrite fold_left_app. Qed.

Lemma existsb_tracked (fields : list string) :
  existsb UserChangeWatcher.tracked fields = true <->
  exists field, field ∈ fields /\ field ∈ UserChangeWatcher.TRACKED_FIELDS.
Proof.
  rewrite existsb_exists. unfold UserChangeWatcher.tracked. split.
  - intros (x & Hin & Hx). apply list_elem_of_In in Hin.
    apply bool_decide_eq_true_1 in Hx. by exists x.
  - intros (x & Hin & Hx). exists x. rewrite <- list_elem_of_In.
    by rewrite bool_decide_eq_true.
Qed.

Lemma on_changes_run
    (events : list (string * UserChangeWatcher.ChangeEvent))
    (st : UserChangeWatcher.DirectoryState) :
  let relevant := List.filter (fun e => UserChangeWatcher.shouldBroadcast e.2) events in
  let st' := UserChangeWatcher.on_changes events st in
  UserChangeWatcher.version st' = UserChangeWatcher.version st + Z.of_nat (length relevant) /\
  match last relevant with
  | None => st' = st
  | Some e =>
      UserChangeWatcher.lastChangeAt st' = Some e.1 /\
      UserChangeWatcher.lastDocumentId st' =
        UserChangeWatcher.normalizeDocumentId (UserChangeWatcher.documentKey e.2)
  end.
Proof.
  induction events as [|e events IH] using rev_ind; cbn zeta.
  - cbn. split; [lia | done].
  - cbn zeta in IH. destruct IH as [IHv IHl].
    rewrite on_changes_snoc, on_change_step, List.filter_app. cbn [List.filter].
    destruct (UserChangeWatcher.shouldBroadcast e.2) eqn:Hb.
    + rewrite last_snoc, length_app. cbn. split; [lia | done].
    + rewrite app_nil_r. done.
Qed.

(** X25. The directory version counts the relevant changes: after the
    listener has handled a sequence of events, the version has grown by the
    number of events that pass [shouldBroadcast], whatever their document
    keys; if there is none, the state is untouched, and otherwise the state
    names the instant and the document of the last one. *)
Theorem directory_version_counts_changes
    (events : list (string * UserChangeWatcher.ChangeEvent))
    (st : UserChangeWatcher.DirectoryState) :
  let relevant := List.filter (fun e => UserChangeWatcher.shouldBroadcast e.2) events in
  let st' := UserChangeWatcher.on_changes events st in
  UserChangeWatcher.version st' = UserChangeWatcher.version st + Z.of_nat (length relevant) /\
  match last relevant with
  | None => st' = st
  | Some e =>
      UserChangeWatcher.lastChangeAt st' = Some e.1 /\
      UserChangeWatcher.lastDocumentId st' =
        UserChangeWatcher.normalizeDocumentId (UserChangeWatcher.documentKey e.2)
  end.
Proof.
  induction events as [|e events IH] using rev_ind; cbn zeta.
  - cbn. split; [lia | done].
  - cbn zeta in IH. destruct IH as [IHv IHl].
    rewrite on_changes_snoc, on_change_step, List.filter_app. cbn [List.filter].
    destruct (UserChangeWatcher.shouldBroadcast e.2) eqn:Hb.
    + rewrite last_snoc, length_app. cbn. split; [lia | done].
    + rewrite app_nil_r. done.
Qed.

(** X26. Polling the directory: a client that passes the version it was
    given before as [since] is told [changed] exactly if a relevant change
    was handled in between; without [since] the answer is never [changed]. *)
Theorem poll_reports_relevant_changes
    (events : list (string * UserChangeWatcher.ChangeEvent))
    (st : UserChangeWatcher.DirectoryState) :
  let seen := UserChangeWatcher.r_version (UserChangeWatcher.directory_status None st) in
  let st' := UserChangeWatcher.on_changes events st in
  (UserChangeWatcher.r_changed (UserChangeWatcher.directory_status (Some seen) st') = true <->
   exists e, e ∈ events /\ UserChangeWatcher.shouldBroadcast e.2 = true) /\
  UserChangeWatcher.r_changed (UserChangeWatcher.directory_status None st') = false /\
  seen <= UserChangeWatcher.r_version (UserChangeWatcher.directory_status None st').
Proof.
  intros seen st'.
  destruct (on_changes_run events st) as [Hv _]. cbn zeta in Hv.
  fold st' in Hv. cbn [UserChangeWatcher.directory_status UserChangeWatcher.r_changed
    UserChangeWatcher.r_version] in *. subst seen. cbn.
  split; [|split; [done | lia]].
  rewrite Z.ltb_lt, Hv. split.
  - intros Hlt.
    destruct (List.filter (fun e => UserChangeWatcher.shouldBroadcast e.2) events)
      as [|e rest] eqn:Hf; [cbn in Hlt; lia|].
    assert (Hin : In e (List.filter (fun e => UserChangeWatcher.shouldBroadcast e.2) events))
      by (rewrite Hf; by left).
    apply filter_In in Hin as [Hin Hb]. exists e. by rewrite list_elem_of_In.
  - intros (e & Hin & Hb).
    assert (Hin' : In e (List.filter (fun e => UserChangeWatcher.shouldBroadcast e.2) events))
      by (apply filter_In; by rewrite <- list_elem_of_In).
    destruct (List.filter _ events); [done | cbn; lia].
Qed.

(** X27. Which events count: an insert, a replace and a delete always
    raise the version by one; an update raises it exactly if one of the
    fields it sets or removes is a tracked profile field, and otherwise
    leaves the state as it is; so does an event of any other kind. *)
Theorem only_tracked_updates_count (iso : string) (event : UserChangeWatcher.ChangeEvent)
    (st : UserChangeWatcher.DirectoryState) :
  let st' := UserChangeWatcher.on_change iso event st in
  let touched :=
    default [] (UserChangeWatcher.updateDescription event ≫= UserChangeWatcher.updatedFields) ++
    default [] (UserChangeWatcher.updateDescription event ≫= UserChangeWatcher.removedFields) in
  match UserChangeWatcher.operationType event with
  | UserChangeWatcher.op_insert | UserChangeWatcher.op_replace | UserChangeWatcher.op_delete =>
      UserChangeWatcher.version st' = UserChangeWatcher.version st + 1
  | UserChangeWatcher.op_update =>
      ((exists field, field ∈ touched /\ field ∈ UserChangeWatcher.TRACKED_FIELDS) ->
       UserChangeWatcher.version st' = UserChangeWatcher.version st + 1) /\
      ((forall field, field ∈ touched -> field ∉ UserChangeWatcher.TRACKED_FIELDS) ->
       st' = st)
  | UserChangeWatcher.op_other _ => st' = st
  end.
Proof.
  intros st' touched. unfold st'. rewrite on_change_step.
  unfold UserChangeWatcher.shouldBroadcast.
  destruct (UserChangeWatcher.operationType event); try done.
  set (updated := default [] (UserChangeWatcher.updateDescription event ≫=
                              UserChangeWatcher.updatedFields)) in *.
  set (removed := default [] (UserChangeWatcher.updateDescription event ≫=
                              UserChangeWatcher.removedFields)) in *.
  assert (Hiff : existsb UserChangeWatcher.tracked updated ||
                 existsb UserChangeWatcher.tracked removed = true <->
                 exists field, field ∈ touched /\ field ∈ UserChangeWatcher.TRACKED_FIELDS).
  { rewrite orb_true_iff, !existsb_tracked. unfold touched. split.
    - intros [(f & Hin & Ht)|(f & Hin & Ht)]; exists f; rewrite elem_of_app; auto.
    - intros (f & Hin & Ht). apply elem_of_app in Hin as [Hin|Hin]; [left | right];
        by exists f. }
  split; intros Htouched.
  - apply Hiff in Htouched. rewrite Htouched.
    destruct ((length updated =? 0)%nat && (length removed =? 0)%nat) eqn:Hempty; [|done].
    apply andb_prop in Hempty as [H1 H2]. apply Nat.eqb_eq in H1, H2.
    destruct updated; [|done]. destruct removed; done.
  - assert (Hno : existsb UserChangeWatcher.tracked updated ||
                  existsb UserChangeWatcher.tracked removed = false).
    { apply not_true_is_false. intros Hex.
      apply Hiff in Hex as (field & Hin & Htr). by destruct (Htouched field Hin). }
    rewrite Hno. by destruct (_ && _).
Qed.

(** ** Reading presence over HTTP *)

Lemma filter_strings_strings (ids : list string) :
  filter_strings (JStr <$> ids) = ids.
Proof. induction ids as [|x ids IH]; cbn; [done | by rewrite IH]. Qed.

(** X28. A heartbeat over HTTP can be read back: until the record expires,
    [GET /presence/:userId] answers with the user, the time of the heartbeat
    as [lastSeen], the metadata sent, the time left as [ttlMs] and, while
    time is left, the status sent; from the expiry on it answers 404.
    [POST /presence/offline] trims the [userId] of its body: when the
    trimmed id is the user's id, the next read answers 404; when it is
    another id (as for a user whose id has white space around it, which the
    heartbeat stores as sent), the user's record stays; a body whose
    [userId] is missing, no string or blank is answered 400 and changes
    nothing. *)
Theorem http_heartbeat_then_read (secret header : option string)
    (payload : Server.HeartbeatPayload) (w : World) :
  Server.requireSecret secret header = true ->
  let u := Server.p_userId payload in
  let now := clock w (reads w) in
  let expiry := now + Z.max 1000 (default (this_ttlMs w) (Server.p_ttlMs payload)) in
  let w1 := (Server.post_heartbeat secret header (Some payload) w).2 in
  (clock w1 (reads w1) < expiry ->
   exists entry,
     PresenceReads.get_presence_one u w1 =
       (Normal (PresenceReads.One entry (Z.max 0 (expiry - clock w1 (S (reads w1))))),
        set_reads (S (S (reads w1))) w1) /\
     u_userId entry = u /\ u_lastSeen entry = now /\
     u_metadata entry = Server.p_metadata payload /\
     (clock w1 (S (reads w1)) < expiry -> u_status entry = Stored (Server.p_status payload))) /\
  (expiry <= clock w1 (reads w1) ->
   (PresenceReads.get_presence_one u w1).1 = Normal PresenceReads.NotFound) /\
  (forall v, Text.trim v <> "" ->
   exists w2,
     Requests.post_offline secret header (Some (JStr v)) w1 = (Normal Server.NoContent, w2) /\
     clock w2 = clock w1 /\ reads w2 = reads w1 /\
     (Text.trim v = u ->
      PresenceReads.get_presence_one u w2 = (Normal PresenceReads.NotFound, w2)) /\
     (Text.trim v <> u -> this_store w2 !! u = this_store w1 !! u)) /\
  (forall body, (forall v, body = Some (JStr v) -> Text.trim v = "") ->
   Requests.post_offline secret header body w1 = (Normal Server.BadRequest, w1)).
Proof.
  intros Hauth u now expiry w1.
  set (r := {| userId := u; status := Server.p_status payload; lastSeen := now;
               expiresAt := expiry; metadata := Server.p_metadata payload |}).
  assert (Hw1 : w1 = set_reads (S (S (reads w)))
                       (set_store (<[u := r]> (this_store w))
                          (set_calls (calls w ++ [CallUpsert (JStr u)]) w))).
  { unfold w1, Server.post_heartbeat. rewrite Hauth. cbn [negb].
    erewrite bind_normal; [|apply upsert_run]. reflexivity. }
  assert (Hlook : this_store w1 !! u = Some r).
  { rewrite Hw1. fields. apply lookup_insert_eq. }
  split; [|split; [|split]].
  - intros Hlive. unfold PresenceReads.get_presence_one.
    erewrite bind_normal; [|by apply (getOne_live u w1 r Hlook)].
    eexists. split; [reflexivity|]. cbn.
    split; [done|]. split; [done|]. split; [done|].
    intros Hlater. unfold effective. cbn.
    destruct (Z.ltb_spec 0 (Z.max 0 (expiry - clock w1 (S (reads w1))))); [done | lia].
  - intros Hdead. unfold PresenceReads.get_presence_one.
    erewrite bind_normal; [|by apply (getOne_expired u w1 r Hlook)]. done.
  - intros v Hv. apply String.eqb_neq in Hv.
    unfold Requests.post_offline, Server.post_offline. rewrite Hauth, Hv. cbn [negb].
    eexists. split; [unfold bind; rewrite markOffline_run; reflexivity|].
    fields. split; [done|]. split; [done|]. split.
    + intros ->. unfold PresenceReads.get_presence_one.
      erewrite bind_normal; [|apply getOne_absent; fields; apply lookup_delete_eq]. done.
    + intros Hne. by apply lookup_delete_ne.
  - intros body Hbody.
    assert (Hblank : match body with Some (JStr s) => Text.trim s | _ => "" end = "").
    { destruct body as [[| | |s| |]|]; try reflexivity. by apply Hbody. }
    unfold Requests.post_offline, Server.post_offline. rewrite Hauth, Hblank. reflexivity.
Qed.

Lemma http_heartbeat_then_read_witness :
  let w := quiet_world 1000 60000 in
  let u := Server.p_userId away_payload in
  let now := clock w (reads w) in
  let expiry := now + Z.max 1000 (default (this_ttlMs w) (Server.p_ttlMs away_payload)) in
  let w1 := (Server.post_heartbeat None None (Some away_payload) w).2 in
  (clock w1 (reads w1) < expiry ->
   exists entry,
     PresenceReads.get_presence_one u w1 =
       (Normal (PresenceReads.One entry (Z.max 0 (expiry - clock w1 (S (reads w1))))),
        set_reads (S (S (reads w1))) w1) /\
     u_userId entry = u /\ u_lastSeen entry = now /\
     u_metadata entry = Server.p_metadata away_payload /\
     (clock w1 (S (reads w1)) < expiry ->
      u_status entry = Stored (Server.p_status away_payload))) /\
  (expiry <= clock w1 (reads w1) ->
   (PresenceReads.get_presence_one u w1).1 = Normal PresenceReads.NotFound) /\
  (forall v, Text.trim v <> "" ->
   exists w2,
     Requests.post_offline None None (Some (JStr v)) w1 = (Normal Server.NoContent, w2) /\
     clock w2 = clock w1 /\ reads w2 = reads w1 /\
     (Text.trim v = u ->
      PresenceReads.get_presence_one u w2 = (Normal PresenceReads.NotFound, w2)) /\
     (Text.trim v <> u -> this_store w2 !! u = this_store w1 !! u)) /\
  (forall body, (forall v, body = Some (JStr v) -> Text.trim v = "") ->
   Requests.post_offline None None body w1 = (Normal Server.BadRequest, w1)).
Proof.
  apply (http_heartbeat_then_read None None away_payload (quiet_world 1000 60000)).
  reflexivity.
Defined.

(** A user whose id has white space around it cannot be taken offline over
    HTTP: the heartbeat stores the id as sent, the offline route trims it. *)
Example padded_id_stays_online :
  let w1 := (Server.post_heartbeat None None (Some padded_payload) (quiet_world 1000 60000)).2 in
  exists w2,
    Requests.post_offline None None (Some (JStr " p ")) w1 = (Normal Server.NoContent, w2) /\
    is_Some (this_store w2 !! " p ").
Proof. eexists. split; [reflexivity|]. by eexists. Qed.

(** X29. The two ways to ask for many users agree on the ids the HTTP
    route extracts: [GET /presence] splits its [userIds] parameter at the
    commas, trims the pieces and drops the empty ones ([idsSchema]); in the
    same state, a [query-presence] message that carries exactly those ids
    answers with the same [users] array, and both leave the store in the
    same state. *)
Theorem http_and_ws_queries_agree (c : Conn) (msg : ClientMsg) (raw : string)
    (ids : list string) (w : World) :
  Text.idsSchema raw = Some ids ->
  m_type msg = Some (JStr "query-presence") ->
  m_userIds msg = Some (JArr (JStr <$> ids)) ->
  sendThrows w c = false ->
  exists users w1,
    Requests.get_presence (Some raw) w = (Normal (PresenceReads.Many users), w1) /\
    WsSubscriptions.on_message c (Parsed msg) w =
      (Normal tt, set_sent (sent w1 ++ [(c, PresenceResponse (m_requestId msg) users)]) w1) /\
    WsServer.on_message c (Parsed msg) w =
      (Normal tt, set_sent (sent w1 ++ [(c, PresenceResponse (m_requestId msg) users)]) w1).
Proof.
  intros Hparse Htype Hids Hsend.
  assert (Hraw : String.eqb raw "" = false).
  { unfold Text.idsSchema in Hparse. by destruct (String.eqb raw ""). }
  destruct (query_run c msg w) as (records & w1 & Hmany & Hrun).
  { rewrite Htype. reflexivity. }
  { rewrite Htype. reflexivity. }
  { rewrite Htype, Hids. reflexivity. }
  { exact Hsend. }
  rewrite Hids in Hmany. cbn [array_items] in Hmany. rewrite filter_strings_strings in Hmany.
  exists (map toEntry records), w1. split; [|split].
  - unfold Requests.get_presence. rewrite Hraw, Hparse.
    unfold PresenceReads.get_presence. erewrite bind_normal; [|exact Hmany]. reflexivity.
  - exact Hrun.
  - unfold WsServer.on_message, WsServer.message_body. rewrite Htype, Hids.
    cbn [is_literal String.eqb Ascii.eqb Bool.eqb andb truthy_prop is_array array_items].
    rewrite filter_strings_strings.
    apply try_catch_normal. erewrite bind_normal; [|exact Hmany].
    apply ws_send_ok. pose proof (getMany_effects ids w) as (rs & w' & Hm & Hstep & _).
    rewrite Hmany in Hm. injection Hm as <- <-.
    destruct Hstep as (_ & _ & _ & _ & _ & Hthrows & _). by rewrite Hthrows.
Qed.

Lemma http_and_ws_queries_agree_witness :
  exists users w1,
    Requests.get_presence (Some " b ,,a") mixed_world =
      (Normal (PresenceReads.Many users), w1) /\
    WsSubscriptions.on_message 5%nat (Parsed (ids_query ["b"; "a"])) mixed_world =
      (Normal tt, set_sent (sent w1 ++ [(5%nat, PresenceResponse (Some (JNum 1)) users)]) w1) /\
    WsServer.on_message 5%nat (Parsed (ids_query ["b"; "a"])) mixed_world =
      (Normal tt, set_sent (sent w1 ++ [(5%nat, PresenceResponse (Some (JNum 1)) users)]) w1).
Proof.
  apply (http_and_ws_queries_agree 5%nat (ids_query ["b"; "a"]) " b ,,a" ["b"; "a"] mixed_world).
  - reflexivity.
  - reflexivity.
  - reflexivity.
  - reflexivity.
Defined.
